(** * Trade dashboard: the client-side analytics of the two pages

    Shallow embedding of the aggregation code of
    [src/app/analysis/page.tsx] (summary statistics, profit histogram,
    cumulative profit series, trades query) and of [src/app/page.tsx]
    (active / history partition, closed profit, win rate, queries).

    Numbers.  A JavaScript number is a binary64 value.  It is modelled by
    [num]: the exact value of a finite number, a rational kept in lowest
    terms, or one of the three special values [+Infinity], [-Infinity] and
    [NaN].  Every arithmetic operation computes the exact result and
    rounds it to the nearest binary64 value, ties to the even mantissa,
    with gradual underflow and overflow to an infinity ([Num.round]).
    Division by zero, [NaN] propagation and the truthiness of numbers are
    modelled; the sign of a zero is not (a zero is always the positive
    zero). *)

From Stdlib Require Import ZArith QArith Qround Qreduction Qabs Qpower Lia Lqa.
From Stdlib Require Import List Bool String Ascii DecimalString.
From Stdlib Require Import Permutation Sorted.
Import ListNotations.

Set Implicit Arguments.

(** ** Numbers *)

Module Num.

Inductive num : Type :=
| Fin (q : Q)
| PInf
| NInf
| NaN.

Definition zero : num := Fin 0.
Definition one : num := Fin 1.
Definition of_Z (z : Z) : num := Fin (inject_Z z).
Definition of_nat (n : nat) : num := of_Z (Z.of_nat n).

Definition is_zero (q : Q) : bool := Qeq_bool q 0.
Definition is_pos (q : Q) : bool := negb (Qle_bool q 0).
Definition is_neg (q : Q) : bool := negb (Qle_bool 0 q).

Definition neg (x : num) : num :=
  match x with
  | Fin q => Fin (Qred (- q))
  | PInf => NInf
  | NInf => PInf
  | NaN => NaN
  end.

(** [2 ^ e] *)
Definition pow2 (e : Z) : Q := (2 ^ e)%Q.

(** the exponent [k] of the binade of [a > 0]: [2^k <= a < 2^(k+1)] *)
Definition ilog2 (a : Q) : Z :=
  let k := (Z.log2 (Qnum a) - Z.log2 (Zpos (Qden a)))%Z in
  if Qle_bool (pow2 k) a then k else (k - 1)%Z.

(** the nearest integer, the even one of the two on a tie *)
Definition rne (x : Q) : Z :=
  let f := Qfloor x in
  match Qcompare (x - inject_Z f) (1 # 2) with
  | Lt => f
  | Gt => (f + 1)%Z
  | Eq => if Z.even f then f else (f + 1)%Z
  end.

(** the exponent of the unit in the last place of [a > 0]: 53 bits of
    mantissa, and never below the subnormal exponent -1074 *)
Definition ulp_exp (a : Q) : Z := Z.max (ilog2 a - 52) (-1074).

(** [a > 0] rounded to the nearest multiple of its unit in the last
    place *)
Definition rv (a : Q) : Q :=
  (inject_Z (rne (a / pow2 (ulp_exp a))) * pow2 (ulp_exp a))%Q.

(** the binary64 value nearest to [a > 0]; [+Infinity] when the rounded
    value reaches [2^1024] *)
Definition round_pos (a : Q) : num :=
  if Qle_bool (pow2 1024) (rv a) then PInf else Fin (Qred (rv a)).

(** the binary64 value nearest to the real number [q], ties to even *)
Definition round (q : Q) : num :=
  match Qcompare q 0 with
  | Eq => zero
  | Gt => round_pos (Qred q)
  | Lt => neg (round_pos (Qred (- q)))
  end.

(** [x + y] *)
Definition add (x y : num) : num :=
  match x, y with
  | NaN, _ | _, NaN => NaN
  | Fin a, Fin b => round (a + b)
  | PInf, NInf | NInf, PInf => NaN
  | PInf, _ | _, PInf => PInf
  | NInf, _ | _, NInf => NInf
  end.

(** [x - y] *)
Definition sub (x y : num) : num :=
  match x, y with
  | NaN, _ | _, NaN => NaN
  | Fin a, Fin b => round (a - b)
  | PInf, PInf | NInf, NInf => NaN
  | PInf, _ | _, NInf => PInf
  | NInf, _ | _, PInf => NInf
  end.

(** the infinity of the sign of [q], [NaN] at zero *)
Definition signed_inf (positive : bool) (q : Q) : num :=
  if is_zero q then NaN
  else if Bool.eqb positive (is_pos q) then PInf else NInf.

(** [x * y] *)
Definition mul (x y : num) : num :=
  match x, y with
  | NaN, _ | _, NaN => NaN
  | Fin a, Fin b => round (a * b)
  | PInf, Fin q | Fin q, PInf => signed_inf true q
  | NInf, Fin q | Fin q, NInf => signed_inf false q
  | PInf, PInf | NInf, NInf => PInf
  | PInf, NInf | NInf, PInf => NInf
  end.

(** [x / y]; a zero divisor is the positive zero *)
Definition div (x y : num) : num :=
  match x, y with
  | NaN, _ | _, NaN => NaN
  | Fin a, Fin b =>
      if is_zero b then
        (if is_zero a then NaN else if is_pos a then PInf else NInf)
      else round (a / b)
  | Fin _, (PInf | NInf) => zero
  | (PInf | NInf), (PInf | NInf) => NaN
  | PInf, Fin b => if is_neg b then NInf else PInf
  | NInf, Fin b => if is_neg b then PInf else NInf
  end.

(** [Math.floor]; the floor of a binary64 value is one *)
Definition floor (x : num) : num :=
  match x with
  | Fin q => of_Z (Qfloor q)
  | _ => x
  end.

(** [x <= y] and [x >= y]; every comparison with [NaN] is false *)
Definition le (x y : num) : bool :=
  match x, y with
  | NaN, _ | _, NaN => false
  | Fin a, Fin b => Qle_bool a b
  | NInf, _ | _, PInf => true
  | _, _ => false
  end.

Definition ge (x y : num) : bool := le y x.

Definition lt (x y : num) : bool :=
  match x, y with
  | NaN, _ | _, NaN => false
  | _, _ => negb (le y x)
  end.

Definition gt (x y : num) : bool := lt y x.

(** [Math.min] and [Math.max] of two arguments *)
Definition min2 (x y : num) : num :=
  match x, y with
  | NaN, _ | _, NaN => NaN
  | _, _ => if le x y then x else y
  end.

Definition max2 (x y : num) : num :=
  match x, y with
  | NaN, _ | _, NaN => NaN
  | _, _ => if le x y then y else x
  end.

(** [Math.min] and [Math.max] of the arguments [xs]: a fold from
    [+Infinity], respectively [-Infinity] *)
Definition min_list (xs : list num) : num := fold_left min2 xs PInf.
Definition max_list (xs : list num) : num := fold_left max2 xs NInf.

(** ToBoolean on a number: [0] and [NaN] are falsy. *)
Definition truthy (x : num) : bool :=
  match x with
  | Fin q => negb (is_zero q)
  | PInf | NInf => true
  | NaN => false
  end.

(** [x || y] on numbers *)
Definition or_else (x y : num) : num := if truthy x then x else y.

Definition finite (x : num) : Prop :=
  match x with Fin _ => True | _ => False end.

Definition is_finite (x : num) : bool :=
  match x with Fin _ => true | _ => false end.

(** same number, whatever the fraction that denotes it *)
Definition eqb (x y : num) : bool :=
  match x, y with
  | Fin a, Fin b => Qeq_bool a b
  | PInf, PInf | NInf, NInf | NaN, NaN => true
  | _, _ => false
  end.

Definition equiv (x y : num) : Prop := eqb x y = true.

End Num.

Export Num.

Declare Scope num_scope.
Delimit Scope num_scope with num.
Bind Scope num_scope with num.
Infix "+" := Num.add : num_scope.
Infix "-" := Num.sub : num_scope.
Infix "*" := Num.mul : num_scope.
Infix "/" := Num.div : num_scope.

(** ** Strings, number formatting and the engine's built-ins *)

Open Scope string_scope.

(** What the model takes from the JavaScript engine as given: the printing
    of a number that is neither an integer below 10^21 nor a special value
    (the shortest digits that read back as the same binary64); the [Date]
    methods, which depend on the parser, time zone and locale; and the
    greatest number of arguments a call accepts.  [date_getTime s] stands
    for [new Date(s).getTime()], and so on.  A time value is a whole
    number of milliseconds, or absent for an unparsable string (the
    invalid date, whose [getTime()] is [NaN]).  A call with more than
    [max_arguments] arguments throws a [RangeError]; every engine accepts
    at least 65535 arguments and none as many as 2^32. *)
Class Engine : Type := {
  number_toString : Q -> string;
  date_getTime : string -> option Z;
  date_getDate : string -> num;
  date_getMonth : string -> num;
  date_toLocaleString : string -> string;
  max_arguments : Z;
  max_arguments_bounds : (65535 <= max_arguments < 2 ^ 32)%Z
}.

Definition digits (n : Z) : string :=
  NilEmpty.string_of_uint (N.to_uint (Z.to_N n)).

Fixpoint zeros (n : nat) : string :=
  match n with
  | O => EmptyString
  | S n' => String "0" (zeros n')
  end.

Definition pow10 (f : nat) : Z := 10 ^ Z.of_nat f.

Definition is_integer (q : Q) : bool := (Qden (Qred q) =? 1)%positive.

Section Formatting.
Context {engine : Engine}.

(** ToString of a number, as used by [String(x)] and template literals *)
Definition toString (x : num) : string :=
  match x with
  | NaN => "NaN"
  | PInf => "Infinity"
  | NInf => "-Infinity"
  | Fin q =>
      if is_integer q && Qle_bool (Qabs q) (inject_Z (pow10 21 - 1)) then
        (if is_neg q then "-" else EmptyString) ++ digits (Z.abs (Qnum (Qred q)))
      else number_toString q
  end.

(** [x.toFixed(f)] for [0 <= f <= 100]: the nearest multiple of [10^-f],
    the larger one on a tie, the sign taken off first and put back. *)
Definition toFixed (x : num) (f : nat) : string :=
  match x with
  | Fin q =>
      let s := if is_neg q then "-" else EmptyString in
      let a := Qabs q in
      if Qle_bool (inject_Z (pow10 21)) a then s ++ toString (Fin a)
      else
        let n := Qfloor (a * inject_Z (pow10 f) + (1 # 2)) in
        let m := digits n in
        match f with
        | O => s ++ m
        | _ =>
            let m := zeros (f + 1 - String.length m) ++ m in
            let k := String.length m in
            s ++ substring 0 (k - f) m ++ "." ++ substring (k - f) f m
        end
  | _ => toString x
  end.

(** [s.padStart(n, '0')] *)
Definition padStart0 (s : string) (n : nat) : string :=
  zeros (n - String.length s) ++ s.

End Formatting.

(** the en dash U+2013 of the histogram labels, in UTF-8 *)
Definition en_dash : string :=
  String (ascii_of_nat 226) (String (ascii_of_nat 128) (String (ascii_of_nat 147) EmptyString)).

(** ** Arrays

    An array is its list of elements, an element being a hole or a value,
    together with the properties stored under keys that are not array
    indices.  Such a key is kept as the number it was written with (its
    property name is the printed number). *)

Module Arr.

Record array (A : Type) : Type := mk {
  elems : list (option A);
  props : list (num * A)
}.

Arguments mk {A} _ _.

Definition empty {A : Type} : array A := mk [] [].

Definition length {A : Type} (a : array A) : nat := List.length (elems a).

(** [.fill(v)] *)
Definition fill {A : Type} (v : A) (a : array A) : array A :=
  mk (List.map (fun _ => Some v) (elems a)) (props a).

Fixpoint mapi_from {A B : Type} (f : A -> nat -> B) (i : nat)
  (l : list (option A)) : list (option B) :=
  match l with
  | [] => []
  | None :: t => None :: mapi_from f (S i) t
  | Some v :: t => Some (f v i) :: mapi_from f (S i) t
  end.

(** [.map((v, i) => f v i)]: a new array, holes kept, the callback not
    called on them *)
Definition map {A B : Type} (f : A -> nat -> B) (a : array A) : array B :=
  mk (mapi_from f 0 (elems a)) [].

(** the key as an array index, when it is an integer from 0 to 2^32 - 2 *)
Definition as_index (k : num) : option nat :=
  match k with
  | Fin q =>
      if is_integer q && Qle_bool 0 q && Qle_bool q (inject_Z (2 ^ 32 - 2))
      then Some (Z.to_nat (Qnum (Qred q)))
      else None
  | _ => None
  end.

Fixpoint lookup {A : Type} (k : num) (ps : list (num * A)) : option A :=
  match ps with
  | [] => None
  | (k', v) :: t => if Num.eqb k k' then Some v else lookup k t
  end.

Fixpoint upsert {A : Type} (k : num) (v : A) (ps : list (num * A))
  : list (num * A) :=
  match ps with
  | [] => [(k, v)]
  | (k', v') :: t =>
      if Num.eqb k k' then (k', v) :: t else (k', v') :: upsert k v t
  end.

(** writing at index [i]: in place, or growing the array with holes *)
Fixpoint set_at {A : Type} (i : nat) (v : A) (l : list (option A))
  : list (option A) :=
  match i, l with
  | O, [] => [Some v]
  | O, _ :: t => Some v :: t
  | S i', [] => None :: set_at i' v []
  | S i', x :: t => x :: set_at i' v t
  end.

(** [a[k]]; [None] is [undefined] *)
Definition get {A : Type} (a : array A) (k : num) : option A :=
  match as_index k with
  | Some i => match nth_error (elems a) i with
              | Some (Some v) => Some v
              | _ => None
              end
  | None => lookup k (props a)
  end.

(** [a[k] = v] *)
Definition set {A : Type} (a : array A) (k : num) (v : A) : array A :=
  match as_index k with
  | Some i => mk (set_at i v (elems a)) (props a)
  | None => mk (elems a) (upsert k v (props a))
  end.

(** ToNumber of what was read: [undefined] is [NaN] *)
Definition to_number (o : option num) : num :=
  match o with
  | Some v => v
  | None => NaN
  end.

(** [a[k]++] *)
Definition post_incr (a : array num) (k : num) : array num :=
  set a k (Num.add (to_number (get a k)) one).

(** the values of the elements, in order, holes left out *)
Definition values {A : Type} (a : array A) : list A :=
  flat_map (fun c => match c with Some v => [v] | None => [] end) (elems a).

End Arr.

(** Outcome of a call: a value, or a thrown error. *)
Inductive error : Type := RangeError.

Inductive completion (A : Type) : Type :=
| Normal (a : A)
| Throw (e : error).

Arguments Normal {A} _.
Arguments Throw {A} _.

(** [new Array(n)] for an integer [n]: [n] holes, and "Invalid array
    length" for a negative [n] and for [n] above [2^32 - 1]. *)
Definition new_array (A : Type) (n : Z) : completion (Arr.array A) :=
  if ((n <? 0) || (2 ^ 32 - 1 <? n))%Z then Throw RangeError
  else Normal (Arr.mk (repeat None (Z.to_nat n)) []).

Definition bind {A B : Type} (c : completion A) (k : A -> completion B)
  : completion B :=
  match c with
  | Normal a => k a
  | Throw e => Throw e
  end.

Notation "x <- c ;; k" := (bind c (fun x => k))
  (at level 61, c at next level, right associativity).

(** [f(...xs)]: the call with the elements of [xs] as its arguments *)
Definition spread {engine : Engine} {A : Type} (f : list num -> A)
  (xs : list num) : completion A :=
  if (Z.of_nat (List.length xs) <=? max_arguments)%Z then Normal (f xs)
  else Throw RangeError.

(** ** Queries

    The query a chain of builder calls of the data-store client describes:
    [from(table)], then [select], [order], [gte], [lte], [limit] and
    [single], each returning the query extended. *)

Module Query.

Inductive filter : Type :=
| Gte (column value : string)
| Lte (column value : string).

Record t : Type := mk {
  table : string;
  columns : option string;
  ordering : list (string * bool);   (* column, ascending *)
  filters : list filter;
  row_limit : option Z;
  single_row : bool
}.

Definition from (tbl : string) : t := mk tbl None [] [] None false.

Definition select (cols : string) (q : t) : t :=
  mk (table q) (Some cols) (ordering q) (filters q) (row_limit q) (single_row q).

Definition order (col : string) (ascending : bool) (q : t) : t :=
  mk (table q) (columns q) (ordering q ++ [(col, ascending)]) (filters q)
     (row_limit q) (single_row q).

Definition add_filter (f : filter) (q : t) : t :=
  mk (table q) (columns q) (ordering q) (filters q ++ [f]) (row_limit q)
     (single_row q).

Definition gte (col v : string) (q : t) : t := add_filter (Gte col v) q.
Definition lte (col v : string) (q : t) : t := add_filter (Lte col v) q.

Definition limit (n : Z) (q : t) : t :=
  mk (table q) (columns q) (ordering q) (filters q) (Some n) (single_row q).

Definition single (q : t) : t :=
  mk (table q) (columns q) (ordering q) (filters q) (row_limit q) true.

End Query.

(** ToBoolean on an optional string: absent and empty are falsy. *)
Definition string_truthy (s : option string) : bool :=
  match s with
  | Some s => negb (String.eqb s EmptyString)
  | None => false
  end.

(** [Array.prototype.sort(cmp)].  The sort is stable and, for a comparator
    that is consistent, its result is the one stable ordering; it is
    modelled as the stable insertion sort.  A comparator result that is
    [NaN] counts as [0].  (For an inconsistent comparator the order is
    implementation-defined; the model then gives one possible order.) *)
Section Sort.
Variable A : Type.
Variable cmp : A -> A -> num.

Fixpoint sort_insert (x : A) (l : list A) : list A :=
  match l with
  | [] => [x]
  | y :: t => if Num.gt (cmp x y) zero then y :: sort_insert x t
              else x :: y :: t
  end.

Definition sort (l : list A) : list A := fold_right sort_insert [] l.

End Sort.

(** ** The analysis page, [src/app/analysis/page.tsx] *)

Module Analysis.

(** [interface Trade]: [profit] is [null] or a number of a row the data
    store delivered, which is finite (a JSON number is never [NaN] or an
    infinity); [open_time] may be absent. *)
Record Trade : Type := mkTrade {
  ticket : Z;
  profit : option Q;
  open_time : option string
}.

(** [t.profit || 0]: [null] is falsy, and so is the number zero. *)
Definition profit_or_0 (p : option Q) : num :=
  match p with
  | Some v => or_else (Fin v) zero
  | None => zero
  end.

Record Stats : Type := mkStats {
  total : nat;
  sum : num;
  avg : num;
  winRate : num
}.

Definition computeStats (trades : list Trade) : Stats :=
  let total := List.length trades in
  let profits := List.map (fun t => profit_or_0 (profit t)) trades in
  let sum := fold_left (fun s v => (s + v)%num) profits zero in
  let avg := if truthy (of_nat total) then (sum / of_nat total)%num else zero in
  let wins := List.length (filter (fun p => Num.ge p zero) profits) in
  let winRate :=
    if truthy (of_nat total)
    then ((of_nat wins / of_nat total) * of_Z 100)%num else zero in
  mkStats total sum avg winRate.

Record Histogram : Type := mkHistogram {
  labels : Arr.array string;
  counts : Arr.array num
}.

Section Histogram.
Context {engine : Engine}.

(** [max - min || 1] *)
Definition hist_range (profits : list num) : num :=
  or_else (max_list profits - min_list profits)%num one.

(** [range / bins] *)
Definition hist_binWidth (profits : list num) (bins : Z) : num :=
  (hist_range profits / of_Z bins)%num.

(** the label callback of line 43 *)
Definition hist_label (min binWidth : num) (i : nat) : string :=
  let a := (min + of_nat i * binWidth)%num in
  let b := (a + binWidth)%num in
  toFixed a 2 ++ en_dash ++ toFixed b 2.

(** [Math.min(bins - 1, Math.floor((p - min) / binWidth))] *)
Definition hist_index (min binWidth : num) (bins : Z) (p : num) : num :=
  min2 (of_Z bins - one)%num (floor ((p - min) / binWidth)%num).

Definition makeHistogram (profits : list num) (bins : Z)
  : completion Histogram :=
  if Nat.eqb (List.length profits) 0 then
    Normal (mkHistogram Arr.empty Arr.empty)
  else
    min <- spread min_list profits ;;
    max <- spread max_list profits ;;
    let range := or_else (max - min)%num one in
    let binWidth := (range / of_Z bins)%num in
    c0 <- new_array num bins ;;
    let counts := Arr.fill zero c0 in
    l0 <- new_array num bins ;;
    let labels :=
      Arr.map (fun _ i => hist_label min binWidth i) (Arr.fill zero l0) in
    let counts :=
      fold_left (fun c p => Arr.post_incr c (hist_index min binWidth bins p))
                profits counts in
    Normal (mkHistogram labels counts).

(** the default parameter, [bins = 10] *)
Definition makeHistogram_default (profits : list num) : completion Histogram :=
  makeHistogram profits 10.

End Histogram.

Section Timeseries.
Context {engine : Engine}.

(** [new Date(t.open_time!).getTime()]: an absent string gives the
    invalid date *)
Definition open_ms (t : Trade) : num :=
  match open_time t with
  | Some s => match date_getTime s with
              | Some ms => of_Z ms
              | None => NaN
              end
  | None => NaN
  end.

Definition fullLabel (t : Trade) : string :=
  match open_time t with
  | Some s => date_toLocaleString s
  | None => "Invalid Date"
  end.

Definition shortLabel (t : Trade) : string :=
  let getDate := match open_time t with Some s => date_getDate s | None => NaN end in
  let getMonth := match open_time t with Some s => date_getMonth s | None => NaN end in
  let dd := padStart0 (toString getDate) 2 in
  let mm := padStart0 (toString (getMonth + one)%num) 2 in
  dd ++ "/" ++ mm.

Definition by_open_time (a b : Trade) : num := (open_ms a - open_ms b)%num.

(** the loop of lines 104-109: [acc += s.profit || 0; cum.push(acc)] *)
Fixpoint cum_loop (acc : num) (sorted : list Trade) : list num :=
  match sorted with
  | [] => []
  | s :: rest =>
      let acc := (acc + profit_or_0 (profit s))%num in
      acc :: cum_loop acc rest
  end.

Record Timeseries : Type := mkTimeseries {
  fullLabels : list string;
  shortLabels : list string;
  cum : list num
}.

Definition sorted_trades (trades : list Trade) : list Trade :=
  sort by_open_time (filter (fun t => string_truthy (open_time t)) trades).

Definition timeseries (trades : list Trade) : Timeseries :=
  let sorted := sorted_trades trades in
  mkTimeseries (List.map fullLabel sorted) (List.map shortLabel sorted)
               (cum_loop zero sorted).

End Timeseries.

(** lines 89-92: what the page derives from its trades and bin count *)
Definition stats (trades : list Trade) : Stats := computeStats trades.

Definition profits (trades : list Trade) : list num :=
  List.map (fun t => profit_or_0 (profit t)) trades.

Definition histogram {engine : Engine} (trades : list Trade) (bins : Z)
  : completion Histogram :=
  makeHistogram (profits trades) bins.

(** The state the page keeps, and [fetchTrades].  The client is absent
    when the configuration is; a present client answers a query with rows
    or with no data. *)
Record State : Type := mkState {
  trades : list Trade;
  loading : bool
}.

Definition Client : Type := Query.t -> option (list Trade).

Definition setLoading (b : bool) (st : State) : State := mkState (trades st) b.
Definition setTrades (ts : list Trade) (st : State) : State := mkState ts (loading st).

(** [if (s) q = f(s, q)] for an optional string [s] *)
Definition when_given (s : option string)
  (f : string -> Query.t -> Query.t) (q : Query.t) : Query.t :=
  match s with
  | Some v => if string_truthy s then f v q else q
  | None => q
  end.

(** the query of lines 75-77 *)
Definition trades_query (from to : option string) : Query.t :=
  let q := Query.order "open_time" true
             (Query.select "ticket,profit,open_time" (Query.from "trades")) in
  let q := when_given from (Query.gte "open_time") q in
  let q := when_given to (Query.lte "open_time") q in
  q.

(** [fetchTrades(from, to)]: the new state and the queries sent *)
Definition fetchTrades (supabase : option Client) (from to : option string)
  (st : State) : State * list Query.t :=
  match supabase with
  | None => (setLoading false st, [])
  | Some client =>
      let st := setLoading true st in
      let q := trades_query from to in
      let st := match client q with
                | Some data => setTrades data st
                | None => st
                end in
      (setLoading false st, [q])
  end.

(** The configuration of lines 62-67: the client exists when both
    settings are given (and not empty).  [createClient] is the library's. *)
Record Env : Type := mkEnv {
  supabaseUrl : option string;
  supabaseKey : option string
}.

Definition supabase (createClient : string -> string -> Client) (env : Env)
  : option Client :=
  match supabaseUrl env, supabaseKey env with
  | Some url, Some key =>
      if string_truthy (Some url) && string_truthy (Some key)
      then Some (createClient url key) else None
  | _, _ => None
  end.

(** the state of lines 56-57 when the page is mounted *)
Definition initial : State := mkState [] true.

(** the initial load of lines 83-87: [fetchTrades()] *)
Definition initial_load (client : option Client) (st : State)
  : State * list Query.t :=
  fetchTrades client None None st.

(** [s || undefined] on a string *)
Definition or_undefined (s : string) : option string :=
  if string_truthy (Some s) then Some s else None.

(** the Refresh button of line 223 *)
Definition refresh (client : option Client) (fromDate toDate : string)
  (st : State) : State * list Query.t :=
  fetchTrades client (or_undefined fromDate) (or_undefined toDate) st.

(** what lines 228-232 choose to show *)
Inductive View : Type :=
| Banner
| LoadingText
| Content.

Definition view (env : Env) (st : State) : View :=
  if negb (string_truthy (supabaseUrl env))
     || negb (string_truthy (supabaseKey env))
  then Banner
  else if loading st then LoadingText else Content.

(** lines 113-136: the labels and the data handed to the two charts *)
Definition histData (h : Histogram) : Arr.array string * Arr.array num :=
  (labels h, counts h).

Definition lineData (t : Timeseries) : list string * list num :=
  (shortLabels t, cum t).

End Analysis.

(** ** The dashboard, [src/app/page.tsx] *)

Module Dashboard.

(** [interface Trade]; the numbers of a row are finite, as on the analysis
    page. *)
Record Trade : Type := mkTrade {
  ticket : Z;
  symbol : string;
  action : string;
  open_price : Q;
  close_price : option Q;
  profit : option Q;
  open_time : string;
  close_time : option string;
  indicators : string   (* opaque payload *)
}.

(** [interface AccountStats], as an object read at run time: a field is
    [None] when the object it was copied from has no such property (the
    [new] of the payload of a deletion is [{}]). *)
Record AccountStats : Type := mkAccount {
  balance : option num;
  equity : option num
}.

Definition profit_or_0 (p : option Q) : num :=
  match p with
  | Some v => or_else (Fin v) zero
  | None => zero
  end.

Definition is_null {A : Type} (o : option A) : bool :=
  match o with
  | None => true
  | Some _ => false
  end.

Definition activeTrades (trades : list Trade) : list Trade :=
  filter (fun t => is_null (close_time t)) trades.

Definition historyTrades (trades : list Trade) : list Trade :=
  filter (fun t => negb (is_null (close_time t))) trades.

Definition totalClosedProfit (trades : list Trade) : num :=
  fold_left (fun sum t => (sum + profit_or_0 (profit t))%num)
            (historyTrades trades) zero.

Section WinRate.
Context {engine : Engine}.

Definition winRate (trades : list Trade) : string :=
  let history := historyTrades trades in
  if Nat.ltb 0 (List.length history) then
    toFixed
      ((of_nat (List.length
                  (filter (fun t => Num.ge (profit_or_0 (profit t)) zero) history))
        / of_nat (List.length history)) * of_Z 100)%num
      1
  else "0".

End WinRate.

Record State : Type := mkState {
  trades : list Trade;
  account : AccountStats
}.

Definition initial : State := mkState [] (mkAccount (Some zero) (Some zero)).

Record Client : Type := mkClient {
  run_trades : Query.t -> option (list Trade);
  run_account : Query.t -> option AccountStats
}.

Definition trades_query : Query.t :=
  Query.order "open_time" false (Query.select "*" (Query.from "trades")).

Definition account_query : Query.t :=
  Query.single (Query.limit 1 (Query.select "*" (Query.from "account_stats"))).

(** [fetchData()]: the new state and the queries sent, in order *)
Definition fetchData (supabase : Client) (st : State) : State * list Query.t :=
  let st := match run_trades supabase trades_query with
            | Some tradeData => mkState tradeData (account st)
            | None => st
            end in
  let st := match run_account supabase account_query with
            | Some accData =>
                mkState (trades st) (mkAccount (balance accData) (equity accData))
            | None => st
            end in
  (st, [trades_query; account_query]).

(** The mount effect of lines 50-80.  Without a client nothing happens.
    With one, [fetchData] is called and two channels are subscribed; the
    clean-up removes them.  (The effect does not wait for the fetch; the
    state given here is the one reached when it has completed, and its
    interleaving with notifications is not modelled.) *)
Record Channel : Type := mkChannel {
  channel_name : string;
  channel_event : string;
  channel_schema : string;
  channel_table : string
}.

Definition tradeChannel : Channel :=
  mkChannel "realtime-trades" "*" "public" "trades".

Definition accountChannel : Channel :=
  mkChannel "realtime-account" "*" "public" "account_stats".

Definition mount (supabase : option Client) (st : State)
  : State * list Query.t * list Channel :=
  match supabase with
  | None => (st, [], [])
  | Some client =>
      let (st, sent) := fetchData client st in
      (st, sent, [tradeChannel; accountChannel])
  end.

(** the channels the clean-up of lines 76-79 removes *)
Definition cleanup (supabase : option Client) : list Channel :=
  match supabase with
  | None => []
  | Some _ => [tradeChannel; accountChannel]
  end.

(** A notification on one of the channels: a change of the trades, or a
    change of the account with the [new] object of the payload, when it
    is truthy. *)
Inductive notification : Type :=
| TradesChanged
| AccountChanged (payload_new : option AccountStats).

(** the two callbacks of lines 58-60 and 66-73 *)
Definition on_notification (supabase : Client) (n : notification) (st : State)
  : State * list Query.t :=
  match n with
  | TradesChanged => fetchData supabase st
  | AccountChanged (Some row) =>
      (mkState (trades st) (mkAccount (balance row) (equity row)), [])
  | AccountChanged None => (st, [])
  end.

(** the notifications handled one after the other *)
Fixpoint run (supabase : Client) (ns : list notification) (st : State)
  : State * list Query.t :=
  match ns with
  | [] => (st, [])
  | n :: rest =>
      let (st1, sent1) := on_notification supabase n st in
      let (st2, sent2) := run supabase rest st1 in
      (st2, sent1 ++ sent2)%list
  end.

Section Cells.
Context {engine : Engine}.

(** the profit of the header, lines 118-120: its class and its text *)
Definition header_class (trades : list Trade) : string :=
  if Num.ge (totalClosedProfit trades) zero
  then "text-green-400" else "text-red-400".

Definition header_text (trades : list Trade) : string :=
  "$" ++ toFixed (totalClosedProfit trades) 2.

(** the profit cell of a history row, lines 205-209 *)
Definition profit_class (t : Trade) : string :=
  if Num.ge (profit_or_0 (profit t)) zero
  then "text-green-400" else "text-red-400".

Definition profit_text (t : Trade) : string :=
  (if Num.ge (profit_or_0 (profit t)) zero then "+" else EmptyString)
  ++ toFixed (profit_or_0 (profit t)) 2.

End Cells.

End Dashboard.

(** ** Reference definitions

    The quantities the statements below compare the code with. *)

(** the value of the binary64 number nearest to [q]: what a decimal
    literal or a JSON number denotes *)
Definition nearest (q : Q) : Q :=
  match Num.round q with
  | Fin v => v
  | _ => 0%Q
  end.

(** [q] is the value of a binary64 number: rounding keeps it *)
Definition double (q : Q) : Prop := Num.round q = Fin (Qred q).

Definition qsum (qs : list Q) : Q := fold_right Qplus 0%Q qs.

(** the least and the greatest value of a list (of [p :: ps] for the
    helpers) *)
Fixpoint qmin_of (p : Q) (ps : list Q) : Q :=
  match ps with
  | [] => p
  | x :: t => let m := qmin_of x t in if Qle_bool p m then p else m
  end.

Fixpoint qmax_of (p : Q) (ps : list Q) : Q :=
  match ps with
  | [] => p
  | x :: t => let m := qmax_of x t in if Qle_bool m p then p else m
  end.

Definition qmin (ps : list Q) : Q :=
  match ps with
  | [] => 0%Q
  | p :: t => qmin_of p t
  end.

Definition qmax (ps : list Q) : Q :=
  match ps with
  | [] => 0%Q
  | p :: t => qmax_of p t
  end.

(** [m] is below every value of the list and is one of them *)
Definition least (m : Q) (ps : list Q) : Prop :=
  (forall p, In p ps -> m <= p) /\ (exists p, In p ps /\ m == p).

Definition greatest (m : Q) (ps : list Q) : Prop :=
  (forall p, In p ps -> p <= m) /\ (exists p, In p ps /\ m == p).

(** the sum of the elements of an array of numbers *)
Definition sum_values (a : Arr.array num) : num :=
  fold_left Num.add (Arr.values a) zero.

(** the index [makeHistogram] computes for the value [p] of the list *)
Definition index_of (profits : list num) (bins : Z) (p : num) : num :=
  Analysis.hist_index (min_list profits) (Analysis.hist_binWidth profits bins)
                      bins p.

(** the cell of the array of counts that the index of [p] names, if any *)
Definition bucket (ps : list Q) (bins : Z) (p : Q) : option nat :=
  Arr.as_index (index_of (List.map Fin ps) bins (Fin p)).

Definition in_bucket (ps : list Q) (bins : Z) (i : nat) (p : Q) : bool :=
  match bucket ps bins p with
  | Some j => Nat.eqb j i
  | None => false
  end.

(** how many values of [ps] have bucket [i] *)
Definition bucket_size (ps : list Q) (bins : Z) (i : nat) : nat :=
  List.length (filter (in_bucket ps bins i) ps).

(** the bin width is a number other than zero: [max - min] has not
    overflowed and [range / bins] has not underflowed to zero *)
Definition scaled (ps : list Q) (bins : Z) : bool :=
  match Analysis.hist_binWidth (List.map Fin ps) bins with
  | Fin w => negb (is_zero w)
  | _ => false
  end.

(** the bin width is a normal number, [2^-1022] at least *)
Definition normal_width (ps : list Q) (bins : Z) : bool :=
  match Analysis.hist_binWidth (List.map Fin ps) bins with
  | Fin w => Qle_bool (pow2 (-1022)) w
  | _ => false
  end.

(** an array of counts without holes or extra properties *)
Definition counts_array (cs : list nat) : Arr.array num :=
  Arr.mk (List.map (fun c => Some (of_nat c)) cs) [].

(** one more in cell [i] *)
Fixpoint bump (i : nat) (cs : list nat) : list nat :=
  match cs, i with
  | [], _ => []
  | c :: t, O => S c :: t
  | c :: t, S i' => c :: bump i' t
  end.

(** the counts after the values [qs] of [ps] have been put in their
    buckets, from the counts [cs] *)
Definition tally (ps : list Q) (bins : Z) (qs : list Q) (cs : list nat)
  : list nat :=
  fold_left (fun cs p => match bucket ps bins p with
                         | Some i => bump i cs
                         | None => cs
                         end) qs cs.

(** [c] increments of a cell that starts at zero *)
Fixpoint count_num (c : nat) : num :=
  match c with
  | O => zero
  | S c' => (count_num c' + one)%num
  end.

(** the property that the increments at the index [NaN] leave *)
Definition nan_props (b : bool) : list (num * num) :=
  if b then [(NaN, NaN)] else [].

(** the array of counts while the values are put in their buckets: cell
    [i] has been incremented [cs_i] times, and [lost] tells whether an
    increment went to the index [NaN] *)
Definition counting_array (cs : list nat) (lost : bool) : Arr.array num :=
  Arr.mk (List.map (fun c => Some (count_num c)) cs) (nan_props lost).

(** the properties that increments at the indices [-1] and [NaN] leave in
    an array: [m] and [n] tell which of the two were written, and
    [nan_first] which one first *)
Definition stray (m n nan_first : bool) : list (num * num) :=
  match m, n with
  | true, true =>
      if nan_first then [(NaN, NaN); (of_Z (-1), NaN)]
      else [(of_Z (-1), NaN); (NaN, NaN)]
  | true, false => [(of_Z (-1), NaN)]
  | false, true => [(NaN, NaN)]
  | false, false => []
  end.

(** some value of [qs] has the index [k] *)
Definition some_at (ps : list Q) (bins : Z) (k : num) (qs : list Q) : bool :=
  existsb (fun p => Num.eqb (index_of (List.map Fin ps) bins (Fin p)) k) qs.

(** some value of [qs] has no bucket *)
Definition some_lost (ps : list Q) (bins : Z) (qs : list Q) : bool :=
  existsb (fun p => match bucket ps bins p with Some _ => false | None => true end) qs.

(** two outcomes of [makeHistogram] that differ at most in the order of the
    properties that the array of counts has besides its elements *)
Definition same_histogram (a b : completion Analysis.Histogram) : Prop :=
  match a, b with
  | Normal h, Normal h' =>
      Analysis.labels h = Analysis.labels h' /\
      Arr.elems (Analysis.counts h) = Arr.elems (Analysis.counts h') /\
      Permutation (Arr.props (Analysis.counts h)) (Arr.props (Analysis.counts h'))
  | Throw e, Throw e' => e = e'
  | _, _ => False
  end.

(** the label of bucket [i] as the code computes its bounds, and the same
    bounds as the bracketed interval ["[lower, upper)"] *)
Definition dashed_label {engine : Engine} (ps : list Q) (bins : Z) (i : nat)
  : string :=
  let binWidth := Analysis.hist_binWidth (List.map Fin ps) bins in
  let lower := (Fin (qmin ps) + of_nat i * binWidth)%num in
  let upper := (lower + binWidth)%num in
  toFixed lower 2 ++ en_dash ++ toFixed upper 2.

Definition bracketed_label {engine : Engine} (ps : list Q) (bins : Z) (i : nat)
  : string :=
  let binWidth := Analysis.hist_binWidth (List.map Fin ps) bins in
  let lower := (Fin (qmin ps) + of_nat i * binWidth)%num in
  let upper := (lower + binWidth)%num in
  "[" ++ toFixed lower 2 ++ ", " ++ toFixed upper 2 ++ ")".

(** the greatest value of the list goes to the last bucket *)
Definition max_in_last_bucket (profits : list num) (bins : Z) : Prop :=
  index_of profits bins (max_list profits) = of_Z (bins - 1).

(** the trades are in ascending order of their opening times *)
Definition ascending_open_time {engine : Engine} (l : list Analysis.Trade)
  : Prop :=
  StronglySorted
    (fun a b => Num.le (Analysis.open_ms a) (Analysis.open_ms b) = true) l.

(** the opening time of the trade is a valid date *)
Definition dated {engine : Engine} (t : Analysis.Trade) : Prop :=
  finite (Analysis.open_ms t).

(** the time value of the [open_time] column of a trade, when the column
    is there and holds a valid date *)
Definition opened_at {engine : Engine} (t : Analysis.Trade) : option Z :=
  match Analysis.open_time t with
  | Some s => date_getTime s
  | None => None
  end.

(** the trade has an [open_time] that is a valid date *)
Definition valid_date {engine : Engine} (t : Analysis.Trade) : Prop :=
  exists ms, opened_at t = Some ms.

(** [a] was opened no later than [b] *)
Definition opened_before {engine : Engine} (a b : Analysis.Trade) : Prop :=
  match opened_at a, opened_at b with
  | Some x, Some y => (x <= y)%Z
  | _, _ => False
  end.

(** a running sum that has not become [NaN]: [+Infinity], or the value of
    a binary64 number *)
Definition settled (x : num) : Prop :=
  x = PInf \/ exists a, x = Fin a /\ Num.round a = Fin a.

(** the profit of a trade with a missing profit read as zero *)
Definition profit_value (p : option Q) : Q :=
  match p with
  | Some v => v
  | None => 0%Q
  end.

Definition trade_value (t : Analysis.Trade) : Q :=
  profit_value (Analysis.profit t).

Definition row_value (t : Dashboard.Trade) : Q :=
  profit_value (Dashboard.profit t).

(** the binary64 sum of the numbers, accumulated from the left *)
Definition float_sum (vs : list Q) : num :=
  fold_left Num.add (List.map Fin vs) zero.

Definition has_open_time (t : Analysis.Trade) : bool :=
  string_truthy (Analysis.open_time t).

(** the profits the analysis page hands to [makeHistogram] *)
Definition page_values (ts : list Analysis.Trade) : list Q :=
  List.map (fun t => match Analysis.profit t with
                     | Some v => if is_zero v then 0%Q else v
                     | None => 0%Q
                     end) ts.

Definition is_win (p : option Q) : bool := Qle_bool 0 (profit_value p).

(** the number is a whole number *)
Definition whole (q : Q) : Prop := exists z : Z, q == inject_Z z.

(** a missing profit replaced by the number zero *)
Definition fill_profit (p : option Q) : option Q := Some (profit_value p).

Definition zero_filled (t : Analysis.Trade) : Analysis.Trade :=
  Analysis.mkTrade (Analysis.ticket t) (fill_profit (Analysis.profit t))
                   (Analysis.open_time t).

Definition zero_filled_row (t : Dashboard.Trade) : Dashboard.Trade :=
  Dashboard.mkTrade (Dashboard.ticket t) (Dashboard.symbol t)
    (Dashboard.action t) (Dashboard.open_price t) (Dashboard.close_price t)
    (fill_profit (Dashboard.profit t)) (Dashboard.open_time t)
    (Dashboard.close_time t) (Dashboard.indicators t).

(** a query that asks for its rows in ascending, respectively descending,
    order of the column *)
Definition ordered_ascending (col : string) (q : Query.t) : Prop :=
  Query.ordering q = [(col, true)].

Definition ordered_descending (col : string) (q : Query.t) : Prop :=
  Query.ordering q = [(col, false)].

(** the row of the dashboard as the analysis page reads it: the columns
    [ticket, profit, open_time] of the same table *)
Definition as_analysis (t : Dashboard.Trade) : Analysis.Trade :=
  Analysis.mkTrade (Dashboard.ticket t) (Dashboard.profit t)
                   (Some (Dashboard.open_time t)).

(** a number below 100 written with two digits *)
Definition two_digits (n : Z) : string :=
  digits (n / 10) ++ digits (n mod 10).

(** the opening times of the trades differ from one another *)
Definition distinct_times {engine : Engine} (l : list Analysis.Trade) : Prop :=
  ForallOrdPairs
    (fun a b => Num.eqb (Analysis.open_ms a) (Analysis.open_ms b) = false) l.

(** the store answers every trades query with [rows] *)
Definition serves (supabase : Dashboard.Client) (rows : list Dashboard.Trade)
  : Prop :=
  forall q, Dashboard.run_trades supabase q = Some rows.

(** ** A sample engine

    Used by the examples only.  It follows ECMAScript on date-only strings
    [YYYY-MM-DD] (read as midnight UTC) for a host whose time zone is UTC
    and whose locale is en-US, and gives the invalid date on every other
    string.  Its [number_toString] is never reached by the examples. *)

Module Sample.

Definition digit (c : ascii) : option Z :=
  let n := nat_of_ascii c in
  if (48 <=? n)%nat && (n <=? 57)%nat then Some (Z.of_nat (n - 48)) else None.

Fixpoint number (s : string) (acc : Z) : option Z :=
  match s with
  | EmptyString => Some acc
  | String c t => match digit c with
                  | Some d => number t (10 * acc + d)
                  | None => None
                  end
  end.

Definition leap (y : Z) : bool :=
  ((y mod 4 =? 0) && negb (y mod 100 =? 0) || (y mod 400 =? 0))%Z.

Definition days_in_month (y m : Z) : Z :=
  if (m =? 2)%Z then (if leap y then 29 else 28)
  else if ((m =? 4) || (m =? 6) || (m =? 9) || (m =? 11))%Z then 30 else 31.

(** year, month and day of a string [YYYY-MM-DD] naming a calendar day *)
Definition ymd (s : string) : option (Z * Z * Z) :=
  if negb (Nat.eqb (String.length s) 10) then None
  else if negb (String.eqb (substring 4 1 s) "-" && String.eqb (substring 7 1 s) "-")
  then None
  else
    match number (substring 0 4 s) 0, number (substring 5 2 s) 0,
          number (substring 8 2 s) 0 with
    | Some y, Some m, Some d =>
        if ((1 <=? m) && (m <=? 12) && (1 <=? d) && (d <=? days_in_month y m))%Z
        then Some (y, m, d) else None
    | _, _, _ => None
    end.

(** days from 1970-01-01 to the civil date *)
Definition days_from_civil (y m d : Z) : Z :=
  let y := if (m <=? 2)%Z then (y - 1)%Z else y in
  let era := (y / 400)%Z in
  let yoe := (y - era * 400)%Z in
  let mp := if (2 <? m)%Z then (m - 3)%Z else (m + 9)%Z in
  let doy := ((153 * mp + 2) / 5 + d - 1)%Z in
  let doe := (yoe * 365 + yoe / 4 - yoe / 100 + doy)%Z in
  (era * 146097 + doe - 719468)%Z.

Definition getTime (s : string) : option Z :=
  match ymd s with
  | Some (y, m, d) => Some (days_from_civil y m d * 86400000)%Z
  | None => None
  end.

Definition getDate (s : string) : num :=
  match ymd s with
  | Some (_, _, d) => of_Z d
  | None => NaN
  end.

Definition getMonth (s : string) : num :=
  match ymd s with
  | Some (_, m, _) => of_Z (m - 1)
  | None => NaN
  end.

Definition toLocaleString (s : string) : string :=
  match ymd s with
  | Some (y, m, d) => digits m ++ "/" ++ digits d ++ "/" ++ digits y ++ ", 12:00:00 AM"
  | None => "Invalid Date"
  end.

(** a list of profits for the examples *)
Definition profits : list Q := [1; 2; 4; 8]%Q.

(** trades of the analysis page: three dated ones, in the order of their
    dates, and one without a date *)
Definition first_trade : Analysis.Trade :=
  Analysis.mkTrade 1 (Some 100%Q) (Some "2024-01-01").

Definition second_trade : Analysis.Trade :=
  Analysis.mkTrade 2 (Some (-40)%Q) (Some "2024-01-02").

Definition third_trade : Analysis.Trade :=
  Analysis.mkTrade 3 None (Some "2024-01-03").

Definition undated_trade : Analysis.Trade :=
  Analysis.mkTrade 4 (Some 7%Q) None.

(** rows of the dashboard: a closed trade, an active one, a closed one *)
Definition closed_1 : Dashboard.Trade :=
  Dashboard.mkTrade 1 "XAUUSD" "BUY" 2000 (Some 2010%Q) (Some 100%Q)
    "2024-01-01" (Some "2024-01-02") "{}".

Definition active_2 : Dashboard.Trade :=
  Dashboard.mkTrade 2 "XAUUSD" "SELL" 2010 None (Some 50%Q)
    "2024-01-03" None "{}".

Definition closed_3 : Dashboard.Trade :=
  Dashboard.mkTrade 3 "XAUUSD" "BUY" 2020 (Some 2016%Q) (Some (-40)%Q)
    "2024-01-04" (Some "2024-01-05") "{}".

(** a store of the dashboard that answers with the three rows, and one
    that answers nothing *)
Definition store : Dashboard.Client :=
  Dashboard.mkClient (fun _ => Some [closed_1; active_2; closed_3])
                     (fun _ => Some (Dashboard.mkAccount (Some (of_Z 1000))
                                                        (Some (of_Z 1010)))).

Definition silent_store : Dashboard.Client :=
  Dashboard.mkClient (fun _ => None) (fun _ => None).

(** a client of the analysis page that answers with the three dated
    trades *)
Definition createClient (url key : string) : Analysis.Client :=
  fun _ => Some [first_trade; second_trade; third_trade].

Definition engine : Engine := {|
  number_toString := fun _ => EmptyString;
  date_getTime := getTime;
  date_getDate := getDate;
  date_getMonth := getMonth;
  date_toLocaleString := toLocaleString;
  max_arguments := 65535;
  max_arguments_bounds := conj (Z.le_refl 65535) eq_refl
|}.

End Sample.
(** ** Facts on numbers *)

Lemma is_zero_true (q : Q) : is_zero q = true <-> q == 0.
Proof. unfold is_zero. apply Qeq_bool_iff. Qed.

Lemma is_zero_false (q : Q) : is_zero q = false <-> ~ q == 0.
Proof.
  rewrite <- is_zero_true. destruct (is_zero q); split; intros; congruence.
Qed.

Lemma is_pos_true (q : Q) : is_pos q = true <-> 0 < q.
Proof.
  unfold is_pos. rewrite negb_true_iff.
  destruct (Qle_bool q 0) eqn:E; split; intros H; try discriminate; try reflexivity.
  - apply Qle_bool_iff in E. lra.
  - apply Qnot_le_lt. intros C. apply Qle_bool_iff in C. congruence.
Qed.

Lemma Qle_bool_false (a b : Q) : Qle_bool a b = false <-> b < a.
Proof.
  destruct (Qle_bool a b) eqn:E; split; intros H; try discriminate; try reflexivity.
  - apply Qle_bool_iff in E. lra.
  - apply Qnot_le_lt. intros C. apply Qle_bool_iff in C. congruence.
Qed.

(** ** Powers of two and binades *)

Lemma pow2_pos e : 0 < pow2 e.
Proof. apply Qpower_0_lt. reflexivity. Qed.

Lemma pow2_add a b : pow2 (a + b) == pow2 a * pow2 b.
Proof. apply Qpower_plus. discriminate. Qed.

Lemma pow2_Z e : (0 <= e)%Z -> pow2 e == inject_Z (2 ^ e).
Proof. intros H. unfold pow2. now rewrite (Zpower_Qpower 2 e H). Qed.

Lemma pow2_le a b : (a <= b)%Z -> pow2 a <= pow2 b.
Proof. intros H. apply Qpower_le_compat_l; [exact H | discriminate]. Qed.

Lemma pow2_lt a b : (a < b)%Z -> pow2 a < pow2 b.
Proof. intros H. apply Qpower_lt_compat_l; [exact H | reflexivity]. Qed.

Lemma pow2_sub a b : pow2 (a - b) == pow2 a / pow2 b.
Proof.
  pose proof (pow2_pos b) as Hb. pose proof (pow2_add (a - b) b) as H.
  replace (a - b + b)%Z with a in H by lia.
  rewrite H. field. lra.
Qed.

Lemma pow2_0 : pow2 0 == 1.
Proof. reflexivity. Qed.

Lemma pow2_succ a : pow2 (a + 1) == 2 * pow2 a.
Proof. rewrite pow2_add. change (pow2 1) with 2. ring. Qed.

Lemma ilog2_spec (a : Q) : 0 < a -> pow2 (ilog2 a) <= a /\ a < pow2 (ilog2 a + 1).
Proof.
  intros Ha. destruct a as [n d].
  assert (Hn : (0 < n)%Z) by (unfold Qlt in Ha; simpl in Ha; lia).
  unfold ilog2. cbn [Qnum Qden].
  set (ln := Z.log2 n). set (ld := Z.log2 (Z.pos d)).
  destruct (Z.log2_spec n Hn) as [Hn1 Hn2]. fold ln in Hn1, Hn2.
  destruct (Z.log2_spec (Z.pos d) eq_refl) as [Hd1 Hd2]. fold ld in Hd1, Hd2.
  assert (Hln : (0 <= ln)%Z) by apply Z.log2_nonneg.
  assert (Hld : (0 <= ld)%Z) by apply Z.log2_nonneg.
  pose proof (pow2_pos ld) as Pld. pose proof (pow2_pos ln) as Pln.
  assert (An : pow2 ln <= inject_Z n) by (rewrite pow2_Z by lia; now rewrite <- Zle_Qle).
  assert (Bn : inject_Z n < pow2 (ln + 1))
    by (rewrite pow2_Z by lia; now rewrite <- Zlt_Qlt).
  assert (Ad : pow2 ld <= inject_Z (Z.pos d)) by (rewrite pow2_Z by lia; now rewrite <- Zle_Qle).
  assert (Bd : inject_Z (Z.pos d) < pow2 (ld + 1))
    by (rewrite pow2_Z by lia; now rewrite <- Zlt_Qlt).
  assert (E : n # d == inject_Z n / inject_Z (Z.pos d)) by apply Qmake_Qdiv.
  assert (Dpos : 0 < inject_Z (Z.pos d)) by (change 0 with (inject_Z 0); now rewrite <- Zlt_Qlt).
  assert (Up : n # d < pow2 (ln - ld + 1)).
  { rewrite E. apply Qlt_shift_div_r; [exact Dpos |].
    pose proof (pow2_pos (ln - ld + 1)) as P.
    pose proof (pow2_add (ln - ld + 1) ld) as S.
    replace (ln - ld + 1 + ld)%Z with (ln + 1)%Z in S by lia.
    apply Qlt_le_trans with (pow2 (ln + 1)); [exact Bn |].
    rewrite S. apply Qmult_le_l; [exact P | exact Ad]. }
  assert (Lo : pow2 (ln - ld - 1) <= n # d).
  { rewrite E. apply Qle_shift_div_l; [exact Dpos |].
    pose proof (pow2_pos (ln - ld - 1)) as P.
    pose proof (pow2_add (ln - ld - 1) (ld + 1)) as S.
    replace (ln - ld - 1 + (ld + 1))%Z with ln in S by lia.
    apply Qle_trans with (pow2 ln); [| exact An].
    rewrite S. apply Qmult_le_l; [exact P | apply Qlt_le_weak, Bd]. }
  destruct (Qle_bool (pow2 (ln - ld)) (n # d)) eqn:T.
  - apply Qle_bool_iff in T. split; assumption.
  - split; [exact Lo |].
    replace (ln - ld - 1 + 1)%Z with (ln - ld)%Z by lia.
    apply Qnot_le_lt. intros C. apply Qle_bool_iff in C. congruence.
Qed.

Lemma ilog2_unique (a : Q) (k : Z) :
  pow2 k <= a -> a < pow2 (k + 1) -> ilog2 a = k.
Proof.
  intros H1 H2.
  assert (Ha : 0 < a) by (pose proof (pow2_pos k); lra).
  destruct (ilog2_spec Ha) as [S1 S2].
  destruct (Z.lt_trichotomy (ilog2 a) k) as [L | [L | L]]; [| exact L |].
  - exfalso. assert (pow2 (ilog2 a + 1) <= pow2 k) by (apply pow2_le; lia). lra.
  - exfalso. assert (pow2 (k + 1) <= pow2 (ilog2 a)) by (apply pow2_le; lia). lra.
Qed.

Lemma ilog2_mono (a b : Q) : 0 < a -> a <= b -> (ilog2 a <= ilog2 b)%Z.
Proof.
  intros Ha Hab.
  destruct (ilog2_spec Ha) as [A1 A2].
  assert (Hb : 0 < b) by lra.
  destruct (ilog2_spec Hb) as [B1 B2].
  destruct (Z_le_gt_dec (ilog2 a) (ilog2 b)) as [L | L]; [exact L | exfalso].
  assert (pow2 (ilog2 b + 1) <= pow2 (ilog2 a)) by (apply pow2_le; lia). lra.
Qed.

(** rounding to the nearest integer *)
Lemma rne_bounds (x : Q) : (Qfloor x <= rne x <= Qfloor x + 1)%Z.
Proof.
  unfold rne. destruct (Qcompare _ _); [destruct (Z.even _) | |]; lia.
Qed.

Lemma rne_Z (z : Z) : rne (inject_Z z) = z.
Proof.
  unfold rne. rewrite Qfloor_Z.
  assert (E : inject_Z z - inject_Z z == 0) by ring.
  destruct (Qcompare_spec (inject_Z z - inject_Z z) (1 # 2)) as [H | H | H];
    rewrite E in H; try reflexivity; [discriminate H | exfalso; lra].
Qed.

Lemma rne_comp (x y : Q) : x == y -> rne x = rne y.
Proof.
  intros E. unfold rne.
  assert (F : Qfloor x = Qfloor y) by (now rewrite E).
  rewrite F.
  assert (C : Qcompare (x - inject_Z (Qfloor y)) (1 # 2)
              = Qcompare (y - inject_Z (Qfloor y)) (1 # 2)) by (now rewrite E).
  now rewrite C.
Qed.

Lemma rne_mono (x y : Q) : x <= y -> (rne x <= rne y)%Z.
Proof.
  intros H. pose proof (Qfloor_resp_le _ _ H) as F.
  destruct (Z.eq_dec (Qfloor x) (Qfloor y)) as [E | N].
  - unfold rne. rewrite E.
    destruct (Qcompare_spec (x - inject_Z (Qfloor y)) (1 # 2)) as [A | A | A];
    destruct (Qcompare_spec (y - inject_Z (Qfloor y)) (1 # 2)) as [B | B | B];
    try (destruct (Z.even (Qfloor y))); try lia; exfalso; lra.
  - pose proof (rne_bounds x). pose proof (rne_bounds y). lia.
Qed.

Lemma rne_half (x : Q) : inject_Z (rne x) <= x + (1 # 2) /\ x - (1 # 2) <= inject_Z (rne x).
Proof.
  unfold rne. pose proof (Qfloor_le x) as F1. pose proof (Qlt_floor x) as F2.
  rewrite inject_Z_plus in F2. change (inject_Z 1) with 1 in F2.
  destruct (Qcompare_spec (x - inject_Z (Qfloor x)) (1 # 2)) as [A | A | A];
    [destruct (Z.even (Qfloor x)) | |];
    rewrite ?inject_Z_plus; change (inject_Z 1) with 1; split; lra.
Qed.

(** ** The rounded value *)

Lemma rne_le_Z (x : Q) (z : Z) : x <= inject_Z z -> (rne x <= z)%Z.
Proof. intros H. rewrite <- (rne_Z z). now apply rne_mono. Qed.

Lemma rne_ge_Z (x : Q) (z : Z) : inject_Z z <= x -> (z <= rne x)%Z.
Proof. intros H. rewrite <- (rne_Z z). now apply rne_mono. Qed.

Lemma div_pow2 (a b : Z) : pow2 a / pow2 b == pow2 (a - b).
Proof. now rewrite pow2_sub. Qed.

Lemma Qdiv_le_compat (a b c : Q) : 0 < c -> a <= b -> a / c <= b / c.
Proof.
  intros Hc H. apply Qle_shift_div_l; [exact Hc |].
  setoid_replace (a / c * c) with a by (field; lra). exact H.
Qed.

Lemma Qdiv_mult_cancel (a c : Q) : 0 < c -> a / c * c == a.
Proof. intros H. field. lra. Qed.

Lemma ulp_exp_ge (a : Q) : (-1074 <= ulp_exp a)%Z.
Proof. unfold ulp_exp. lia. Qed.

Lemma ulp_exp_mono (a b : Q) : 0 < a -> a <= b -> (ulp_exp a <= ulp_exp b)%Z.
Proof. intros Ha H. pose proof (ilog2_mono Ha H). unfold ulp_exp. lia. Qed.

Lemma rv_nonneg (a : Q) : 0 < a -> 0 <= rv a.
Proof.
  intros Ha. unfold rv. pose proof (pow2_pos (ulp_exp a)) as P.
  apply Qmult_le_0_compat; [| lra].
  change 0 with (inject_Z 0). rewrite <- Zle_Qle.
  apply rne_ge_Z. change (inject_Z 0) with 0.
  apply Qle_shift_div_l; [exact P | lra].
Qed.

Lemma rv_mono (a b : Q) : 0 < a -> a <= b -> rv a <= rv b.
Proof.
  intros Ha Hab. assert (Hb : 0 < b) by lra.
  pose proof (ulp_exp_mono Ha Hab) as He.
  pose proof (pow2_pos (ulp_exp a)) as Pa. pose proof (pow2_pos (ulp_exp b)) as Pb.
  destruct (Z.eq_dec (ulp_exp a) (ulp_exp b)) as [E | N].
  - unfold rv. rewrite E. apply Qmult_le_compat_r; [| lra].
    rewrite <- Zle_Qle. apply rne_mono. now apply Qdiv_le_compat.
  - destruct (ilog2_spec Ha) as [A1 A2]. destruct (ilog2_spec Hb) as [B1 B2].
    pose proof (ulp_exp_ge a) as Ga.
    assert (Eb : ulp_exp b = (ilog2 b - 52)%Z) by (unfold ulp_exp in *; lia).
    assert (K : (ilog2 a + 1 <= ilog2 b)%Z) by (unfold ulp_exp in *; lia).
    set (T := pow2 (ilog2 b)).
    assert (aT : a <= T).
    { apply Qle_trans with (pow2 (ilog2 a + 1)); [lra | now apply pow2_le]. }
    apply Qle_trans with T.
    + unfold rv.
      assert (D : (0 <= ilog2 b - ulp_exp a)%Z) by lia.
      assert (ET : T == inject_Z (2 ^ (ilog2 b - ulp_exp a)) * pow2 (ulp_exp a)).
      { rewrite <- pow2_Z by exact D. rewrite <- pow2_add. unfold T.
        replace (ilog2 b - ulp_exp a + ulp_exp a)%Z with (ilog2 b) by lia. reflexivity. }
      rewrite ET. apply Qmult_le_compat_r; [| lra].
      rewrite <- Zle_Qle. apply rne_le_Z.
      apply Qle_shift_div_r; [exact Pa |]. now rewrite <- ET.
    + unfold rv.
      assert (ET : T == inject_Z (2 ^ 52) * pow2 (ulp_exp b)).
      { rewrite <- pow2_Z by lia. rewrite <- pow2_add. unfold T.
        replace (52 + ulp_exp b)%Z with (ilog2 b) by lia. reflexivity. }
      rewrite ET. apply Qmult_le_compat_r; [| lra].
      rewrite <- Zle_Qle. apply rne_ge_Z.
      apply Qle_shift_div_l; [exact Pb |]. now rewrite <- ET.
Qed.

Lemma ulp_exp_comp (a b : Q) : 0 < a -> a == b -> ulp_exp a = ulp_exp b.
Proof.
  intros Ha E. assert (Hb : 0 < b) by (rewrite <- E; exact Ha).
  unfold ulp_exp. f_equal. f_equal.
  destruct (ilog2_spec Hb) as [B1 B2].
  apply ilog2_unique; rewrite E; assumption.
Qed.

Lemma rv_comp (a b : Q) : 0 < a -> a == b -> rv a == rv b.
Proof.
  intros Ha E. unfold rv. rewrite (ulp_exp_comp Ha E).
  assert (R : rne (a / pow2 (ulp_exp b)) = rne (b / pow2 (ulp_exp b)))
    by (apply rne_comp; now rewrite E).
  now rewrite R.
Qed.

(** a value that is a multiple of its unit in the last place is kept *)
Lemma rv_exact (a : Q) (m : Z) :
  0 < a -> a == inject_Z m * pow2 (ulp_exp a) -> rv a == a.
Proof.
  intros Ha E. unfold rv. pose proof (pow2_pos (ulp_exp a)) as P.
  assert (R : rne (a / pow2 (ulp_exp a)) = m).
  { rewrite <- (rne_Z m). apply rne_comp. rewrite E at 1. field. lra. }
  rewrite R. now rewrite <- E.
Qed.

Lemma rne_pos_bound (a : Q) :
  0 < a -> (0 <= rne (a / pow2 (ulp_exp a)) <= 2 ^ 53)%Z.
Proof.
  intros Ha. pose proof (pow2_pos (ulp_exp a)) as P.
  destruct (ilog2_spec Ha) as [A1 A2]. split.
  - apply rne_ge_Z. change (inject_Z 0) with 0. apply Qle_shift_div_l; [exact P | lra].
  - apply rne_le_Z. rewrite <- pow2_Z by lia.
    apply Qle_shift_div_r; [exact P |]. rewrite <- pow2_add.
    apply Qle_trans with (pow2 (ilog2 a + 1)); [lra |].
    apply pow2_le. unfold ulp_exp. lia.
Qed.

Lemma ilog2_scaled (m e : Z) :
  (0 < m)%Z -> ilog2 (inject_Z m * pow2 e) = (Z.log2 m + e)%Z.
Proof.
  intros Hm. destruct (Z.log2_spec m Hm) as [L1 L2].
  pose proof (Z.log2_nonneg m) as L0. pose proof (pow2_pos e) as P.
  apply ilog2_unique.
  - rewrite pow2_add. apply Qmult_le_compat_r; [| lra].
    rewrite pow2_Z by lia. now rewrite <- Zle_Qle.
  - replace (Z.log2 m + e + 1)%Z with (Z.log2 m + 1 + e)%Z by lia.
    rewrite pow2_add. apply Qmult_lt_compat_r; [exact P |].
    rewrite pow2_Z by lia. now rewrite <- Zlt_Qlt.
Qed.

Lemma rv_idem (a : Q) : 0 < a -> 0 < rv a -> rv (rv a) == rv a.
Proof.
  intros Ha Hv.
  set (e := ulp_exp a). set (m := rne (a / pow2 e)).
  assert (V : rv a == inject_Z m * pow2 e) by reflexivity.
  pose proof (rne_pos_bound Ha) as [M0 M1]. fold e m in M0, M1.
  pose proof (pow2_pos e) as P.
  assert (Mpos : (0 < m)%Z).
  { destruct (Z.eq_dec m 0) as [Z0 | NZ]; [| lia].
    exfalso. rewrite V, Z0 in Hv. change (inject_Z 0) with 0 in Hv. lra. }
  assert (K : ilog2 (rv a) = (Z.log2 m + e)%Z).
  { rewrite <- (ilog2_scaled e Mpos).
    destruct (ilog2_spec (a := inject_Z m * pow2 e)) as [B1 B2];
      [rewrite <- V; exact Hv |].
    apply ilog2_unique; rewrite V; assumption. }
  assert (Ge : (-1074 <= e)%Z) by apply ulp_exp_ge.
  destruct (Z_le_gt_dec (Z.log2 m) 52) as [L | L].
  - assert (E' : (ulp_exp (rv a) <= e)%Z) by (unfold ulp_exp; rewrite K; lia).
    apply rv_exact with (m := (m * 2 ^ (e - ulp_exp (rv a)))%Z); [exact Hv |].
    rewrite V at 1. rewrite inject_Z_mult, <- pow2_Z by lia.
    rewrite <- Qmult_assoc, <- pow2_add.
    replace (e - ulp_exp (rv a) + ulp_exp (rv a))%Z with e by lia. reflexivity.
  - assert (M53 : m = (2 ^ 53)%Z).
    { destruct (Z.log2_spec m Mpos) as [L1 L2].
      assert ((2 ^ 53 <= 2 ^ Z.log2 m)%Z) by (apply Z.pow_le_mono_r; lia). lia. }
    assert (E' : ulp_exp (rv a) = (e + 1)%Z).
    { unfold ulp_exp. rewrite K, M53. change (Z.log2 (2 ^ 53)) with 53%Z. lia. }
    apply rv_exact with (m := (2 ^ 52)%Z); [exact Hv |].
    rewrite E'. rewrite V at 1. rewrite M53, pow2_succ.
    change (inject_Z (2 ^ 53)) with (2 * inject_Z (2 ^ 52)). ring.
Qed.

(** the relative error of rounding up, away from the subnormal range *)
Lemma rv_upper (a : Q) :
  0 < a -> pow2 (-1022) <= rv a -> rv a <= a * (1 + pow2 (-52)).
Proof.
  intros Ha Hn. set (e := ulp_exp a).
  pose proof (pow2_pos e) as P.
  destruct (rne_half (a / pow2 e)) as [U _].
  assert (V : rv a <= a + (1 # 2) * pow2 e).
  { unfold rv. fold e.
    apply Qle_trans with ((a / pow2 e + (1 # 2)) * pow2 e).
    - apply Qmult_le_compat_r; [exact U | lra].
    - setoid_replace ((a / pow2 e + (1 # 2)) * pow2 e) with (a + (1 # 2) * pow2 e)
        by (field; lra).
      apply Qle_refl. }
  assert (B : (1 # 2) * pow2 e <= a * pow2 (-52)).
  { destruct (ilog2_spec Ha) as [A1 A2].
    destruct (Z_le_gt_dec (-1074) (ilog2 a - 52)) as [L | L].
    - assert (Ee : e = (ilog2 a - 52)%Z) by (unfold e, ulp_exp; lia).
      apply Qle_trans with (pow2 (ilog2 a) * pow2 (-52)).
      + rewrite <- pow2_add.
        assert (pow2 e <= pow2 (ilog2 a + -52)) by (apply pow2_le; lia). lra.
      + apply Qmult_le_compat_r; [exact A1 |]. pose proof (pow2_pos (-52)). lra.
    - assert (Ee : e = (-1074)%Z) by (unfold e, ulp_exp; lia).
      rewrite Ee in *.
      assert (A : pow2 (-1023) <= a).
      { assert (X : pow2 (-1022) == 2 * pow2 (-1023)) by (now rewrite <- pow2_succ).
        assert (Y : pow2 (-1074) <= pow2 (-1023)) by (apply pow2_le; lia).
        pose proof (pow2_pos (-1023)). lra. }
      apply Qle_trans with (pow2 (-1023) * pow2 (-52)).
      + rewrite <- pow2_add.
        assert (X : pow2 (-1023 + -52 + 1) == 2 * pow2 (-1023 + -52)) by apply pow2_succ.
        change (-1023 + -52 + 1)%Z with (-1074)%Z in X. lra.
      + apply Qmult_le_compat_r; [exact A |]. pose proof (pow2_pos (-52)). lra. }
  lra.
Qed.

(** ** Rounding to binary64 *)

Lemma le_Fin (a b : Q) : Num.le (Fin a) (Fin b) = true <-> a <= b.
Proof. apply Qle_bool_iff. Qed.

Lemma le_refl (x : num) : x <> NaN -> Num.le x x = true.
Proof. destruct x; intros H; try reflexivity; [apply le_Fin, Qle_refl | congruence]. Qed.

Lemma le_trans (x y z : num) :
  Num.le x y = true -> Num.le y z = true -> Num.le x z = true.
Proof.
  destruct x, y, z; cbn [Num.le]; intros H1 H2; try reflexivity; try discriminate.
  apply Qle_bool_iff in H1, H2. apply Qle_bool_iff. lra.
Qed.

Lemma le_neg (x y : num) : Num.le x y = true -> Num.le (neg y) (neg x) = true.
Proof.
  destruct x, y; cbn [Num.le neg]; intros H; try reflexivity; try discriminate.
  apply Qle_bool_iff in H. apply Qle_bool_iff. rewrite !Qred_correct. lra.
Qed.

Lemma Fin_inj (a b : Q) : Fin a = Fin b -> a = b.
Proof. intros H. now injection H. Qed.

Lemma round_pos_rv (a : Q) :
  round_pos a = if Qle_bool (pow2 1024) (rv a) then PInf else Fin (Qred (rv a)).
Proof. reflexivity. Qed.

Lemma round_pos_comp (a b : Q) : 0 < a -> a == b -> round_pos a = round_pos b.
Proof.
  intros Ha E. rewrite !round_pos_rv. pose proof (rv_comp Ha E) as R.
  assert (T : Qle_bool (pow2 1024) (rv a) = Qle_bool (pow2 1024) (rv b))
    by (now rewrite R).
  rewrite T. destruct (Qle_bool (pow2 1024) (rv b)); [reflexivity |].
  f_equal. now apply Qred_complete.
Qed.

Lemma round_comp (a b : Q) : a == b -> Num.round a = Num.round b.
Proof.
  intros E. unfold Num.round.
  assert (C : Qcompare a 0 = Qcompare b 0) by (now rewrite E).
  rewrite <- C, (Qred_complete _ _ E).
  assert (E' : - a == - b) by (now rewrite E).
  now rewrite (Qred_complete _ _ E').
Qed.

Lemma round_zero : Num.round 0 = zero.
Proof. reflexivity. Qed.

Lemma round_pos_eq (a : Q) :
  0 < a -> Num.round a = round_pos a.
Proof.
  intros H. unfold Num.round.
  destruct (Qcompare_spec a 0) as [E | L | G]; try (exfalso; lra).
  apply round_pos_comp; [now rewrite Qred_correct | apply Qred_correct].
Qed.

Lemma round_neg_eq (a : Q) :
  a < 0 -> Num.round a = neg (round_pos (- a)).
Proof.
  intros H. unfold Num.round.
  destruct (Qcompare_spec a 0) as [E | L | G]; try (exfalso; lra).
  f_equal. apply round_pos_comp; [rewrite Qred_correct; lra | apply Qred_correct].
Qed.

Lemma round_pos_nonneg (a : Q) : 0 < a -> Num.le zero (round_pos a) = true.
Proof.
  intros H. rewrite round_pos_rv.
  destruct (Qle_bool (pow2 1024) (rv a)); [reflexivity |].
  apply le_Fin. rewrite Qred_correct. now apply rv_nonneg.
Qed.

Lemma round_pos_mono (a b : Q) :
  0 < a -> a <= b -> Num.le (round_pos a) (round_pos b) = true.
Proof.
  intros Ha H. pose proof (rv_mono Ha H) as M. rewrite !round_pos_rv.
  destruct (Qle_bool (pow2 1024) (rv b)) eqn:B.
  - destruct (Qle_bool (pow2 1024) (rv a)); reflexivity.
  - apply Qle_bool_false in B.
    destruct (Qle_bool (pow2 1024) (rv a)) eqn:A.
    + apply Qle_bool_iff in A. exfalso. lra.
    + apply le_Fin. now rewrite !Qred_correct.
Qed.

Lemma neg_zero : neg zero = zero.
Proof. reflexivity. Qed.

Lemma round_mono (a b : Q) : a <= b -> Num.le (Num.round a) (Num.round b) = true.
Proof.
  intros H.
  destruct (Qlt_le_dec 0 a) as [Pa | Na].
  - rewrite (round_pos_eq Pa), (round_pos_eq (a := b)) by lra.
    now apply round_pos_mono.
  - destruct (Qeq_dec a 0) as [Za | NZa].
    + rewrite (round_comp Za), round_zero.
      destruct (Qlt_le_dec 0 b) as [Pb | Nb].
      * rewrite (round_pos_eq Pb). now apply round_pos_nonneg.
      * assert (Zb : b == 0) by lra. now rewrite (round_comp Zb), round_zero.
    + assert (La : a < 0) by lra.
      rewrite (round_neg_eq La).
      assert (Ma : Num.le (neg (round_pos (- a))) zero = true).
      { rewrite <- neg_zero. apply le_neg. apply round_pos_nonneg. lra. }
      destruct (Qlt_le_dec 0 b) as [Pb | Nb].
      * rewrite (round_pos_eq Pb).
        apply le_trans with zero; [exact Ma | now apply round_pos_nonneg].
      * destruct (Qeq_dec b 0) as [Zb | NZb].
        -- now rewrite (round_comp Zb), round_zero.
        -- assert (Lb : b < 0) by lra. rewrite (round_neg_eq Lb).
           apply le_neg. apply round_pos_mono; lra.
Qed.

Lemma round_not_NaN (a : Q) : Num.round a <> NaN.
Proof.
  unfold Num.round. destruct (Qcompare a 0); [discriminate | |];
    rewrite round_pos_rv;
    match goal with |- context [Qle_bool ?x ?y] => destruct (Qle_bool x y) end;
    discriminate.
Qed.

Lemma Qred_inject_Z (z : Z) : Qred (inject_Z z) = inject_Z z.
Proof.
  pose proof (gcd_Qred (inject_Z z)) as G.
  pose proof (Qred_correct (inject_Z z)) as E.
  destruct (Qred (inject_Z z)) as [n d]. unfold Qeq in E. simpl in *.
  assert (D : Z.pos d = 1%Z).
  { assert (Hd : (Z.pos d | n)%Z) by (exists z; lia).
    assert (Hg : (Z.pos d | Z.gcd n (Z.pos d))%Z)
      by (apply Z.gcd_greatest; [exact Hd | apply Z.divide_refl]).
    rewrite G in Hg. apply Z.divide_1_r_nonneg in Hg; lia. }
  injection D as D. subst d. unfold inject_Z. f_equal. lia.
Qed.

Lemma pow2_1024_big (z : Z) : (z <= 2 ^ 53)%Z -> inject_Z z < pow2 1024.
Proof.
  intros H. apply Qle_lt_trans with (pow2 53).
  - rewrite pow2_Z by lia. now rewrite <- Zle_Qle.
  - apply pow2_lt. lia.
Qed.

(** an exact value below the overflow threshold is kept by rounding *)
Lemma round_pos_exact (a : Q) :
  0 < a -> rv a == a -> a < pow2 1024 -> round_pos a = Fin (Qred a).
Proof.
  intros Ha E B. rewrite round_pos_rv.
  assert (T : Qle_bool (pow2 1024) (rv a) = false) by (apply Qle_bool_false; lra).
  rewrite T. f_equal. now apply Qred_complete.
Qed.

Lemma rv_Z (z : Z) : (0 < z <= 2 ^ 53)%Z -> rv (inject_Z z) == inject_Z z.
Proof.
  intros [Hz Hb].
  assert (Ha : 0 < inject_Z z) by (change 0 with (inject_Z 0); now rewrite <- Zlt_Qlt).
  assert (K : ilog2 (inject_Z z) = Z.log2 z).
  { destruct (Z.log2_spec z Hz) as [L1 L2]. pose proof (Z.log2_nonneg z).
    apply ilog2_unique; rewrite pow2_Z by lia;
      [now rewrite <- Zle_Qle | now rewrite <- Zlt_Qlt]. }
  assert (L53 : (Z.log2 z <= 53)%Z).
  { change 53%Z with (Z.log2 (2 ^ 53)). now apply Z.log2_le_mono. }
  pose proof (Z.log2_nonneg z) as L0.
  assert (Ee : ulp_exp (inject_Z z) = (Z.log2 z - 52)%Z) by (unfold ulp_exp; rewrite K; lia).
  destruct (Z_le_gt_dec (Z.log2 z) 52) as [L | L].
  - apply rv_exact with (m := (z * 2 ^ (52 - Z.log2 z))%Z); [exact Ha |].
    rewrite Ee, inject_Z_mult, <- pow2_Z by lia.
    rewrite <- Qmult_assoc, <- pow2_add.
    replace (52 - Z.log2 z + (Z.log2 z - 52))%Z with 0%Z by lia.
    rewrite pow2_0. ring.
  - assert (Z53 : z = (2 ^ 53)%Z).
    { destruct (Z.log2_spec z Hz) as [L1 L2].
      assert ((2 ^ 53 <= 2 ^ Z.log2 z)%Z) by (apply Z.pow_le_mono_r; lia). lia. }
    apply rv_exact with (m := (2 ^ 52)%Z); [exact Ha |].
    rewrite Ee, Z53. change (Z.log2 (2 ^ 53) - 52)%Z with 1%Z.
    reflexivity.
Qed.

Lemma round_of_Z (z : Z) : (Z.abs z <= 2 ^ 53)%Z -> Num.round (inject_Z z) = of_Z z.
Proof.
  intros H. unfold of_Z.
  destruct (Z.lt_trichotomy z 0) as [L | [E | G]].
  - assert (La : inject_Z z < 0) by (change 0 with (inject_Z 0); now rewrite <- Zlt_Qlt).
    rewrite (round_neg_eq La).
    assert (Eo : - inject_Z z == inject_Z (- z)) by (now rewrite inject_Z_opp).
    assert (Po : 0 < - inject_Z z) by lra.
    rewrite (round_pos_comp Po Eo).
    assert (Pz : 0 < inject_Z (- z)) by (rewrite <- Eo; exact Po).
    rewrite (round_pos_exact Pz); [| apply rv_Z; lia | apply pow2_1024_big; lia].
    cbn [neg]. rewrite Qred_inject_Z. f_equal.
    rewrite <- (Qred_inject_Z z). apply Qred_complete.
    rewrite inject_Z_opp. ring.
  - subst z. reflexivity.
  - assert (Pa : 0 < inject_Z z) by (change 0 with (inject_Z 0); now rewrite <- Zlt_Qlt).
    rewrite (round_pos_eq Pa).
    rewrite (round_pos_exact Pa); [| apply rv_Z; lia | apply pow2_1024_big; lia].
    now rewrite Qred_inject_Z.
Qed.

Lemma round_pos_idem (a v : Q) :
  0 < a -> round_pos a = Fin v -> Num.round v = Fin v.
Proof.
  intros Ha R. rewrite round_pos_rv in R.
  destruct (Qle_bool (pow2 1024) (rv a)) eqn:T; [discriminate |].
  apply Qle_bool_false in T. apply Fin_inj in R.
  pose proof (rv_nonneg Ha) as N0.
  destruct (Qeq_dec (rv a) 0) as [Z0 | NZ].
  - assert (V0 : v = 0) by (rewrite <- R; apply (Qred_complete _ _ Z0)).
    rewrite V0. reflexivity.
  - assert (Pv : 0 < rv a) by lra.
    assert (Ev : v == rv a) by (rewrite <- R; apply Qred_correct).
    assert (Pv' : 0 < v) by (rewrite Ev; exact Pv).
    rewrite (round_pos_eq Pv').
    symmetry in Ev. assert (Ev' : v == rv a) by (now symmetry).
    rewrite (round_pos_comp Pv' Ev').
    rewrite (round_pos_exact Pv); [now rewrite R | now apply rv_idem | exact T].
Qed.

Lemma Qred_idem (q : Q) : Qred (Qred q) = Qred q.
Proof. apply Qred_complete, Qred_correct. Qed.

(** what rounding returns is a binary64 value: rounding keeps it *)
Lemma round_idem (a v : Q) : Num.round a = Fin v -> Num.round v = Fin v.
Proof.
  intros R.
  destruct (Qlt_le_dec 0 a) as [Pa | Na].
  - rewrite (round_pos_eq Pa) in R. now apply round_pos_idem with a.
  - destruct (Qeq_dec a 0) as [Za | NZa].
    + rewrite (round_comp Za), round_zero in R. apply Fin_inj in R. now subst v.
    + assert (La : a < 0) by lra. rewrite (round_neg_eq La) in R.
      destruct (round_pos (- a)) as [u | | |] eqn:U; try discriminate.
      cbn [neg] in R. apply Fin_inj in R.
      assert (Po : 0 < - a) by lra.
      pose proof (round_pos_idem Po U) as I.
      pose proof (round_pos_nonneg Po) as N. rewrite U in N. apply le_Fin in N.
      assert (Uc : Qred u = u).
      { rewrite round_pos_rv in U.
        destruct (Qle_bool (pow2 1024) (rv (- a))); [discriminate |].
        apply Fin_inj in U. rewrite <- U. apply Qred_idem. }
      destruct (Qeq_dec u 0) as [Zu | NZu].
      * assert (V0 : v = 0).
        { rewrite <- R. change 0 with (Qred (- 0)). apply Qred_complete. now rewrite Zu. }
        now rewrite V0.
      * assert (Lv : v < 0) by (rewrite <- R, Qred_correct; lra).
        rewrite (round_neg_eq Lv).
        assert (Ev : - v == u) by (rewrite <- R, Qred_correct; ring).
        assert (Pv : 0 < - v) by lra.
        rewrite (round_pos_comp Pv Ev).
        assert (Pu : 0 < u) by lra.
        rewrite <- (round_pos_eq Pu), I. cbn [neg]. now rewrite R.
Qed.

Lemma round_nonneg (a : Q) : 0 <= a -> Num.le zero (Num.round a) = true.
Proof. intros H. rewrite <- round_zero. now apply round_mono. Qed.

Lemma round_nonpos (a : Q) : a <= 0 -> Num.le (Num.round a) zero = true.
Proof. intros H. rewrite <- round_zero. now apply round_mono. Qed.

(** the result of rounding is in lowest terms *)
Lemma round_canonical (a v : Q) : Num.round a = Fin v -> Qred v = v.
Proof.
  unfold Num.round. destruct (Qcompare a 0).
  - intros H. apply Fin_inj in H. now subst v.
  - rewrite round_pos_rv.
    match goal with |- context [Qle_bool ?x ?y] => destruct (Qle_bool x y) end;
      [discriminate |].
    intros H. apply Fin_inj in H. subst v. apply Qred_idem.
  - rewrite round_pos_rv.
    match goal with |- context [Qle_bool ?x ?y] => destruct (Qle_bool x y) end;
      [discriminate |].
    cbn [neg]. intros H. apply Fin_inj in H. subst v. apply Qred_idem.
Qed.

Lemma round_upper (a w : Q) :
  0 < a -> Num.round a = Fin w -> pow2 (-1022) <= w -> w <= a * (1 + pow2 (-52)).
Proof.
  intros Ha R N. rewrite (round_pos_eq Ha), round_pos_rv in R.
  destruct (Qle_bool (pow2 1024) (rv a)); [discriminate |]. apply Fin_inj in R.
  assert (E : w == rv a) by (rewrite <- R; apply Qred_correct).
  rewrite E in *. now apply rv_upper.
Qed.

(** ** Arithmetic on numbers *)

Lemma add_comp (a a' b b' : Q) :
  a == a' -> b == b' -> (Fin a + Fin b)%num = (Fin a' + Fin b')%num.
Proof. intros Ha Hb. cbn [Num.add]. apply round_comp. now rewrite Ha, Hb. Qed.

Lemma add_comp_l (a a' : Q) (y : num) :
  a == a' -> (Fin a + y)%num = (Fin a' + y)%num.
Proof.
  intros H. destruct y; try reflexivity. now apply add_comp.
Qed.

Lemma add_comp_r (x : num) (b b' : Q) :
  b == b' -> (x + Fin b)%num = (x + Fin b')%num.
Proof.
  intros H. destruct x; try reflexivity. now apply add_comp.
Qed.

Lemma sub_comp (a a' b b' : Q) :
  a == a' -> b == b' -> (Fin a - Fin b)%num = (Fin a' - Fin b')%num.
Proof. intros Ha Hb. cbn [Num.sub]. apply round_comp. now rewrite Ha, Hb. Qed.

Lemma add_zero_r (x : num) (v : Q) :
  v == 0 -> (x + Fin v)%num = (x + zero)%num.
Proof. intros H. now apply add_comp_r. Qed.

Lemma add_of_Z (a b : Z) :
  (Z.abs (a + b) <= 2 ^ 53)%Z -> (of_Z a + of_Z b)%num = of_Z (a + b).
Proof.
  intros H. unfold of_Z at 1 2. cbn [Num.add].
  rewrite <- (round_of_Z _ H). apply round_comp. now rewrite inject_Z_plus.
Qed.

Lemma sub_of_Z (a b : Z) :
  (Z.abs (a - b) <= 2 ^ 53)%Z -> (of_Z a - of_Z b)%num = of_Z (a - b).
Proof.
  intros H. unfold of_Z at 1 2. cbn [Num.sub].
  rewrite <- (round_of_Z _ H). apply round_comp.
  unfold Z.sub. rewrite inject_Z_plus, inject_Z_opp. reflexivity.
Qed.

Lemma of_nat_succ (c : nat) :
  (Z.of_nat c < 2 ^ 53)%Z -> (of_nat c + one)%num = of_nat (S c).
Proof.
  intros H. unfold of_nat. change one with (of_Z 1). rewrite add_of_Z by lia.
  f_equal. lia.
Qed.

Lemma count_num_of_nat (c : nat) :
  (Z.of_nat c <= 2 ^ 53)%Z -> count_num c = of_nat c.
Proof.
  induction c as [| c IH]; intros H; cbn [count_num]; [reflexivity |].
  rewrite IH by lia. apply of_nat_succ. lia.
Qed.

Lemma min2_of_Z (a b : Z) : min2 (of_Z a) (of_Z b) = of_Z (Z.min a b).
Proof.
  unfold min2, of_Z, Num.le.
  destruct (Qle_bool (inject_Z a) (inject_Z b)) eqn:E.
  - apply Qle_bool_iff in E. rewrite <- Zle_Qle in E.
    now rewrite Z.min_l.
  - apply Qle_bool_false in E. rewrite <- Zlt_Qlt in E.
    rewrite Z.min_r; [reflexivity | apply Z.lt_le_incl, E].
Qed.

Lemma inject_Z_nonzero (z : Z) : z <> 0%Z -> ~ inject_Z z == 0.
Proof.
  intros Hz H. apply Hz. unfold Qeq in H. cbn in H.
  now rewrite Z.mul_1_r in H.
Qed.

Lemma truthy_of_nat (n : nat) : truthy (of_nat n) = negb (Nat.eqb n 0).
Proof.
  unfold truthy, of_nat, of_Z. f_equal.
  destruct n; [reflexivity |].
  apply is_zero_false. apply inject_Z_nonzero. discriminate.
Qed.

Lemma inject_nat_pos (n : nat) : n <> O -> 0 < inject_Z (Z.of_nat n).
Proof.
  intros H. change 0%Q with (inject_Z 0). rewrite <- Zlt_Qlt. lia.
Qed.

(** a number that is at least zero is a rational that is, or [+Infinity] *)
Lemma nonneg_cases (x : num) :
  Num.le zero x = true -> x = PInf \/ exists q, x = Fin q /\ 0 <= q.
Proof.
  destruct x as [q | | |]; cbn [Num.le zero]; intros H; try discriminate.
  - right. exists q. split; [reflexivity | now apply Qle_bool_iff].
  - now left.
Qed.

Lemma le_zero_Fin (q : Q) : Num.le zero (Fin q) = true <-> 0 <= q.
Proof. apply le_Fin. Qed.

Lemma sub_nonneg (a b : Q) : b <= a -> Num.le zero (Fin a - Fin b)%num = true.
Proof. intros H. cbn [Num.sub]. apply round_nonneg. lra. Qed.

Lemma is_neg_false (q : Q) : 0 <= q -> is_neg q = false.
Proof. intros H. unfold is_neg. apply negb_false_iff. now apply Qle_bool_iff. Qed.

Lemma is_neg_true (q : Q) : is_neg q = true <-> q < 0.
Proof. unfold is_neg. rewrite negb_true_iff. apply Qle_bool_false. Qed.

Lemma div_nonneg (x w : num) :
  Num.le zero x = true -> Num.le zero w = true ->
  (x / w)%num = NaN \/ Num.le zero (x / w)%num = true.
Proof.
  intros Hx Hw.
  destruct (nonneg_cases _ Hx) as [-> | [a [-> Ha]]];
    destruct (nonneg_cases _ Hw) as [-> | [b [-> Hb]]]; cbn [Num.div].
  - now left.
  - right. now rewrite is_neg_false.
  - right. reflexivity.
  - destruct (is_zero b) eqn:Zb.
    + destruct (is_zero a) eqn:Za; [now left | right].
      apply is_zero_false in Za.
      assert (P : is_pos a = true) by (apply is_pos_true; lra).
      now rewrite P.
    + right. apply is_zero_false in Zb. apply round_nonneg.
      apply Qle_shift_div_l; lra.
Qed.

(** the shape of what [Math.floor] returns on a number that is at least
    zero *)
Lemma floor_nonneg (x : num) :
  Num.le zero x = true ->
  floor x = PInf \/ exists f, floor x = of_Z f /\ (0 <= f)%Z.
Proof.
  intros H. destruct (nonneg_cases _ H) as [-> | [q [-> Hq]]]; [now left | right].
  exists (Qfloor q). split; [reflexivity |].
  change 0%Z with (Qfloor 0). now apply Qfloor_resp_le.
Qed.

Lemma min2_clamp (b : Z) (x : num) :
  (0 <= b)%Z ->
  x = PInf \/ (exists f, x = of_Z f /\ (0 <= f)%Z) ->
  exists k, min2 (of_Z b) x = of_Z k /\ (0 <= k <= b)%Z.
Proof.
  intros Hb [-> | [f [-> Hf]]].
  - exists b. split; [reflexivity | lia].
  - exists (Z.min b f). split; [apply min2_of_Z | lia].
Qed.

Lemma is_integer_inject_Z (z : Z) : is_integer (inject_Z z) = true.
Proof. unfold is_integer. now rewrite Qred_inject_Z. Qed.

Lemma as_index_of_Z (k : Z) :
  (0 <= k <= 2 ^ 32 - 2)%Z -> Arr.as_index (of_Z k) = Some (Z.to_nat k).
Proof.
  intros [H0 H1]. unfold Arr.as_index, of_Z.
  rewrite is_integer_inject_Z, Qred_inject_Z.
  assert (A : Qle_bool 0 (inject_Z k) = true).
  { apply Qle_bool_iff. change 0 with (inject_Z 0). now rewrite <- Zle_Qle. }
  assert (B : Qle_bool (inject_Z k) (inject_Z (2 ^ 32 - 2)) = true).
  { apply Qle_bool_iff. now rewrite <- Zle_Qle. }
  rewrite A, B. reflexivity.
Qed.

Lemma as_index_of_nat (i : nat) :
  (Z.of_nat i <= 2 ^ 32 - 2)%Z -> Arr.as_index (of_nat i) = Some i.
Proof.
  intros H. unfold of_nat. rewrite as_index_of_Z by lia.
  now rewrite Nat2Z.id.
Qed.

(** [toFixed] and [toString] on a few numbers: rounding to the nearest,
    halves upwards in magnitude, the sign kept on a negative number that
    rounds to zero, and padding with zeros. *)
Example formatting_examples :
  List.map (fun x => toFixed (engine := Sample.engine) x 2)
    [Fin (nearest (1 # 3)); Fin (nearest (-1 # 1000)); Fin (5 # 1024);
     Fin (2005 # 2); Fin 0; Fin (-25 # 2); NaN; PInf]
  = ["0.33"; "-0.00"; "0.00"; "1002.50"; "0.00"; "-12.50"; "NaN"; "Infinity"]
  /\ toFixed (engine := Sample.engine) (Fin (1333 # 20)) 1 = "66.7"
  /\ toString (engine := Sample.engine) (Fin (-6 # 2)) = "-3"
  /\ padStart0 (toString (engine := Sample.engine) (of_Z 7)) 2 = "07".
Proof. repeat split; vm_compute; reflexivity. Qed.

(** Binary64 arithmetic on a few numbers: [0.1 + 0.2] is
    [0.30000000000000004], the sum [0.1 + 0.2 + 0.3] depends on the
    order, [2^53 + 1] is [2^53], the greatest number doubled is
    [Infinity], and half of the least number is zero. *)
Example rounding_examples :
  (Fin (nearest (1 # 10)) + Fin (nearest (2 # 10)))%num
  = Fin (nearest (30000000000000004 # 100000000000000000))
  /\ (Fin (nearest (1 # 10)) + Fin (nearest (2 # 10)))%num
     <> Fin (nearest (3 # 10))
  /\ float_sum [nearest (1 # 10); nearest (2 # 10); nearest (3 # 10)]
     = Fin (nearest (6000000000000001 # 10000000000000000))
  /\ float_sum [nearest (3 # 10); nearest (2 # 10); nearest (1 # 10)]
     = Fin (nearest (6 # 10))
  /\ Fin (nearest (6000000000000001 # 10000000000000000)) <> Fin (nearest (6 # 10))
  /\ (of_Z (2 ^ 53) + one)%num = of_Z (2 ^ 53)
  /\ (of_Z (2 ^ 1024 - 2 ^ 971) * of_Z 2)%num = PInf
  /\ (Fin (pow2 (-1074)) / of_Z 2)%num = zero.
Proof. repeat split; vm_compute; try reflexivity; discriminate. Qed.

(** ** Binary64 values *)

Lemma ulp_exp_pow2_min : ulp_exp (pow2 (-1074)) = (-1074)%Z.
Proof.
  unfold ulp_exp.
  rewrite (@ilog2_unique (pow2 (-1074)) (-1074)); [reflexivity | apply Qle_refl |].
  apply pow2_lt. lia.
Qed.

Lemma round_least : Num.round (pow2 (-1074)) = Fin (Qred (pow2 (-1074))).
Proof.
  pose proof (pow2_pos (-1074)) as P.
  rewrite (round_pos_eq P). apply round_pos_exact; [exact P | |].
  - apply rv_exact with (m := 1%Z); [exact P |].
    rewrite ulp_exp_pow2_min. change (inject_Z 1) with 1. ring.
  - apply pow2_lt. lia.
Qed.

(** a binary64 value is a whole number of units [2^-1074] *)
Lemma rv_grid (a : Q) : exists k : Z, rv a == inject_Z k * pow2 (-1074).
Proof.
  unfold rv. pose proof (ulp_exp_ge a) as G.
  exists (rne (a / pow2 (ulp_exp a)) * 2 ^ (ulp_exp a + 1074))%Z.
  rewrite inject_Z_mult, <- pow2_Z by lia.
  rewrite <- Qmult_assoc, <- pow2_add.
  replace (ulp_exp a + 1074 + -1074)%Z with (ulp_exp a) by lia. reflexivity.
Qed.

Lemma double_grid (q : Q) :
  double q -> exists k : Z, q == inject_Z k * pow2 (-1074).
Proof.
  unfold double. intros D.
  destruct (Qlt_le_dec 0 q) as [P | N].
  - rewrite (round_pos_eq P), round_pos_rv in D.
    destruct (Qle_bool (pow2 1024) (rv q)); [discriminate |].
    apply Fin_inj in D. destruct (rv_grid q) as [k Hk]. exists k.
    rewrite <- Hk. transitivity (Qred q); [symmetry; apply Qred_correct |].
    rewrite <- D. apply Qred_correct.
  - destruct (Qeq_dec q 0) as [Z0 | NZ].
    + exists 0%Z. rewrite Z0. change (inject_Z 0) with 0. ring.
    + assert (L : q < 0) by lra.
      rewrite (round_neg_eq L), round_pos_rv in D.
      destruct (Qle_bool (pow2 1024) (rv (- q))); [discriminate |].
      cbn [neg] in D. apply Fin_inj in D.
      destruct (rv_grid (- q)) as [k Hk]. exists (- k)%Z.
      rewrite inject_Z_opp.
      assert (E : q == - rv (- q)).
      { transitivity (Qred q); [symmetry; apply Qred_correct |].
        rewrite <- D. now rewrite !Qred_correct. }
      rewrite E, Hk. ring.
Qed.

(** the difference of two binary64 values is not rounded to zero *)
Lemma sub_doubles_positive (a b : Q) :
  double a -> double b -> a < b ->
  exists d, (Fin b - Fin a)%num = PInf \/ ((Fin b - Fin a)%num = Fin d /\ 0 < d).
Proof.
  intros Da Db L.
  destruct (double_grid Da) as [ka Ha]. destruct (double_grid Db) as [kb Hb].
  pose proof (pow2_pos (-1074)) as P.
  assert (K : (ka + 1 <= kb)%Z).
  { destruct (Z_lt_le_dec ka kb) as [X | X]; [lia | exfalso].
    assert (inject_Z kb <= inject_Z ka) by (now rewrite <- Zle_Qle).
    assert (inject_Z kb * pow2 (-1074) <= inject_Z ka * pow2 (-1074))
      by (apply Qmult_le_compat_r; lra).
    lra. }
  assert (G : pow2 (-1074) <= b - a).
  { rewrite Ha, Hb. rewrite Zle_Qle, inject_Z_plus in K.
    change (inject_Z 1) with 1 in K.
    assert (X : (inject_Z ka + 1) * pow2 (-1074) <= inject_Z kb * pow2 (-1074))
      by (apply Qmult_le_compat_r; lra).
    lra. }
  pose proof (round_mono G) as M. rewrite round_least in M.
  cbn [Num.sub].
  destruct (Num.round (b - a)) as [d | | |] eqn:R; try discriminate M.
  - exists d. right. split; [reflexivity |].
    apply le_Fin in M. rewrite Qred_correct in M. lra.
  - exists 0. now left.
Qed.

Lemma double_of_Z (z : Z) : (Z.abs z <= 2 ^ 53)%Z -> double (inject_Z z).
Proof.
  intros H. unfold double. rewrite (round_of_Z _ H), Qred_inject_Z. reflexivity.
Qed.

(** what rounding returns is a binary64 value *)
Lemma double_round (a v : Q) : Num.round a = Fin v -> double v.
Proof.
  intros R. unfold double. rewrite (round_idem _ R).
  now rewrite (round_canonical _ R).
Qed.

(** ** Summary statistics *)

Section StatsFacts.
Import Analysis.

(** [p || 0] denotes the profit with a missing one read as zero. *)
Lemma add_profit_or_0 (x : num) (p : option Q) :
  (x + profit_or_0 p)%num = (x + Fin (profit_value p))%num.
Proof.
  destruct p as [q |]; cbn [profit_or_0 profit_value]; [| reflexivity].
  unfold or_else, truthy. destruct (is_zero q) eqn:E; cbn [negb]; [| reflexivity].
  apply is_zero_true in E. symmetry. now apply add_zero_r.
Qed.

Lemma ge_profit_or_0 (p : option Q) : Num.ge (profit_or_0 p) zero = is_win p.
Proof.
  unfold is_win. destruct p as [q |]; cbn [profit_or_0 profit_value].
  - unfold or_else, truthy. destruct (is_zero q) eqn:E; cbn [negb].
    + apply is_zero_true in E. symmetry. apply Qle_bool_iff. rewrite E.
      apply Qle_refl.
    + reflexivity.
  - reflexivity.
Qed.

Lemma fold_add_profits (ps : list (option Q)) (x : num) :
  fold_left (fun s v => (s + v)%num) (List.map profit_or_0 ps) x
  = fold_left Num.add (List.map Fin (List.map profit_value ps)) x.
Proof.
  revert x. induction ps as [| p ps IH]; intros x; cbn [List.map fold_left];
    [reflexivity |].
  now rewrite add_profit_or_0, IH.
Qed.

Lemma count_wins (ps : list (option Q)) :
  List.length (filter (fun p => Num.ge p zero) (List.map profit_or_0 ps))
  = List.length (filter is_win ps).
Proof.
  induction ps as [| p ps IH]; cbn [List.map filter]; [reflexivity |].
  rewrite ge_profit_or_0. destruct (is_win p); cbn [List.length]; now rewrite IH.
Qed.

Lemma stats_sum (ts : list Trade) :
  sum (computeStats ts) = float_sum (List.map trade_value ts).
Proof.
  unfold computeStats, float_sum. cbn [sum].
  rewrite <- (List.map_map profit profit_or_0), fold_add_profits.
  now rewrite !List.map_map.
Qed.

Lemma stats_wins (ts : list Trade) :
  List.length (filter (fun p => Num.ge p zero)
                 (List.map (fun t => profit_or_0 (profit t)) ts))
  = List.length (filter (fun t => is_win (profit t)) ts).
Proof.
  rewrite <- (List.map_map profit profit_or_0), count_wins.
  induction ts as [| t ts IH]; cbn [List.map filter]; [reflexivity |].
  destruct (is_win (profit t)); cbn [List.length]; now rewrite IH.
Qed.

(** The value of [computeStats], field by field. *)
Lemma computeStats_value (ts : list Trade) :
  let n := List.length ts in
  let wins := List.length (filter (fun t => is_win (profit t)) ts) in
  computeStats ts
  = mkStats n (float_sum (List.map trade_value ts))
      (if Nat.eqb n 0 then zero
       else (float_sum (List.map trade_value ts) / of_nat n)%num)
      (if Nat.eqb n 0 then zero
       else ((of_nat wins / of_nat n) * of_Z 100)%num).
Proof.
  intros n wins. pose proof (stats_sum ts) as S. pose proof (stats_wins ts) as W.
  unfold computeStats in *. cbn [sum] in S. rewrite S, W, truthy_of_nat.
  fold n. destruct (Nat.eqb n 0); reflexivity.
Qed.

End StatsFacts.

Lemma Qabs_inject_Z (z : Z) : Qabs (inject_Z z) = inject_Z (Z.abs z).
Proof. reflexivity. Qed.

Lemma qsum_abs_nonneg (vs : list Q) : 0 <= qsum (List.map Qabs vs).
Proof.
  induction vs as [| v vs IH]; cbn [List.map qsum fold_right]; [apply Qle_refl |].
  pose proof (Qabs_nonneg v). unfold qsum in IH. lra.
Qed.

(** On whole numbers whose absolute values sum to [2^53] at most, the
    binary64 sum is the exact sum. *)
Lemma float_sum_exact (vs : list Q) (a : Z) :
  Forall whole vs ->
  inject_Z (Z.abs a) + qsum (List.map Qabs vs) <= inject_Z (2 ^ 53) ->
  fold_left Num.add (List.map Fin vs) (of_Z a) = Fin (Qred (inject_Z a + qsum vs)).
Proof.
  intros W. revert a. induction W as [| v vs [z Hz] _ IH]; intros a B;
    cbn [List.map qsum fold_right fold_left] in *.
  - unfold of_Z. f_equal. transitivity (Qred (inject_Z a));
      [symmetry; apply Qred_inject_Z | apply Qred_complete].
    now rewrite Qplus_0_r.
  - pose proof (qsum_abs_nonneg vs) as N. unfold qsum in N.
    assert (Av : Qabs v == inject_Z (Z.abs z)) by (now rewrite Hz).
    rewrite Av in B.
    assert (Bz : (Z.abs a + Z.abs z <= 2 ^ 53)%Z).
    { rewrite Zle_Qle, inject_Z_plus. lra. }
    assert (E : (of_Z a + Fin v)%num = of_Z (a + z)).
    { rewrite <- add_of_Z by lia. unfold of_Z. now apply add_comp_r. }
    rewrite E, IH.
    + f_equal. apply Qred_complete. rewrite inject_Z_plus, Hz.
      unfold qsum. ring.
    + assert (T : (Z.abs (a + z) <= Z.abs a + Z.abs z)%Z) by lia.
      rewrite Zle_Qle, inject_Z_plus in T. unfold qsum. lra.
Qed.

(** The win rate is not [100 * wins / total]: for the profits 100, -40 and
    a missing one the code computes [(2 / 3) * 100] in binary64, which is
    66.66666666666666, while [100 * 2 / 3] is 66.66666666666667 in
    binary64 (and neither is the real number 200/3). *)
Lemma winRate_is_not_exact :
  let ts := [Sample.first_trade; Sample.second_trade;
             Analysis.mkTrade 3 None None] in
  Analysis.winRate (Analysis.computeStats ts)
  = Fin (nearest (6666666666666666 # 100000000000000)) /\
  ((of_Z 100 * of_Z 2) / of_Z 3)%num
  = Fin (nearest (6666666666666667 # 100000000000000)) /\
  Analysis.winRate (Analysis.computeStats ts)
  <> ((of_Z 100 * of_Z 2) / of_Z 3)%num /\
  Analysis.winRate (Analysis.computeStats ts) <> Fin (Qred (200 # 3)) /\
  Analysis.total (Analysis.computeStats ts) = 3%nat /\
  Analysis.sum (Analysis.computeStats ts) = of_Z 60 /\
  Analysis.avg (Analysis.computeStats ts) = of_Z 20.
Proof.
  repeat split; vm_compute; try reflexivity; discriminate.
Qed.

(** C1, as the code has it.  [computeStats] returns the number of trades,
    the binary64 sum of the profits accumulated from the left with a
    missing profit read as zero, the quotient of that sum by the number
    of trades, and [(wins / total) * 100], each operation rounded, where
    a win is a profit of at least zero; the average and the win rate are
    zero on the empty list, where the result is
    [{total: 0, sum: 0, avg: 0, winRate: 0}]; a trade whose profit is
    exactly zero is a win; and on whole-number profits whose absolute
    values add up to [2^53] at most the sum is exact. *)
Theorem computeStats_spec (ts : list Analysis.Trade) :
  let values := List.map trade_value ts in
  let n := List.length ts in
  let wins := List.length (filter (fun t => is_win (Analysis.profit t)) ts) in
  let s := Analysis.computeStats ts in
  Analysis.total s = n /\
  Analysis.sum s = float_sum values /\
  Analysis.avg s
  = (if Nat.eqb n 0 then zero else (float_sum values / of_nat n)%num) /\
  Analysis.winRate s
  = (if Nat.eqb n 0 then zero
     else ((of_nat wins / of_nat n) * of_Z 100)%num) /\
  Analysis.computeStats [] = Analysis.mkStats 0 zero zero zero /\
  (forall tk ot,
     let t0 := Analysis.mkTrade tk (Some 0%Q) ot in
     is_win (Analysis.profit t0) = true /\
     Analysis.winRate (Analysis.computeStats [t0]) = of_Z 100) /\
  (Forall whole values ->
   qsum (List.map Qabs values) <= inject_Z (2 ^ 53) ->
   Analysis.sum s = Fin (Qred (qsum values))).
Proof.
  intros values n wins s. pose proof (computeStats_value ts) as V.
  cbv zeta in V. unfold s. rewrite V.
  cbn [Analysis.total Analysis.sum Analysis.avg Analysis.winRate].
  fold values n wins.
  do 5 (split; [reflexivity |]).
  split; [intros tk ot; split; vm_compute; reflexivity |].
  intros W B. unfold float_sum. change zero with (of_Z 0).
  rewrite (@float_sum_exact values 0 W).
  - f_equal. apply Qred_complete. ring.
  - change (inject_Z (Z.abs 0)) with 0. lra.
Qed.

Lemma computeStats_spec_witness :
  let ts := [Sample.first_trade; Sample.second_trade; Sample.third_trade] in
  Analysis.total (Analysis.computeStats ts) = 3%nat /\
  Analysis.sum (Analysis.computeStats ts) = Fin (Qred (qsum [100; -40; 0])).
Proof.
  pose proof (@computeStats_spec
                [Sample.first_trade; Sample.second_trade; Sample.third_trade])
    as [T [_ [_ [_ [_ [_ E]]]]]].
  split; [exact T |].
  apply E.
  - repeat constructor; [exists 100%Z | exists (-40)%Z | exists 0%Z]; reflexivity.
  - vm_compute. discriminate.
Defined.

(** ** Extrema *)

Lemma qmin_of_least (p : Q) (ps : list Q) : least (qmin_of p ps) (p :: ps).
Proof.
  revert p. induction ps as [| x t IH]; intros p; cbn [qmin_of].
  - split.
    + intros q [<- | []]. apply Qle_refl.
    + exists p. split; [now left | reflexivity].
  - destruct (IH x) as [Hle [w [Hin Hw]]].
    destruct (Qle_bool p (qmin_of x t)) eqn:E.
    + apply Qle_bool_iff in E. split.
      * intros q [<- | Hq]; [apply Qle_refl |].
        apply Qle_trans with (qmin_of x t); [exact E | now apply Hle].
      * exists p. split; [now left | reflexivity].
    + apply Qle_bool_false in E. split.
      * intros q [<- | Hq]; [now apply Qlt_le_weak | now apply Hle].
      * exists w. split; [now right | exact Hw].
Qed.

Lemma qmax_of_greatest (p : Q) (ps : list Q) : greatest (qmax_of p ps) (p :: ps).
Proof.
  revert p. induction ps as [| x t IH]; intros p; cbn [qmax_of].
  - split.
    + intros q [<- | []]. apply Qle_refl.
    + exists p. split; [now left | reflexivity].
  - destruct (IH x) as [Hle [w [Hin Hw]]].
    destruct (Qle_bool (qmax_of x t) p) eqn:E.
    + apply Qle_bool_iff in E. split.
      * intros q [<- | Hq]; [apply Qle_refl |].
        apply Qle_trans with (qmax_of x t); [now apply Hle | exact E].
      * exists p. split; [now left | reflexivity].
    + apply Qle_bool_false in E. split.
      * intros q [<- | Hq]; [now apply Qlt_le_weak | now apply Hle].
      * exists w. split; [now right | exact Hw].
Qed.

Lemma qmin_least (ps : list Q) : ps <> [] -> least (qmin ps) ps.
Proof. destruct ps as [| p t]; [congruence | intros _; apply qmin_of_least]. Qed.

Lemma qmax_greatest (ps : list Q) : ps <> [] -> greatest (qmax ps) ps.
Proof. destruct ps as [| p t]; [congruence | intros _; apply qmax_of_greatest]. Qed.

Lemma least_unique (m1 m2 : Q) (ps : list Q) :
  least m1 ps -> least m2 ps -> m1 == m2.
Proof.
  intros [L1 [w1 [I1 E1]]] [L2 [w2 [I2 E2]]].
  apply Qle_antisym.
  - rewrite E2. now apply L1.
  - rewrite E1. now apply L2.
Qed.

Lemma greatest_unique (m1 m2 : Q) (ps : list Q) :
  greatest m1 ps -> greatest m2 ps -> m1 == m2.
Proof.
  intros [L1 [w1 [I1 E1]]] [L2 [w2 [I2 E2]]].
  apply Qle_antisym.
  - rewrite E1. now apply L2.
  - rewrite E2. now apply L1.
Qed.

(** [Math.min(...)] over finite numbers, from a finite start *)
Lemma fold_min2_least (ps : list Q) (a : Q) :
  exists m, fold_left min2 (List.map Fin ps) (Fin a) = Fin m /\ least m (a :: ps).
Proof.
  revert a. induction ps as [| x t IH]; intros a; cbn [List.map fold_left].
  - exists a. split; [reflexivity |]. split.
    + intros q [<- | []]. apply Qle_refl.
    + exists a. split; [now left | reflexivity].
  - cbn [min2 Num.le].
    destruct (Qle_bool a x) eqn:E.
    + destruct (IH a) as [m [Hm [Hle [w [Hin Hw]]]]].
      exists m. split; [exact Hm |]. apply Qle_bool_iff in E. split.
      * intros q [<- | [<- | Hq]].
        -- apply Hle. now left.
        -- apply Qle_trans with a; [apply Hle; now left | exact E].
        -- apply Hle. now right.
      * exists w. split; [| exact Hw].
        destruct Hin as [<- | Hin]; [now left | right; now right].
    + destruct (IH x) as [m [Hm [Hle [w [Hin Hw]]]]].
      exists m. split; [exact Hm |]. apply Qle_bool_false in E. split.
      * intros q [<- | [<- | Hq]].
        -- apply Qle_trans with x; [apply Hle; now left | now apply Qlt_le_weak].
        -- apply Hle. now left.
        -- apply Hle. now right.
      * exists w. split; [| exact Hw].
        destruct Hin as [<- | Hin]; [right; now left | right; now right].
Qed.

Lemma fold_max2_greatest (ps : list Q) (a : Q) :
  exists m, fold_left max2 (List.map Fin ps) (Fin a) = Fin m /\ greatest m (a :: ps).
Proof.
  revert a. induction ps as [| x t IH]; intros a; cbn [List.map fold_left].
  - exists a. split; [reflexivity |]. split.
    + intros q [<- | []]. apply Qle_refl.
    + exists a. split; [now left | reflexivity].
  - cbn [max2 Num.le].
    destruct (Qle_bool a x) eqn:E.
    + destruct (IH x) as [m [Hm [Hle [w [Hin Hw]]]]].
      exists m. split; [exact Hm |]. apply Qle_bool_iff in E. split.
      * intros q [<- | [<- | Hq]].
        -- apply Qle_trans with x; [exact E | apply Hle; now left].
        -- apply Hle. now left.
        -- apply Hle. now right.
      * exists w. split; [| exact Hw].
        destruct Hin as [<- | Hin]; [right; now left | right; now right].
    + destruct (IH a) as [m [Hm [Hle [w [Hin Hw]]]]].
      exists m. split; [exact Hm |]. apply Qle_bool_false in E. split.
      * intros q [<- | [<- | Hq]].
        -- apply Hle. now left.
        -- apply Qle_trans with a; [now apply Qlt_le_weak | apply Hle; now left].
        -- apply Hle. now right.
      * exists w. split; [| exact Hw].
        destruct Hin as [<- | Hin]; [now left | right; now right].
Qed.

Lemma min_list_Fin (ps : list Q) :
  ps <> [] -> exists m, min_list (List.map Fin ps) = Fin m /\ m == qmin ps.
Proof.
  intros Hne. destruct ps as [| p t]; [congruence |].
  destruct (fold_min2_least t p) as [m [Hm Hl]].
  exists m. split; [exact Hm |].
  apply least_unique with (p :: t); [exact Hl | now apply qmin_least].
Qed.

Lemma max_list_Fin (ps : list Q) :
  ps <> [] -> exists m, max_list (List.map Fin ps) = Fin m /\ m == qmax ps.
Proof.
  intros Hne. destruct ps as [| p t]; [congruence |].
  destruct (fold_max2_greatest t p) as [m [Hm Hl]].
  exists m. split; [exact Hm |].
  apply greatest_unique with (p :: t); [exact Hl | now apply qmax_greatest].
Qed.

Lemma qmin_le_qmax (ps : list Q) : ps <> [] -> qmin ps <= qmax ps.
Proof.
  intros Hne. destruct (qmin_least Hne) as [Hle [w [Hin Hw]]].
  destruct (qmax_greatest Hne) as [Hge _].
  apply Qle_trans with w; [now apply Hle | now apply Hge].
Qed.

(** ** The histogram: range, bin width and bucket index *)

Lemma spread_ok {engine : Engine} (A : Type) (f : list num -> A) (xs : list num) :
  (Z.of_nat (List.length xs) <= max_arguments)%Z -> spread f xs = Normal (f xs).
Proof.
  intros H. unfold spread.
  replace (Z.of_nat (List.length xs) <=? max_arguments)%Z with true
    by (symmetry; now apply Z.leb_le).
  reflexivity.
Qed.

Lemma spread_too_long {engine : Engine} (A : Type) (f : list num -> A)
  (xs : list num) :
  (max_arguments < Z.of_nat (List.length xs))%Z -> spread f xs = Throw RangeError.
Proof.
  intros H. unfold spread.
  replace (Z.of_nat (List.length xs) <=? max_arguments)%Z with false
    by (symmetry; now apply Z.leb_gt).
  reflexivity.
Qed.

Lemma max_arguments_small {engine : Engine} : (max_arguments < 2 ^ 32)%Z.
Proof. apply max_arguments_bounds. Qed.

(** the range is a positive number or [+Infinity] *)
Lemma hist_range_cases (ps : list Q) :
  ps <> [] ->
  Analysis.hist_range (List.map Fin ps) = PInf \/
  exists r, Analysis.hist_range (List.map Fin ps) = Fin r /\ 0 < r.
Proof.
  intros Hne. unfold Analysis.hist_range.
  destruct (min_list_Fin Hne) as [m [-> Hm]].
  destruct (max_list_Fin Hne) as [M [-> HM]].
  pose proof (qmin_le_qmax Hne) as L.
  assert (N : Num.le zero (Fin M - Fin m)%num = true)
    by (apply sub_nonneg; lra).
  destruct (nonneg_cases _ N) as [-> | [q [-> Hq]]]; [now left | right].
  unfold or_else, truthy. destruct (is_zero q) eqn:E; cbn [negb].
  - exists 1. split; [reflexivity | lra].
  - apply is_zero_false in E. exists q. split; [reflexivity | lra].
Qed.

Lemma hist_binWidth_nonneg (ps : list Q) (bins : Z) :
  ps <> [] -> (0 <= bins)%Z ->
  Num.le zero (Analysis.hist_binWidth (List.map Fin ps) bins) = true.
Proof.
  intros Hne Hb. unfold Analysis.hist_binWidth, of_Z.
  assert (B : 0 <= inject_Z bins)
    by (change 0 with (inject_Z 0); now rewrite <- Zle_Qle).
  destruct (hist_range_cases Hne) as [-> | [r [-> Hr]]]; cbn [Num.div].
  - now rewrite is_neg_false.
  - destruct (is_zero (inject_Z bins)) eqn:Zb.
    + assert (Zr : is_zero r = false) by (apply is_zero_false; lra).
      assert (Pr : is_pos r = true) by (now apply is_pos_true).
      now rewrite Zr, Pr.
    + apply is_zero_false in Zb. apply round_nonneg.
      apply Qle_shift_div_l; lra.
Qed.

(** With no bins the width is [range / 0], which is [+Infinity]. *)
Lemma hist_binWidth_no_bins (ps : list Q) :
  ps <> [] -> Analysis.hist_binWidth (List.map Fin ps) 0 = PInf.
Proof.
  intros Hne. unfold Analysis.hist_binWidth, of_Z.
  destruct (hist_range_cases Hne) as [-> | [r [-> Hr]]]; cbn [Num.div].
  - reflexivity.
  - change (is_zero (inject_Z 0)) with true. cbn iota.
    assert (Zr : is_zero r = false) by (apply is_zero_false; lra).
    assert (Pr : is_pos r = true) by (now apply is_pos_true).
    now rewrite Zr, Pr.
Qed.

Lemma scaled_width (ps : list Q) (bins : Z) :
  ps <> [] -> (0 <= bins)%Z -> scaled ps bins = true ->
  exists w, Analysis.hist_binWidth (List.map Fin ps) bins = Fin w /\ 0 < w.
Proof.
  intros Hne Hb S. unfold scaled in S.
  pose proof (hist_binWidth_nonneg Hne Hb) as N.
  destruct (Analysis.hist_binWidth (List.map Fin ps) bins) as [w | | |];
    try discriminate.
  apply le_zero_Fin in N. apply negb_true_iff, is_zero_false in S.
  exists w. split; [reflexivity | lra].
Qed.

(** the difference between a value of the list and the least one *)
Lemma offset_nonneg (ps : list Q) (p : Q) :
  ps <> [] -> In p ps ->
  Num.le zero (Fin p - min_list (List.map Fin ps))%num = true.
Proof.
  intros Hne Hin. destruct (min_list_Fin Hne) as [m [-> Hm]].
  destruct (qmin_least Hne) as [Hle _]. specialize (Hle p Hin).
  apply sub_nonneg. lra.
Qed.

Lemma floor_NaN : floor NaN = NaN.
Proof. reflexivity. Qed.

Lemma min2_NaN_r (x : num) : min2 x NaN = NaN.
Proof. now destruct x. Qed.

Lemma bins_minus_one (bins : Z) :
  (0 <= bins <= 2 ^ 53)%Z -> (of_Z bins - one)%num = of_Z (bins - 1).
Proof. intros H. change one with (of_Z 1). apply sub_of_Z. lia. Qed.

(** The index of a value of the list is [NaN] or a whole number from 0 to
    [bins - 1]. *)
Lemma index_cases (ps : list Q) (bins : Z) (p : Q) :
  ps <> [] -> (1 <= bins <= 2 ^ 53)%Z -> In p ps ->
  index_of (List.map Fin ps) bins (Fin p) = NaN \/
  exists k, index_of (List.map Fin ps) bins (Fin p) = of_Z k
            /\ (0 <= k <= bins - 1)%Z.
Proof.
  intros Hne Hb Hin. unfold index_of, Analysis.hist_index.
  rewrite bins_minus_one by lia.
  pose proof (@offset_nonneg ps p Hne Hin) as D.
  assert (W : Num.le zero (Analysis.hist_binWidth (List.map Fin ps) bins) = true)
    by (apply hist_binWidth_nonneg; [exact Hne | lia]).
  destruct (div_nonneg _ _ D W) as [-> | Q0].
  - left. now rewrite floor_NaN, min2_NaN_r.
  - right. apply min2_clamp; [lia |]. now apply floor_nonneg.
Qed.

Lemma div_by_positive (x : num) (w : Q) :
  Num.le zero x = true -> 0 < w -> Num.le zero (x / Fin w)%num = true.
Proof.
  intros Hx Hw. destruct (nonneg_cases _ Hx) as [-> | [a [-> Ha]]]; cbn [Num.div].
  - rewrite is_neg_false by lra. reflexivity.
  - assert (Zw : is_zero w = false) by (apply is_zero_false; lra).
    rewrite Zw. apply round_nonneg. apply Qle_shift_div_l; lra.
Qed.

(** When the bin width is a number other than zero, the index of a value
    of the list is a whole number from 0 to [bins - 1]. *)
Lemma index_scaled (ps : list Q) (bins : Z) (p : Q) :
  ps <> [] -> (1 <= bins <= 2 ^ 53)%Z -> scaled ps bins = true -> In p ps ->
  exists k, index_of (List.map Fin ps) bins (Fin p) = of_Z k
            /\ (0 <= k <= bins - 1)%Z.
Proof.
  intros Hne Hb S Hin. unfold index_of, Analysis.hist_index.
  rewrite bins_minus_one by lia.
  destruct (scaled_width Hne (bins := bins)) as [w [-> Hw]]; [lia | exact S |].
  pose proof (@offset_nonneg ps p Hne Hin) as D.
  apply min2_clamp; [lia |]. apply floor_nonneg. now apply div_by_positive.
Qed.

(** With no bins every index is [Math.min(-1, Math.floor(x / Infinity))]:
    [-1], or [NaN] when [x] is [Infinity]. *)
Lemma index_no_bins (ps : list Q) (p : Q) :
  ps <> [] -> In p ps ->
  index_of (List.map Fin ps) 0 (Fin p) = of_Z (-1) \/
  index_of (List.map Fin ps) 0 (Fin p) = NaN.
Proof.
  intros Hne Hin. unfold index_of, Analysis.hist_index.
  rewrite (hist_binWidth_no_bins Hne).
  pose proof (@offset_nonneg ps p Hne Hin) as D.
  destruct (nonneg_cases _ D) as [-> | [a [-> Ha]]]; [now right | now left].
Qed.

Lemma index_no_bins_finite (ps : list Q) (p : Q) :
  ps <> [] -> In p ps -> finite (Analysis.hist_range (List.map Fin ps)) ->
  index_of (List.map Fin ps) 0 (Fin p) = of_Z (-1).
Proof.
  intros Hne Hin F. unfold index_of, Analysis.hist_index.
  rewrite (hist_binWidth_no_bins Hne).
  destruct (min_list_Fin Hne) as [m [Em Hm]].
  destruct (max_list_Fin Hne) as [M [EM HM]].
  destruct (qmin_least Hne) as [Hle _]. specialize (Hle p Hin).
  destruct (qmax_greatest Hne) as [Hge _]. specialize (Hge p Hin).
  unfold Analysis.hist_range in F. rewrite Em, EM in *.
  assert (L : Num.le (Fin p - Fin m)%num (Fin M - Fin m)%num = true)
    by (cbn [Num.sub]; apply round_mono; lra).
  assert (D : Num.le zero (Fin p - Fin m)%num = true) by (apply sub_nonneg; lra).
  destruct (nonneg_cases _ D) as [E | [a [-> Ha]]]; [| reflexivity].
  exfalso. rewrite E in L.
  destruct (Fin M - Fin m)%num as [q | | |]; try discriminate L.
  exact F.
Qed.

(** ** The histogram: counting *)

Lemma bump_length (i : nat) (cs : list nat) :
  List.length (bump i cs) = List.length cs.
Proof.
  revert i. induction cs as [| c t IH]; intros [| i]; cbn [bump List.length];
    try reflexivity. now rewrite IH.
Qed.

Lemma bump_sum (i : nat) (cs : list nat) :
  (i < List.length cs)%nat -> list_sum (bump i cs) = S (list_sum cs).
Proof.
  revert i. induction cs as [| c t IH]; intros i H; cbn [List.length] in H;
    [lia |].
  destruct i as [| i]; cbn [bump].
  - reflexivity.
  - change (c + list_sum (bump i t) = S (c + list_sum t))%nat.
    rewrite IH by lia. now rewrite Nat.add_succ_r.
Qed.

Lemma bump_nth (i j : nat) (cs : list nat) :
  (i < List.length cs)%nat ->
  nth j (bump i cs) O = (nth j cs O + (if Nat.eqb i j then 1 else 0))%nat.
Proof.
  revert i j. induction cs as [| c t IH]; intros i j H;
    cbn [List.length] in H; [lia |].
  destruct i as [| i], j as [| j]; cbn [bump nth Nat.eqb].
  - now rewrite Nat.add_1_r.
  - now rewrite Nat.add_0_r.
  - now rewrite Nat.add_0_r.
  - apply IH. lia.
Qed.

(** [counts[i]++] on an array of counts, for an index inside it *)
Lemma set_at_counts (i : nat) (cs : list nat) :
  (i < List.length cs)%nat ->
  let cells := List.map (fun c => Some (count_num c)) cs in
  Arr.set_at i
    (Arr.to_number (match nth_error cells i with
                    | Some (Some v) => Some v
                    | _ => None
                    end) + one)%num cells
  = List.map (fun c => Some (count_num c)) (bump i cs).
Proof.
  revert i. induction cs as [| c t IH]; intros i H; cbn [List.length] in H;
    [lia |].
  destruct i as [| i];
    cbn [List.map nth_error Arr.set_at bump Arr.to_number].
  - reflexivity.
  - f_equal. apply IH. lia.
Qed.

Lemma post_incr_cell (i : nat) (cs : list nat) (lost : bool) :
  (i < List.length cs)%nat -> (Z.of_nat i <= 2 ^ 32 - 2)%Z ->
  Arr.post_incr (counting_array cs lost) (of_nat i)
  = counting_array (bump i cs) lost.
Proof.
  intros H B. unfold Arr.post_incr, Arr.get, Arr.set.
  rewrite as_index_of_nat by exact B.
  unfold counting_array. cbn [Arr.elems Arr.props].
  f_equal. now apply set_at_counts.
Qed.

(** [counts[NaN]++]: the cells are kept, and a property named [NaN] holds
    [NaN] *)
Lemma post_incr_NaN (cs : list nat) (lost : bool) :
  Arr.post_incr (counting_array cs lost) NaN = counting_array cs true.
Proof. destruct lost; reflexivity. Qed.

Lemma tally_cons (ps : list Q) (bins : Z) (q : Q) (qs : list Q) (cs : list nat) :
  tally ps bins (q :: qs) cs
  = tally ps bins qs (match bucket ps bins q with
                      | Some i => bump i cs
                      | None => cs
                      end).
Proof. reflexivity. Qed.

Lemma tally_length (ps : list Q) (bins : Z) (qs : list Q) (cs : list nat) :
  List.length (tally ps bins qs cs) = List.length cs.
Proof.
  revert cs. induction qs as [| q t IH]; intros cs; [reflexivity |].
  rewrite tally_cons, IH. destruct (bucket ps bins q); [apply bump_length | reflexivity].
Qed.

Section Counting.
Variable ps : list Q.
Variable bins : Z.
Hypothesis Hne : ps <> [].
Hypothesis Hb : (1 <= bins <= 2 ^ 32 - 1)%Z.

(** a value of the list has no bucket, its index being [NaN], or its
    bucket is a cell of the array *)
Lemma bucket_cases (p : Q) :
  In p ps ->
  (bucket ps bins p = None /\ index_of (List.map Fin ps) bins (Fin p) = NaN) \/
  exists i, bucket ps bins p = Some i /\ (i < Z.to_nat bins)%nat /\
            index_of (List.map Fin ps) bins (Fin p) = of_nat i.
Proof.
  intros Hin. unfold bucket.
  destruct (@index_cases ps bins p Hne) as [E | [k [E Hk]]]; [lia | exact Hin | |].
  - left. now rewrite E.
  - right. exists (Z.to_nat k). rewrite E, as_index_of_Z by lia.
    split; [reflexivity |]. split; [lia |].
    unfold of_nat. f_equal. lia.
Qed.

Lemma bucket_scaled (p : Q) :
  scaled ps bins = true -> In p ps ->
  exists i, bucket ps bins p = Some i /\ (i < Z.to_nat bins)%nat /\
            index_of (List.map Fin ps) bins (Fin p) = of_nat i.
Proof.
  intros S Hin. unfold bucket.
  destruct (@index_scaled ps bins p Hne) as [k [E Hk]]; [lia | exact S | exact Hin |].
  exists (Z.to_nat k). rewrite E, as_index_of_Z by lia.
  split; [reflexivity |]. split; [lia |].
  unfold of_nat. f_equal. lia.
Qed.

Lemma tally_nth (qs : list Q) (cs : list nat) (j : nat) :
  incl qs ps -> List.length cs = Z.to_nat bins ->
  nth j (tally ps bins qs cs) O
  = (nth j cs O + List.length (filter (in_bucket ps bins j) qs))%nat.
Proof.
  revert cs. induction qs as [| q t IH]; intros cs Hi Hl.
  - cbn. lia.
  - rewrite tally_cons. cbn [filter].
    assert (Hq : In q ps) by (apply Hi; now left).
    assert (Ht : incl t ps) by (intros x Hx; apply Hi; now right).
    destruct (bucket_cases _ Hq) as [[Eb _] | [i [Eb [Hi' _]]]].
    + replace (in_bucket ps bins j q) with false
        by (unfold in_bucket; now rewrite Eb).
      rewrite Eb. now apply IH.
    + replace (in_bucket ps bins j q) with (Nat.eqb i j)
        by (unfold in_bucket; now rewrite Eb).
      rewrite Eb, IH by (try exact Ht; now rewrite bump_length).
      rewrite bump_nth by lia.
      destruct (Nat.eqb i j); cbn [List.length]; lia.
Qed.

Lemma tally_sum (qs : list Q) (cs : list nat) :
  scaled ps bins = true ->
  incl qs ps -> List.length cs = Z.to_nat bins ->
  list_sum (tally ps bins qs cs) = (list_sum cs + List.length qs)%nat.
Proof.
  intros S. revert cs. induction qs as [| q t IH]; intros cs Hi Hl.
  - unfold tally. cbn [fold_left List.length]. lia.
  - rewrite tally_cons.
    assert (Hq : In q ps) by (apply Hi; now left).
    assert (Ht : incl t ps) by (intros x Hx; apply Hi; now right).
    destruct (bucket_scaled _ S Hq) as [i [-> [Hi' _]]].
    rewrite IH by (try exact Ht; now rewrite bump_length).
    rewrite bump_sum by lia. cbn [List.length]. lia.
Qed.

Lemma some_lost_scaled (qs : list Q) :
  scaled ps bins = true -> incl qs ps -> some_lost ps bins qs = false.
Proof.
  intros S. induction qs as [| q t IH]; intros Hi; [reflexivity |].
  unfold some_lost in *. cbn [existsb].
  assert (Hq : In q ps) by (apply Hi; now left).
  destruct (bucket_scaled _ S Hq) as [i [-> _]]. cbn [orb].
  apply IH. intros x Hx. apply Hi. now right.
Qed.

(** The loop of lines 48-51 puts each value in its bucket, or at the
    index [NaN]. *)
Lemma forEach_counts (qs : list Q) (cs : list nat) (lost : bool) :
  incl qs ps -> List.length cs = Z.to_nat bins ->
  fold_left
    (fun c p =>
       Arr.post_incr c
         (Analysis.hist_index (min_list (List.map Fin ps))
            (Analysis.hist_binWidth (List.map Fin ps) bins) bins p))
    (List.map Fin qs) (counting_array cs lost)
  = counting_array (tally ps bins qs cs) (lost || some_lost ps bins qs).
Proof.
  revert cs lost. induction qs as [| q t IH]; intros cs lost Hi Hl.
  - cbn [List.map fold_left tally some_lost existsb]. now rewrite orb_false_r.
  - cbn [List.map fold_left]. rewrite tally_cons.
    unfold some_lost. cbn [existsb]. fold (some_lost ps bins t).
    assert (Hq : In q ps) by (apply Hi; now left).
    assert (Ht : incl t ps) by (intros x Hx; apply Hi; now right).
    fold (index_of (List.map Fin ps) bins (Fin q)).
    destruct (bucket_cases _ Hq) as [[-> E] | [i [-> [Hi' E]]]]; rewrite E.
    + rewrite post_incr_NaN, IH by assumption.
      cbn [orb]. now rewrite orb_true_r.
    + rewrite post_incr_cell by lia.
      rewrite IH by (try exact Ht; now rewrite bump_length).
      reflexivity.
Qed.

Lemma tally_all :
  tally ps bins ps (repeat O (Z.to_nat bins))
  = List.map (bucket_size ps bins) (seq 0 (Z.to_nat bins)).
Proof.
  apply nth_ext with (d := O) (d' := bucket_size ps bins O).
  - now rewrite tally_length, repeat_length, length_map, length_seq.
  - intros j Hj. rewrite tally_length, repeat_length in Hj.
    rewrite tally_nth by (try apply incl_refl; apply repeat_length).
    rewrite nth_repeat.
    rewrite (nth_indep _ _ (bucket_size ps bins (nth j (seq 0 (Z.to_nat bins)) O)))
      by (now rewrite length_map, length_seq).
    rewrite map_nth with (f := bucket_size ps bins).
    rewrite seq_nth by exact Hj. reflexivity.
Qed.

End Counting.

Lemma bucket_size_le (ps : list Q) (bins : Z) (i : nat) :
  (bucket_size ps bins i <= List.length ps)%nat.
Proof. unfold bucket_size. apply filter_length_le. Qed.

(** ** The histogram: labels and result *)

Lemma mapi_from_filled (A B : Type) (f : A -> nat -> B) (v : A)
  (l : list (option A)) (k : nat) :
  Arr.mapi_from f k (List.map (fun _ => Some v) l)
  = List.map (fun i => Some (f v i)) (seq k (List.length l)).
Proof.
  revert k. induction l as [| x t IH]; intros k;
    cbn [List.map Arr.mapi_from List.length seq]; [reflexivity |].
  now rewrite IH.
Qed.

Lemma new_array_ok (A : Type) (n : Z) :
  (0 <= n <= 2 ^ 32 - 1)%Z ->
  new_array A n = Normal (Arr.mk (repeat None (Z.to_nat n)) []).
Proof.
  intros H. unfold new_array.
  replace (n <? 0)%Z with false by (symmetry; apply Z.ltb_ge; lia).
  replace (2 ^ 32 - 1 <? n)%Z with false by (symmetry; apply Z.ltb_ge; lia).
  reflexivity.
Qed.

Lemma new_array_throws (A : Type) (n : Z) :
  (n < 0 \/ 2 ^ 32 - 1 < n)%Z -> new_array A n = Throw RangeError.
Proof.
  intros H. unfold new_array.
  destruct H as [H | H].
  - replace (n <? 0)%Z with true by (symmetry; now apply Z.ltb_lt). reflexivity.
  - replace (2 ^ 32 - 1 <? n)%Z with true by (symmetry; now apply Z.ltb_lt).
    now rewrite orb_true_r.
Qed.

Section Labels.
Context {engine : Engine}.

Lemma hist_label_dashed (ps : list Q) (bins : Z) (i : nat) :
  ps <> [] ->
  Analysis.hist_label (min_list (List.map Fin ps))
    (Analysis.hist_binWidth (List.map Fin ps) bins) i
  = dashed_label ps bins i.
Proof.
  intros Hne. unfold Analysis.hist_label, dashed_label.
  destruct (min_list_Fin Hne) as [m [-> Hm]].
  now rewrite (add_comp_l _ Hm).
Qed.

(** What [makeHistogram] evaluates to on a non-empty list that is not too
    long for a call. *)
Lemma makeHistogram_unfold (ps : list Q) (bins : Z) :
  ps <> [] -> (Z.of_nat (List.length ps) <= max_arguments)%Z ->
  Analysis.makeHistogram (List.map Fin ps) bins
  = (c0 <- new_array num bins ;;
     l0 <- new_array num bins ;;
     Normal (Analysis.mkHistogram
               (Arr.map (fun _ i =>
                           Analysis.hist_label (min_list (List.map Fin ps))
                             (Analysis.hist_binWidth (List.map Fin ps) bins) i)
                        (Arr.fill zero l0))
               (fold_left
                  (fun c p =>
                     Arr.post_incr c
                       (Analysis.hist_index (min_list (List.map Fin ps))
                          (Analysis.hist_binWidth (List.map Fin ps) bins) bins p))
                  (List.map Fin ps) (Arr.fill zero c0)))).
Proof.
  intros Hne Hl. unfold Analysis.makeHistogram.
  rewrite length_map.
  destruct ps as [| p0 t] eqn:Eps; [congruence |]. rewrite <- Eps in *.
  replace (Nat.eqb (List.length ps) 0) with false by (now rewrite Eps).
  rewrite !spread_ok by (now rewrite length_map).
  reflexivity.
Qed.

(** For a non-empty list of values and at least one bin, [makeHistogram]
    returns the labels of the buckets and, for each bucket, the count
    that as many increments as it has values leave; the values whose
    index is [NaN] leave a property named [NaN]. *)
Lemma makeHistogram_value (ps : list Q) (bins : Z) :
  ps <> [] -> (Z.of_nat (List.length ps) <= max_arguments)%Z ->
  (1 <= bins <= 2 ^ 32 - 1)%Z ->
  Analysis.makeHistogram (List.map Fin ps) bins
  = Normal (Analysis.mkHistogram
              (Arr.mk (List.map (fun i => Some (dashed_label ps bins i))
                         (seq 0 (Z.to_nat bins))) [])
              (counting_array (List.map (bucket_size ps bins)
                                 (seq 0 (Z.to_nat bins)))
                              (some_lost ps bins ps))).
Proof.
  intros Hne Hl Hb. rewrite (makeHistogram_unfold bins Hne Hl).
  rewrite !new_array_ok by lia. cbn [bind]. do 2 f_equal.
  - unfold Arr.map, Arr.fill. cbn [Arr.elems Arr.props].
    rewrite mapi_from_filled, repeat_length. f_equal.
    apply map_ext. intros i. f_equal.
    apply (hist_label_dashed bins i Hne).
  - unfold Arr.fill. cbn [Arr.elems Arr.props].
    rewrite map_repeat.
    replace (Arr.mk (repeat (Some zero) (Z.to_nat bins)) [])
      with (counting_array (repeat O (Z.to_nat bins)) false)
      by (unfold counting_array; now rewrite map_repeat).
    rewrite (@forEach_counts ps bins Hne Hb ps) by
      (try apply incl_refl; apply repeat_length).
    now rewrite (tally_all Hne Hb).
Qed.

Lemma counting_array_counts (cs : list nat) :
  Forall (fun c => (Z.of_nat c <= 2 ^ 53)%Z) cs ->
  counting_array cs false = counts_array cs.
Proof.
  intros H. unfold counting_array, counts_array. cbn [nan_props]. f_equal.
  induction H as [| c t Hc _ IH]; cbn [List.map]; [reflexivity |].
  now rewrite IH, count_num_of_nat.
Qed.

(** When, besides, the bin width is a number other than zero, the counts
    are the numbers of values of the buckets, and nothing else. *)
Lemma makeHistogram_scaled (ps : list Q) (bins : Z) :
  ps <> [] -> (Z.of_nat (List.length ps) <= max_arguments)%Z ->
  (1 <= bins <= 2 ^ 32 - 1)%Z -> scaled ps bins = true ->
  Analysis.makeHistogram (List.map Fin ps) bins
  = Normal (Analysis.mkHistogram
              (Arr.mk (List.map (fun i => Some (dashed_label ps bins i))
                         (seq 0 (Z.to_nat bins))) [])
              (counts_array (List.map (bucket_size ps bins)
                               (seq 0 (Z.to_nat bins))))).
Proof.
  intros Hne Hl Hb S. rewrite (makeHistogram_value Hne Hl Hb).
  rewrite (some_lost_scaled Hne Hb S (incl_refl ps)).
  rewrite counting_array_counts; [reflexivity |].
  apply Forall_forall. intros c Hc. apply in_map_iff in Hc.
  destruct Hc as [i [<- _]].
  pose proof (bucket_size_le ps bins i). pose proof max_arguments_small. lia.
Qed.

End Labels.

(** ** The histogram: the stated properties *)

Lemma list_sum_repeat_0 (n : nat) : list_sum (repeat O n) = O.
Proof. induction n as [| n IH]; [reflexivity | exact IH]. Qed.

Lemma values_counts_array (cs : list nat) :
  Arr.values (counts_array cs) = List.map of_nat cs.
Proof.
  unfold Arr.values, counts_array. cbn [Arr.elems].
  induction cs as [| c t IH]; cbn [List.map flat_map app]; [reflexivity |].
  now rewrite IH.
Qed.

Lemma add_of_nat (a b : nat) :
  (Z.of_nat (a + b) <= 2 ^ 53)%Z -> (of_nat a + of_nat b)%num = of_nat (a + b).
Proof. intros H. unfold of_nat. rewrite add_of_Z by lia. f_equal. lia. Qed.

Lemma fold_add_of_nat (cs : list nat) (a : nat) :
  (Z.of_nat (a + list_sum cs) <= 2 ^ 53)%Z ->
  fold_left Num.add (List.map of_nat cs) (of_nat a) = of_nat (a + list_sum cs).
Proof.
  revert a. induction cs as [| c t IH]; intros a H; cbn [List.map fold_left].
  - cbn. now rewrite Nat.add_0_r.
  - change (list_sum (c :: t)) with (c + list_sum t)%nat in *.
    rewrite add_of_nat by lia. rewrite IH by lia. f_equal. lia.
Qed.

Lemma sum_values_counts (cs : list nat) :
  (Z.of_nat (list_sum cs) <= 2 ^ 53)%Z ->
  sum_values (counts_array cs) = of_nat (list_sum cs).
Proof.
  intros H. unfold sum_values. rewrite values_counts_array.
  apply (fold_add_of_nat cs 0). exact H.
Qed.

Lemma bucket_sizes_total (ps : list Q) (bins : Z) :
  ps <> [] -> (1 <= bins <= 2 ^ 32 - 1)%Z -> scaled ps bins = true ->
  list_sum (List.map (bucket_size ps bins) (seq 0 (Z.to_nat bins)))
  = List.length ps.
Proof.
  intros Hne Hb S. rewrite <- (tally_all Hne Hb).
  rewrite (@tally_sum ps bins Hne Hb ps) by
    (try exact S; try apply incl_refl; apply repeat_length).
  now rewrite list_sum_repeat_0.
Qed.

(** The counts do not always add up to the number of profits.  For the
    profits [2^1023] and [-2^1023] and 2 bins, [max - min] overflows to
    [Infinity], the index of the greatest value is
    [Math.floor(Infinity / Infinity) = NaN], its increment goes to a
    property named [NaN], and the counts are [1, 0], whose sum is 1, not
    2.  And [2^32] bins are refused with a [RangeError]. *)
Lemma counts_lost_on_overflow :
  let ps := [inject_Z (2 ^ 1023); inject_Z (- 2 ^ 1023)] in
  Analysis.hist_range (List.map Fin ps) = PInf /\
  index_of (List.map Fin ps) 2 (Fin (inject_Z (2 ^ 1023))) = NaN /\
  (exists h,
     Analysis.makeHistogram (engine := Sample.engine) (List.map Fin ps) 2
     = Normal h /\
     Analysis.counts h = Arr.mk [Some (of_Z 1); Some (of_Z 0)] [(NaN, NaN)] /\
     sum_values (Analysis.counts h) = of_Z 1 /\
     of_Z 1 <> of_nat (List.length ps)) /\
  Analysis.makeHistogram (engine := Sample.engine) (List.map Fin ps) (2 ^ 32)
  = Throw RangeError.
Proof.
  split; [vm_compute; reflexivity |].
  split; [vm_compute; reflexivity |].
  split; [| vm_compute; reflexivity].
  eexists. split; [vm_compute; reflexivity |].
  split; [vm_compute; reflexivity |].
  split; [vm_compute; reflexivity |].
  vm_compute. discriminate.
Qed.

(** C2, as the code has it.  For a non-empty list of profits that a call
    can take as its arguments, a number of bins from 1 to [2^32 - 1], and
    a bin width that is a number other than zero ([max - min] has not
    overflowed, [range / bins] has not underflowed to zero), the counts
    returned by [makeHistogram] add up to the number of profits: the
    array has one count per bin, no hole and no other property, the count
    of a bin is the number of values whose index it is, and the counts
    sum to the length of the list. *)
Theorem histogram_counts_sum {engine : Engine} (ps : list Q) (bins : Z) :
  ps <> [] -> (Z.of_nat (List.length ps) <= max_arguments)%Z ->
  (1 <= bins <= 2 ^ 32 - 1)%Z -> scaled ps bins = true ->
  exists h cs,
    Analysis.makeHistogram (List.map Fin ps) bins = Normal h /\
    Analysis.counts h = counts_array cs /\
    cs = List.map (bucket_size ps bins) (seq 0 (Z.to_nat bins)) /\
    list_sum cs = List.length ps /\
    sum_values (Analysis.counts h) = of_nat (List.length ps).
Proof.
  intros Hne Hl Hb S. eexists. eexists.
  split; [apply (makeHistogram_scaled Hne Hl Hb S) |].
  cbn [Analysis.counts].
  pose proof (bucket_sizes_total Hne Hb S) as S0.
  split; [reflexivity |]. split; [reflexivity |]. split; [exact S0 |].
  rewrite sum_values_counts; rewrite S0; [reflexivity |].
  pose proof max_arguments_small. lia.
Qed.

Lemma histogram_counts_sum_witness :
  exists h cs,
    Analysis.makeHistogram (engine := Sample.engine)
      (List.map Fin Sample.profits) 3 = Normal h /\
    Analysis.counts h = counts_array cs /\
    cs = List.map (bucket_size Sample.profits 3) (seq 0 (Z.to_nat 3)) /\
    list_sum cs = List.length Sample.profits /\
    sum_values (Analysis.counts h) = of_nat (List.length Sample.profits).
Proof.
  apply (@histogram_counts_sum Sample.engine Sample.profits 3).
  - discriminate.
  - vm_compute. discriminate.
  - split; vm_compute; discriminate.
  - vm_compute. reflexivity.
Defined.

Lemma hist_range_q (ps : list Q) :
  ps <> [] ->
  Analysis.hist_range (List.map Fin ps)
  = or_else (Fin (qmax ps) - Fin (qmin ps))%num one.
Proof.
  intros Hne. unfold Analysis.hist_range.
  destruct (min_list_Fin Hne) as [m [-> Hm]].
  destruct (max_list_Fin Hne) as [M [-> HM]].
  now rewrite (sub_comp HM Hm).
Qed.

(** The label of a bucket is not the bracketed interval: for the profits
    [0, 1] and one bin the code gives ["0.00–1.00"], the two bounds joined
    by an en dash, and not ["[0.00, 1.00)"]. *)
Lemma label_is_not_bracketed :
  match Analysis.makeHistogram (engine := Sample.engine) [Fin 0; Fin 1] 1 with
  | Normal h => Arr.elems (Analysis.labels h)
  | Throw _ => []
  end = [Some ("0.00" ++ en_dash ++ "1.00")]
  /\ bracketed_label (engine := Sample.engine) [0; 1]%Q 1 0 = "[0.00, 1.00)"
  /\ "0.00" ++ en_dash ++ "1.00"
     <> bracketed_label (engine := Sample.engine) [0; 1]%Q 1 0.
Proof.
  split; [vm_compute; reflexivity |].
  split; [vm_compute; reflexivity |].
  vm_compute. discriminate.
Qed.

(** The bounds of the labels are computed in binary64: for the profits
    [-7, 7] and 10 bins the upper bound of bucket 4 is
    [(-7 + 4 * 1.4) + 1.4], a little below zero, and the labels of
    buckets 4 and 5 are ["-1.40–-0.00"] and ["0.00–1.40"]. *)
Example labels_of_rounded_bounds :
  match Analysis.makeHistogram (engine := Sample.engine) [Fin (-7); Fin 7] 10 with
  | Normal h => firstn 2 (skipn 4 (Arr.elems (Analysis.labels h)))
  | Throw _ => []
  end = [Some ("-1.40" ++ en_dash ++ "-0.00"); Some ("0.00" ++ en_dash ++ "1.40")].
Proof. vm_compute. reflexivity. Qed.

(** C5, as the code has it.  For a non-empty list of profits that a call
    can take as its arguments and a number of bins from 1 to [2^32 - 1],
    there is one label per bin, and the label of bucket [i] is the lower
    bound [min + i * binWidth] and the upper bound [lower + binWidth],
    computed in binary64 with [binWidth = (max - min || 1) / bins], each
    printed by [toFixed(2)], joined by an en dash. *)
Theorem histogram_labels {engine : Engine} (ps : list Q) (bins : Z) (i : nat) :
  ps <> [] -> (Z.of_nat (List.length ps) <= max_arguments)%Z ->
  (1 <= bins <= 2 ^ 32 - 1)%Z -> (i < Z.to_nat bins)%nat ->
  exists h,
    Analysis.makeHistogram (List.map Fin ps) bins = Normal h /\
    Arr.length (Analysis.labels h) = Z.to_nat bins /\
    Arr.props (Analysis.labels h) = [] /\
    let min := Fin (qmin ps) in
    let max := Fin (qmax ps) in
    let binWidth := (or_else (max - min) one / of_Z bins)%num in
    let lower := (min + of_nat i * binWidth)%num in
    let upper := (lower + binWidth)%num in
    Arr.get (Analysis.labels h) (of_nat i)
    = Some (toFixed lower 2 ++ en_dash ++ toFixed upper 2).
Proof.
  intros Hne Hl Hb Hi. eexists.
  split; [apply (makeHistogram_value Hne Hl Hb) |].
  cbn [Analysis.labels]. unfold Arr.length, Arr.get. cbn [Arr.elems Arr.props].
  split; [now rewrite length_map, length_seq |].
  split; [reflexivity |].
  rewrite as_index_of_nat by lia.
  rewrite nth_error_map, nth_error_seq.
  replace (Nat.ltb i (Z.to_nat bins)) with true
    by (symmetry; now apply Nat.ltb_lt).
  cbn [option_map Nat.add]. unfold dashed_label, Analysis.hist_binWidth.
  now rewrite (hist_range_q Hne).
Qed.

Lemma histogram_labels_witness :
  exists h,
    Analysis.makeHistogram (engine := Sample.engine)
      (List.map Fin Sample.profits) 3 = Normal h /\
    Arr.length (Analysis.labels h) = Z.to_nat 3 /\
    Arr.props (Analysis.labels h) = [] /\
    let min := Fin (qmin Sample.profits) in
    let max := Fin (qmax Sample.profits) in
    let binWidth := (or_else (max - min) one / of_Z 3)%num in
    let lower := (min + of_nat 1 * binWidth)%num in
    let upper := (lower + binWidth)%num in
    Arr.get (Analysis.labels h) (of_nat 1)
    = Some (toFixed (engine := Sample.engine) lower 2 ++ en_dash
            ++ toFixed (engine := Sample.engine) upper 2).
Proof.
  apply (@histogram_labels Sample.engine Sample.profits 3 1).
  - discriminate.
  - vm_compute. discriminate.
  - split; vm_compute; discriminate.
  - vm_compute. apply le_S, le_n.
Defined.

(** C6. On the profits [5, 5, 5] with 4 bins nothing is divided by zero:
    [max - min] is zero and the range is taken as 1, the two divisors are
    [bins = 4] and [binWidth = 1/4], every value gets index 0, and the
    counts are [3, 0, 0, 0]. *)
Theorem histogram_all_equal {engine : Engine} :
  let profits := [Fin 5; Fin 5; Fin 5] in
  (max_list profits - min_list profits)%num = zero /\
  Analysis.hist_range profits = one /\
  Num.eqb (of_Z 4) zero = false /\
  Analysis.hist_binWidth profits 4 = Fin (1 # 4) /\
  Num.eqb (Analysis.hist_binWidth profits 4) zero = false /\
  List.map (index_of profits 4) profits = [zero; zero; zero] /\
  exists h,
    Analysis.makeHistogram profits 4 = Normal h /\
    Analysis.counts h
    = Arr.mk [Some (of_Z 3); Some (of_Z 0); Some (of_Z 0); Some (of_Z 0)] [].
Proof.
  intros profits.
  repeat (split; [vm_compute; reflexivity |]).
  eexists. split.
  - apply (@makeHistogram_scaled engine [5; 5; 5]%Q 4).
    + discriminate.
    + pose proof max_arguments_bounds. cbn [List.length Z.of_nat]. lia.
    + lia.
    + vm_compute. reflexivity.
  - vm_compute. reflexivity.
Qed.

(** When all the values are equal the greatest value is not put in the
    last bucket: for [5, 5, 5] and 4 bins its index is 0, not 3. *)
Lemma max_not_in_last_bucket :
  index_of [Fin 5; Fin 5; Fin 5] 4 (max_list [Fin 5; Fin 5; Fin 5]) = of_Z 0
  /\ ~ max_in_last_bucket [Fin 5; Fin 5; Fin 5] 4.
Proof.
  split; [vm_compute; reflexivity |].
  unfold max_in_last_bucket. vm_compute. discriminate.
Qed.

(** ** The histogram: the index of a value *)

Lemma double_comp (a b : Q) : a == b -> double a -> double b.
Proof.
  unfold double. intros E D. rewrite <- (round_comp E), D.
  f_equal. now apply Qred_complete.
Qed.

Lemma doubles_extrema (ps : list Q) :
  ps <> [] -> Forall double ps -> double (qmin ps) /\ double (qmax ps).
Proof.
  intros Hne D. rewrite Forall_forall in D.
  destruct (qmin_least Hne) as [_ [a [Ia Ea]]].
  destruct (qmax_greatest Hne) as [_ [b [Ib Eb]]].
  split.
  - apply double_comp with a; [now symmetry | now apply D].
  - apply double_comp with b; [now symmetry | now apply D].
Qed.

Lemma index_formula (ps : list Q) (bins : Z) (p : Q) :
  ps <> [] -> (1 <= bins <= 2 ^ 53)%Z ->
  index_of (List.map Fin ps) bins (Fin p)
  = min2 (of_Z (bins - 1))
         (floor ((Fin p - Fin (qmin ps))
                 / (or_else (Fin (qmax ps) - Fin (qmin ps)) one / of_Z bins))%num).
Proof.
  intros Hne Hb. unfold index_of, Analysis.hist_index, Analysis.hist_binWidth.
  rewrite bins_minus_one by lia. rewrite (hist_range_q Hne).
  destruct (min_list_Fin Hne) as [m [-> Hm]].
  now rewrite (sub_comp (Qeq_refl p) Hm).
Qed.

Lemma index_all_equal (ps : list Q) (bins : Z) (p : Q) :
  ps <> [] -> (1 <= bins <= 2 ^ 53)%Z -> scaled ps bins = true ->
  qmin ps == qmax ps -> In p ps ->
  index_of (List.map Fin ps) bins (Fin p) = of_Z 0.
Proof.
  intros Hne Hb S Heq Hin. unfold index_of, Analysis.hist_index.
  rewrite bins_minus_one by lia.
  destruct (scaled_width Hne (bins := bins)) as [w [-> Hw]]; [lia | exact S |].
  destruct (min_list_Fin Hne) as [m [-> Hm]].
  destruct (qmin_least Hne) as [Hle _]. specialize (Hle p Hin).
  destruct (qmax_greatest Hne) as [Hge _]. specialize (Hge p Hin).
  assert (E0 : p - m == 0) by lra.
  cbn [Num.sub]. rewrite (round_comp E0), round_zero.
  unfold zero. cbn [Num.div].
  assert (Zw : is_zero w = false) by (apply is_zero_false; lra).
  rewrite Zw.
  assert (E1 : 0 / w == 0) by (field; lra).
  rewrite (round_comp E1), round_zero. unfold zero. cbn [floor].
  change (Qfloor 0) with 0%Z. rewrite min2_of_Z. f_equal. lia.
Qed.

Lemma pow2_minus_52 : pow2 (-52) == 1 # 4503599627370496.
Proof. reflexivity. Qed.

(** The greatest of several binary64 values goes to the last bucket when
    the bin width is a normal number. *)
Lemma max_lands_last (ps : list Q) (bins : Z) :
  ps <> [] -> (1 <= bins <= 2 ^ 32 - 1)%Z -> Forall double ps ->
  qmin ps < qmax ps -> normal_width ps bins = true ->
  max_in_last_bucket (List.map Fin ps) bins.
Proof.
  intros Hne Hb D Hlt N.
  unfold max_in_last_bucket, index_of, Analysis.hist_index.
  rewrite bins_minus_one by lia.
  unfold normal_width, Analysis.hist_binWidth, Analysis.hist_range in *.
  destruct (min_list_Fin Hne) as [m [Em Hm]].
  destruct (max_list_Fin Hne) as [M [EM HM]].
  rewrite Em, EM in *.
  destruct (doubles_extrema Hne D) as [Dm DM].
  assert (Dm' : double m) by (apply double_comp with (qmin ps); [now symmetry | exact Dm]).
  assert (DM' : double M) by (apply double_comp with (qmax ps); [now symmetry | exact DM]).
  assert (L : m < M) by lra.
  destruct (sub_doubles_positive Dm' DM' L) as [d [E | [E Hd]]]; rewrite E in *.
  - exfalso. unfold or_else, truthy, of_Z in N. cbn [Num.div] in N.
    destruct (is_neg (inject_Z bins)); discriminate N.
  - assert (T : or_else (Fin d) one = Fin d).
    { unfold or_else, truthy.
      assert (Zd : is_zero d = false) by (apply is_zero_false; lra).
      now rewrite Zd. }
    rewrite T in *. unfold of_Z in N |- * at 2. cbn [Num.div] in N |- *.
    assert (Bpos : 0 < inject_Z bins)
      by (change 0 with (inject_Z 0); rewrite <- Zlt_Qlt; lia).
    assert (Zb : is_zero (inject_Z bins) = false) by (apply is_zero_false; lra).
    rewrite Zb in *.
    assert (Xpos : 0 < d / inject_Z bins) by (apply Qlt_shift_div_l; lra).
    destruct (Num.round (d / inject_Z bins)) as [w | | |] eqn:R; try discriminate N.
    apply Qle_bool_iff in N.
    pose proof (round_upper Xpos R N) as U.
    pose proof (pow2_pos (-1022)) as P.
    assert (Wpos : 0 < w) by lra.
    assert (Zw : is_zero w = false) by (apply is_zero_false; lra).
    cbn [Num.div]. rewrite Zw.
    assert (G : inject_Z (bins - 1) <= d / w).
    { apply Qle_shift_div_l; [exact Wpos |].
      set (x := d / inject_Z bins) in *. set (B := inject_Z bins) in *.
      assert (Ed : d == x * B) by (unfold x; field; lra).
      assert (B1 : inject_Z (bins - 1) == B - 1).
      { unfold B, Z.sub. rewrite inject_Z_plus, inject_Z_opp. reflexivity. }
      rewrite B1, Ed. rewrite pow2_minus_52 in U.
      assert (Bu : B <= inject_Z (2 ^ 32)) by (unfold B; rewrite <- Zle_Qle; lia).
      assert (Bl : 1 <= B)
        by (unfold B; change 1 with (inject_Z 1); rewrite <- Zle_Qle; lia).
      assert (F1 : 0 <= (B - 1) * (x * (1 + (1 # 4503599627370496)) - w))
        by (apply Qmult_le_0_compat; lra).
      assert (F2 : 0 <= x * (1 - (B - 1) * (1 # 4503599627370496))).
      { apply Qmult_le_0_compat; [lra |].
        change (inject_Z (2 ^ 32)) with (4294967296 # 1) in Bu. lra. }
      lra. }
    pose proof (round_mono G) as Mo.
    rewrite round_of_Z in Mo by lia.
    destruct (Num.round (d / w)) as [q | | |] eqn:Rq; try discriminate Mo.
    + apply le_Fin in Mo. cbn [floor]. rewrite min2_of_Z. f_equal.
      apply Z.min_l. rewrite <- (Qfloor_Z (bins - 1)). now apply Qfloor_resp_le.
    + reflexivity.
Qed.

(** C7, as the code has it.  For a non-empty list of profits, a number of
    bins from 1 to [2^32 - 1] and a bin width that is a number other than
    zero, the index of each value [p] of the list is
    [min(bins - 1, floor((p - min) / binWidth))] computed in binary64; it
    is a whole number between 0 and [bins - 1], so that the increment is
    at an index inside the array of counts; the greatest value gets the
    last index [bins - 1] when the values are binary64 numbers that are
    not all equal and the bin width is a normal number; and when the
    values are all equal every value gets index 0. *)
Theorem histogram_index_bounds (ps : list Q) (bins : Z) :
  ps <> [] -> (1 <= bins <= 2 ^ 32 - 1)%Z -> scaled ps bins = true ->
  (forall p, In p ps ->
     index_of (List.map Fin ps) bins (Fin p)
     = min2 (of_Z (bins - 1))
         (floor ((Fin p - Fin (qmin ps))
                 / (or_else (Fin (qmax ps) - Fin (qmin ps)) one / of_Z bins))%num) /\
     exists k,
       index_of (List.map Fin ps) bins (Fin p) = of_Z k /\
       (0 <= k <= bins - 1)%Z /\
       Arr.as_index (index_of (List.map Fin ps) bins (Fin p)) = Some (Z.to_nat k) /\
       (Z.to_nat k < Z.to_nat bins)%nat) /\
  (Forall double ps -> qmin ps < qmax ps -> normal_width ps bins = true ->
   max_in_last_bucket (List.map Fin ps) bins) /\
  (qmin ps == qmax ps ->
   forall p, In p ps -> index_of (List.map Fin ps) bins (Fin p) = of_Z 0).
Proof.
  intros Hne Hb S. split; [| split].
  - intros p Hin. split; [apply index_formula; [exact Hne | lia] |].
    destruct (@index_scaled ps bins p Hne) as [k [E Hk]]; [lia | exact S | exact Hin |].
    exists k. split; [exact E |]. split; [exact Hk |].
    rewrite E, as_index_of_Z by lia. split; [reflexivity | lia].
  - intros D Hlt N. now apply max_lands_last.
  - intros Heq p Hin. apply index_all_equal; try assumption. lia.
Qed.

Lemma histogram_index_bounds_witness :
  (forall p, In p Sample.profits ->
     index_of (List.map Fin Sample.profits) 3 (Fin p)
     = min2 (of_Z (3 - 1))
         (floor ((Fin p - Fin (qmin Sample.profits))
                 / (or_else (Fin (qmax Sample.profits) - Fin (qmin Sample.profits)) one
                    / of_Z 3))%num) /\
     exists k,
       index_of (List.map Fin Sample.profits) 3 (Fin p) = of_Z k /\
       (0 <= k <= 3 - 1)%Z /\
       Arr.as_index (index_of (List.map Fin Sample.profits) 3 (Fin p))
       = Some (Z.to_nat k) /\
       (Z.to_nat k < Z.to_nat 3)%nat) /\
  max_in_last_bucket (List.map Fin Sample.profits) 3.
Proof.
  destruct (@histogram_index_bounds Sample.profits 3) as [A [B _]].
  - discriminate.
  - split; vm_compute; discriminate.
  - vm_compute. reflexivity.
  - split; [exact A |]. apply B.
    + repeat constructor; vm_compute; reflexivity.
    + vm_compute. reflexivity.
    + vm_compute. reflexivity.
Defined.

(** In the subnormal range the greatest value can miss the last bucket:
    for the profits [0] and [11 * 2^-1074] and 20 bins the bin width
    [11 * 2^-1074 / 20] is rounded to [2^-1074], and the index of the
    greatest value is 11, not 19. *)
Example max_below_last_bucket :
  let ps := [0; 11 * pow2 (-1074)] in
  Forall double ps /\ scaled ps 20 = true /\ normal_width ps 20 = false /\
  index_of (List.map Fin ps) 20 (max_list (List.map Fin ps)) = of_Z 11.
Proof.
  split; [repeat constructor; vm_compute; reflexivity |].
  repeat split; vm_compute; reflexivity.
Qed.

(** The index is computed in binary64: for the profits [0, 33, 44] and 20
    bins the bin width is 2.2, [33 / 2.2] is 14.999999999999998, and the
    index of 33 is 14. *)
Example index_of_rounded_quotient :
  List.map (index_of [Fin 0; Fin 33; Fin 44] 20) [Fin 0; Fin 33; Fin 44]
  = [of_Z 0; of_Z 14; of_Z 19]
  /\ (Fin 33 / Analysis.hist_binWidth [Fin 0; Fin 33; Fin 44] 20)%num
     = Fin (nearest (14999999999999998 # 1000000000000000)).
Proof. split; vm_compute; reflexivity. Qed.

(** ** The histogram with no bins *)

Lemma post_incr_minus_one (m n f : bool) :
  Arr.post_incr (Arr.mk [] (stray m n f)) (of_Z (-1))
  = Arr.mk [] (stray true n (if m then f else n)).
Proof. destruct m, n, f; reflexivity. Qed.

Lemma post_incr_stray_NaN (m n f : bool) :
  Arr.post_incr (Arr.mk [] (stray m n f)) NaN
  = Arr.mk [] (stray m true (if n then f else negb m)).
Proof. destruct m, n, f; reflexivity. Qed.

Lemma stray_perm (m n f f' : bool) : Permutation (stray m n f) (stray m n f').
Proof.
  destruct m, n, f, f'; cbn [stray]; try apply Permutation_refl; apply perm_swap.
Qed.

(** With no bins the loop of lines 48-51 writes no element: each
    increment goes to the property [-1] or to the property [NaN]. *)
Lemma forEach_no_bins (ps qs : list Q) (m n f : bool) :
  ps <> [] -> incl qs ps ->
  exists f',
    fold_left
      (fun c p =>
         Arr.post_incr c
           (Analysis.hist_index (min_list (List.map Fin ps))
              (Analysis.hist_binWidth (List.map Fin ps) 0) 0 p))
      (List.map Fin qs) (Arr.mk [] (stray m n f))
    = Arr.mk [] (stray (m || some_at ps 0 (of_Z (-1)) qs)
                       (n || some_at ps 0 NaN qs) f').
Proof.
  intros Hne. revert m n f. induction qs as [| q t IH]; intros m n f Hi.
  - exists f. cbn [List.map fold_left some_at existsb]. now rewrite !orb_false_r.
  - cbn [List.map fold_left]. unfold some_at. cbn [existsb].
    fold (some_at ps 0 (of_Z (-1)) t). fold (some_at ps 0 NaN t).
    assert (Hq : In q ps) by (apply Hi; now left).
    assert (Ht : incl t ps) by (intros x Hx; apply Hi; now right).
    fold (index_of (List.map Fin ps) 0 (Fin q)).
    destruct (@index_no_bins ps q Hne Hq) as [E | E]; rewrite E.
    + rewrite post_incr_minus_one.
      destruct (IH true n (if m then f else n) Ht) as [f' Hf]. exists f'.
      rewrite Hf. change (Num.eqb (of_Z (-1)) (of_Z (-1))) with true.
      change (Num.eqb (of_Z (-1)) NaN) with false.
      cbn [orb]. now rewrite orb_true_r.
    + rewrite post_incr_stray_NaN.
      destruct (IH m true (if n then f else negb m) Ht) as [f' Hf]. exists f'.
      rewrite Hf. change (Num.eqb NaN (of_Z (-1))) with false.
      change (Num.eqb NaN NaN) with true.
      cbn [orb]. now rewrite orb_true_r.
Qed.

Lemma makeHistogram_no_bins {engine : Engine} (ps : list Q) :
  ps <> [] -> (Z.of_nat (List.length ps) <= max_arguments)%Z ->
  exists f,
    Analysis.makeHistogram (List.map Fin ps) 0
    = Normal (Analysis.mkHistogram Arr.empty
                (Arr.mk [] (stray (some_at ps 0 (of_Z (-1)) ps)
                                  (some_at ps 0 NaN ps) f))).
Proof.
  intros Hne Hl.
  destruct (@forEach_no_bins ps ps false false false Hne (incl_refl ps)) as [f Hf].
  exists f. rewrite (makeHistogram_unfold 0 Hne Hl).
  rewrite !new_array_ok by lia. cbn [bind Z.to_nat repeat].
  unfold Arr.fill, Arr.map. cbn [Arr.elems Arr.props List.map Arr.mapi_from].
  change (@nil (num * num)) with (stray false false false).
  rewrite Hf. reflexivity.
Qed.

Lemma some_at_all (ps : list Q) (bins : Z) (k : num) (qs : list Q) :
  qs <> [] ->
  (forall p, In p qs -> index_of (List.map Fin ps) bins (Fin p) = k) ->
  Num.eqb k k = true -> some_at ps bins k qs = true.
Proof.
  intros Hq H K. destruct qs as [| q t]; [congruence |].
  unfold some_at. cbn [existsb]. rewrite H by (now left). now rewrite K.
Qed.

Lemma some_at_none (ps : list Q) (bins : Z) (k k' : num) (qs : list Q) :
  (forall p, In p qs -> index_of (List.map Fin ps) bins (Fin p) = k) ->
  Num.eqb k k' = false -> some_at ps bins k' qs = false.
Proof.
  intros H K. induction qs as [| q t IH]; [reflexivity |].
  unfold some_at in *. cbn [existsb]. rewrite H by (now left). rewrite K.
  apply IH. intros p Hp. apply H. now right.
Qed.

Lemma sum_values_no_elems (props : list (num * num)) :
  sum_values (Arr.mk [] props) = of_nat 0.
Proof. reflexivity. Qed.

(** With no bins an index can be [NaN] instead of [-1]: for the profits
    [2^1023] and [-2^1023], [max - min] is [Infinity], the index of the
    greatest value is [Math.min(-1, Math.floor(Infinity / Infinity))],
    that is [NaN], and the two increments leave the properties [NaN] and
    [-1]. *)
Lemma index_without_bins_is_NaN :
  let ps := [inject_Z (2 ^ 1023); inject_Z (- 2 ^ 1023)] in
  index_of (List.map Fin ps) 0 (Fin (inject_Z (2 ^ 1023))) = NaN /\
  NaN <> of_Z (-1) /\
  index_of (List.map Fin ps) 0 (Fin (inject_Z (- 2 ^ 1023))) = of_Z (-1) /\
  Analysis.makeHistogram (engine := Sample.engine) (List.map Fin ps) 0
  = Normal (Analysis.mkHistogram Arr.empty
              (Arr.mk [] [(NaN, NaN); (of_Z (-1), NaN)])).
Proof.
  split; [vm_compute; reflexivity |].
  split; [discriminate |].
  split; vm_compute; reflexivity.
Qed.

(** C10, as the code has it.  With [bins = 0] and a non-empty list of
    profits that a call can take as its arguments, the bin width is
    [range / 0 = Infinity]; the index of every value of the list is
    [Math.min(-1, Math.floor(x / Infinity))], which is [-1], or [NaN]
    when [x] is [Infinity]; it is [-1] for every value when [max - min]
    has not overflowed.  Neither is an index of the array of counts (the
    array has length 0; the write lands in a property named [-1] or
    [NaN], whose value is [NaN]), and the result has no label and no
    count: the counts sum to 0, not to the number of profits. *)
Theorem histogram_no_bins {engine : Engine} (ps : list Q) :
  ps <> [] -> (Z.of_nat (List.length ps) <= max_arguments)%Z ->
  Analysis.hist_binWidth (List.map Fin ps) 0 = PInf /\
  (forall p, In p ps ->
     index_of (List.map Fin ps) 0 (Fin p) = of_Z (-1) \/
     index_of (List.map Fin ps) 0 (Fin p) = NaN) /\
  (finite (Analysis.hist_range (List.map Fin ps)) ->
   forall p, In p ps -> index_of (List.map Fin ps) 0 (Fin p) = of_Z (-1)) /\
  Arr.as_index (of_Z (-1)) = None /\
  Arr.as_index NaN = None /\
  (exists h,
     Analysis.makeHistogram (List.map Fin ps) 0 = Normal h /\
     Analysis.labels h = Arr.empty /\
     Arr.elems (Analysis.counts h) = [] /\
     Arr.length (Analysis.counts h) = O /\
     sum_values (Analysis.counts h) = of_nat 0 /\
     (finite (Analysis.hist_range (List.map Fin ps)) ->
      Analysis.counts h = Arr.mk [] [(of_Z (-1), NaN)])) /\
  of_nat 0 <> of_nat (List.length ps).
Proof.
  intros Hne Hl.
  split; [apply (hist_binWidth_no_bins Hne) |].
  split; [intros p Hin; apply (@index_no_bins ps p Hne Hin) |].
  split; [intros F p Hin; apply (@index_no_bins_finite ps p Hne Hin F) |].
  split; [reflexivity |]. split; [reflexivity |].
  split.
  - destruct (makeHistogram_no_bins Hne Hl) as [f Hf].
    eexists. split; [exact Hf |]. cbn [Analysis.labels Analysis.counts Arr.elems].
    repeat (split; [reflexivity |]).
    intros F.
    rewrite (@some_at_all ps 0 (of_Z (-1)) ps Hne); [| | reflexivity].
    + rewrite (@some_at_none ps 0 (of_Z (-1)) NaN ps); [reflexivity | | reflexivity].
      intros p Hin. apply (@index_no_bins_finite ps p Hne Hin F).
    + intros p Hin. apply (@index_no_bins_finite ps p Hne Hin F).
  - destruct ps as [| p0 t]; [congruence |].
    cbn [List.length]. unfold of_nat, of_Z, inject_Z. intros H.
    apply Fin_inj in H. discriminate H.
Qed.

Lemma histogram_no_bins_witness :
  Analysis.hist_binWidth (List.map Fin Sample.profits) 0 = PInf /\
  (exists h,
     Analysis.makeHistogram (engine := Sample.engine)
       (List.map Fin Sample.profits) 0 = Normal h /\
     Analysis.labels h = Arr.empty /\
     Arr.elems (Analysis.counts h) = [] /\
     Arr.length (Analysis.counts h) = O /\
     sum_values (Analysis.counts h) = of_nat 0 /\
     (finite (Analysis.hist_range (List.map Fin Sample.profits)) ->
      Analysis.counts h = Arr.mk [] [(of_Z (-1), NaN)])).
Proof.
  destruct (@histogram_no_bins Sample.engine Sample.profits) as [A [_ [_ [_ [_ [B _]]]]]].
  - discriminate.
  - vm_compute. discriminate.
  - split; [exact A | exact B].
Defined.

(** ** The queries *)

Lemma when_given_ordering (s : option string)
  (f : string -> Query.t -> Query.t) (q : Query.t) :
  (forall v q', Query.ordering (f v q') = Query.ordering q') ->
  Query.ordering (Analysis.when_given s f q) = Query.ordering q.
Proof.
  intros Hf. unfold Analysis.when_given.
  destruct s as [v |]; [| reflexivity].
  destruct (string_truthy (Some v)); [apply Hf | reflexivity].
Qed.

Lemma when_given_table (s : option string)
  (f : string -> Query.t -> Query.t) (q : Query.t) :
  (forall v q', Query.table (f v q') = Query.table q') ->
  Query.table (Analysis.when_given s f q) = Query.table q.
Proof.
  intros Hf. unfold Analysis.when_given.
  destruct s as [v |]; [| reflexivity].
  destruct (string_truthy (Some v)); [apply Hf | reflexivity].
Qed.

Lemma analysis_query_ascending (from to : option string) :
  Query.table (Analysis.trades_query from to) = "trades" /\
  ordered_ascending "open_time" (Analysis.trades_query from to).
Proof.
  unfold ordered_ascending, Analysis.trades_query. split.
  - rewrite !when_given_table by reflexivity. reflexivity.
  - rewrite !when_given_ordering by reflexivity. reflexivity.
Qed.

(** The dashboard does not ask for ascending order: the trades query that
    [fetchData] sends is ordered by [open_time] descending. *)
Lemma dashboard_query_not_ascending :
  snd (Dashboard.fetchData
         (Dashboard.mkClient (fun _ => None) (fun _ => None)) Dashboard.initial)
  = [Dashboard.trades_query; Dashboard.account_query]
  /\ Query.ordering Dashboard.trades_query = [("open_time", false)]
  /\ ~ ordered_ascending "open_time" Dashboard.trades_query.
Proof.
  split; [reflexivity |]. split; [reflexivity |].
  unfold ordered_ascending. cbn. intros H. discriminate H.
Qed.

(** C3, as the code has it.  The analysis page's [fetchTrades], when the
    client is configured, sends one query, on the table [trades], ordered
    by [open_time] ascending, whatever the bounds; without a client it
    sends none.  The dashboard's [fetchData] sends its trades query
    ordered by [open_time] descending, followed by the account query. *)
Theorem trades_query_order :
  (forall (client : Analysis.Client) (from to : option string) (st : Analysis.State),
      exists q,
        snd (Analysis.fetchTrades (Some client) from to st) = [q] /\
        Query.table q = "trades" /\
        ordered_ascending "open_time" q) /\
  (forall (from to : option string) (st : Analysis.State),
      snd (Analysis.fetchTrades None from to st) = []) /\
  (forall (client : Dashboard.Client) (st : Dashboard.State),
      exists q qa,
        snd (Dashboard.fetchData client st) = [q; qa] /\
        Query.table q = "trades" /\
        ordered_descending "open_time" q /\
        Query.table qa = "account_stats").
Proof.
  split; [| split].
  - intros client from to st. exists (Analysis.trades_query from to).
    split; [reflexivity |]. apply analysis_query_ascending.
  - reflexivity.
  - intros client st. exists Dashboard.trades_query, Dashboard.account_query.
    repeat split.
Qed.

(** ** The dashboard: closed trades only *)

Lemma fold_left_map_acc (A B C : Type) (f : C -> B -> C) (g : A -> B)
  (l : list A) (a : C) :
  fold_left (fun s x => f s (g x)) l a = fold_left f (List.map g l) a.
Proof.
  revert a. induction l as [| x t IH]; intros a; cbn [List.map fold_left];
    [reflexivity | apply IH].
Qed.

Lemma history_app (ts1 ts2 : list Dashboard.Trade) :
  Dashboard.historyTrades (ts1 ++ ts2)%list
  = (Dashboard.historyTrades ts1 ++ Dashboard.historyTrades ts2)%list.
Proof. apply filter_app. Qed.

Lemma history_skip_active (ts1 ts2 : list Dashboard.Trade) (t : Dashboard.Trade) :
  Dashboard.close_time t = None ->
  Dashboard.historyTrades (ts1 ++ t :: ts2)%list
  = Dashboard.historyTrades (ts1 ++ ts2)%list.
Proof.
  intros H. rewrite !history_app. f_equal.
  unfold Dashboard.historyTrades. cbn [filter]. now rewrite H.
Qed.

Lemma history_idem (ts : list Dashboard.Trade) :
  Dashboard.historyTrades (Dashboard.historyTrades ts) = Dashboard.historyTrades ts.
Proof.
  unfold Dashboard.historyTrades.
  induction ts as [| t ts IH]; cbn [filter]; [reflexivity |].
  destruct (negb (Dashboard.is_null (Dashboard.close_time t))) eqn:E;
    cbn [filter]; [rewrite E; now f_equal | exact IH].
Qed.

Lemma history_closed (ts : list Dashboard.Trade) (t : Dashboard.Trade) :
  In t (Dashboard.historyTrades ts) <-> In t ts /\ Dashboard.close_time t <> None.
Proof.
  unfold Dashboard.historyTrades. rewrite filter_In.
  destruct (Dashboard.close_time t); cbn; split; intros [H1 H2]; split;
    try assumption; try discriminate; try reflexivity.
  now contradiction H2.
Qed.

Lemma totalClosedProfit_sum (ts : list Dashboard.Trade) :
  Dashboard.totalClosedProfit ts
  = float_sum (List.map row_value (Dashboard.historyTrades ts)).
Proof.
  unfold Dashboard.totalClosedProfit, float_sum.
  rewrite (fold_left_map_acc Num.add
             (fun t => Dashboard.profit_or_0 (Dashboard.profit t))).
  rewrite <- (List.map_map Dashboard.profit Dashboard.profit_or_0).
  change Dashboard.profit_or_0 with Analysis.profit_or_0.
  rewrite fold_add_profits. now rewrite !List.map_map.
Qed.

(** C9. The closed profit and the win rate of the dashboard are computed
    over the trades whose [close_time] is not null only: they are those
    of the history list, every trade of which is closed, the closed
    profit is the binary64 sum, accumulated in the order of the rows, of
    the profits of the closed trades, and a trade whose [close_time] is
    null changes neither of them, whatever its profit. *)
Theorem closed_trades_only {engine : Engine} (ts : list Dashboard.Trade) :
  (forall t, In t (Dashboard.historyTrades ts) <->
             In t ts /\ Dashboard.close_time t <> None) /\
  Dashboard.totalClosedProfit ts
  = Dashboard.totalClosedProfit (Dashboard.historyTrades ts) /\
  Dashboard.winRate ts = Dashboard.winRate (Dashboard.historyTrades ts) /\
  Dashboard.totalClosedProfit ts
  = float_sum
      (List.map row_value
         (filter (fun t => negb (Dashboard.is_null (Dashboard.close_time t))) ts)) /\
  (forall ts1 t ts2,
      ts = (ts1 ++ t :: ts2)%list -> Dashboard.close_time t = None ->
      Dashboard.totalClosedProfit ts
      = Dashboard.totalClosedProfit (ts1 ++ ts2)%list /\
      Dashboard.winRate ts = Dashboard.winRate (ts1 ++ ts2)%list).
Proof.
  split; [intros t; apply history_closed |].
  split; [unfold Dashboard.totalClosedProfit; now rewrite history_idem |].
  split; [unfold Dashboard.winRate; now rewrite history_idem |].
  split; [apply totalClosedProfit_sum |].
  intros ts1 t ts2 -> Hc.
  unfold Dashboard.totalClosedProfit, Dashboard.winRate.
  now rewrite (history_skip_active ts1 ts2 t Hc).
Qed.

Lemma closed_trades_only_witness :
  Dashboard.totalClosedProfit [Sample.closed_1; Sample.active_2; Sample.closed_3]
  = Dashboard.totalClosedProfit [Sample.closed_1; Sample.closed_3] /\
  Dashboard.winRate (engine := Sample.engine)
    [Sample.closed_1; Sample.active_2; Sample.closed_3]
  = Dashboard.winRate (engine := Sample.engine) [Sample.closed_1; Sample.closed_3].
Proof.
  destruct (@closed_trades_only Sample.engine
              [Sample.closed_1; Sample.active_2; Sample.closed_3])
    as (_ & _ & _ & _ & H).
  apply (H [Sample.closed_1] Sample.active_2 [Sample.closed_3]); reflexivity.
Defined.

(** ** A missing profit and a zero profit *)

Lemma profit_or_0_fill (p : option Q) :
  Analysis.profit_or_0 (fill_profit p) = Analysis.profit_or_0 p.
Proof. destruct p as [v |]; reflexivity. Qed.

Lemma profits_zero_filled (ts : list Analysis.Trade) :
  List.map (fun t => Analysis.profit_or_0 (Analysis.profit t))
    (List.map zero_filled ts)
  = List.map (fun t => Analysis.profit_or_0 (Analysis.profit t)) ts.
Proof.
  rewrite List.map_map. apply map_ext. intros t. apply profit_or_0_fill.
Qed.

Lemma computeStats_zero_filled (ts : list Analysis.Trade) :
  Analysis.computeStats (List.map zero_filled ts) = Analysis.computeStats ts.
Proof.
  unfold Analysis.computeStats.
  now rewrite profits_zero_filled, length_map.
Qed.

Lemma sort_insert_map (A B : Type) (f : A -> B) (cmpA : A -> A -> num)
  (cmpB : B -> B -> num) (x : A) (l : list A) :
  (forall a b, cmpB (f a) (f b) = cmpA a b) ->
  sort_insert cmpB (f x) (List.map f l) = List.map f (sort_insert cmpA x l).
Proof.
  intros H. induction l as [| y t IH]; cbn [List.map sort_insert];
    [reflexivity |].
  rewrite H. destruct (Num.gt (cmpA x y) zero); cbn [List.map];
    [now rewrite IH | reflexivity].
Qed.

Lemma sort_map (A B : Type) (f : A -> B) (cmpA : A -> A -> num)
  (cmpB : B -> B -> num) (l : list A) :
  (forall a b, cmpB (f a) (f b) = cmpA a b) ->
  sort cmpB (List.map f l) = List.map f (sort cmpA l).
Proof.
  intros H. unfold sort.
  induction l as [| x t IH]; cbn [List.map fold_right]; [reflexivity |].
  rewrite IH. now apply sort_insert_map.
Qed.

Lemma filter_map_comm (A B : Type) (f : A -> B) (keepA : A -> bool)
  (keepB : B -> bool) (l : list A) :
  (forall a, keepB (f a) = keepA a) ->
  filter keepB (List.map f l) = List.map f (filter keepA l).
Proof.
  intros H. induction l as [| x t IH]; cbn [List.map filter]; [reflexivity |].
  rewrite H. destruct (keepA x); cbn [List.map]; now rewrite IH.
Qed.

Section ZeroFilled.
Context {engine : Engine}.

Lemma sorted_zero_filled (ts : list Analysis.Trade) :
  Analysis.sorted_trades (List.map zero_filled ts)
  = List.map zero_filled (Analysis.sorted_trades ts).
Proof.
  unfold Analysis.sorted_trades.
  rewrite (filter_map_comm zero_filled
             (fun t => string_truthy (Analysis.open_time t))
             (fun t => string_truthy (Analysis.open_time t)))
    by reflexivity.
  apply sort_map. reflexivity.
Qed.

Lemma cum_loop_zero_filled (acc : num) (l : list Analysis.Trade) :
  Analysis.cum_loop acc (List.map zero_filled l) = Analysis.cum_loop acc l.
Proof.
  revert acc. induction l as [| s t IH]; intros acc;
    cbn [List.map Analysis.cum_loop]; [reflexivity |].
  cbn [zero_filled Analysis.profit]. rewrite profit_or_0_fill. now rewrite IH.
Qed.

Lemma timeseries_zero_filled (ts : list Analysis.Trade) :
  Analysis.timeseries (List.map zero_filled ts) = Analysis.timeseries ts.
Proof.
  unfold Analysis.timeseries. rewrite sorted_zero_filled.
  rewrite !List.map_map, cum_loop_zero_filled. reflexivity.
Qed.

Lemma history_zero_filled (rows : list Dashboard.Trade) :
  Dashboard.historyTrades (List.map zero_filled_row rows)
  = List.map zero_filled_row (Dashboard.historyTrades rows).
Proof.
  unfold Dashboard.historyTrades. now apply filter_map_comm.
Qed.

End ZeroFilled.

(** C8. Replacing every missing profit by the number zero changes none of
    the aggregates: the summary statistics, the profits handed to the
    histogram and hence the histogram for any number of bins, the
    cumulative series with its labels, and the closed profit and the win
    rate of the dashboard are the same. *)
Theorem missing_profit_is_zero {engine : Engine}
  (ts : list Analysis.Trade) (rows : list Dashboard.Trade) (bins : Z) :
  Analysis.profit_or_0 None = Analysis.profit_or_0 (Some 0%Q) /\
  Analysis.computeStats (List.map zero_filled ts) = Analysis.computeStats ts /\
  Analysis.profits (List.map zero_filled ts) = Analysis.profits ts /\
  Analysis.histogram (List.map zero_filled ts) bins
  = Analysis.histogram ts bins /\
  Analysis.timeseries (List.map zero_filled ts) = Analysis.timeseries ts /\
  Dashboard.totalClosedProfit (List.map zero_filled_row rows)
  = Dashboard.totalClosedProfit rows /\
  Dashboard.winRate (List.map zero_filled_row rows) = Dashboard.winRate rows.
Proof.
  split; [reflexivity |].
  split; [apply computeStats_zero_filled |].
  split; [apply profits_zero_filled |].
  split; [unfold Analysis.histogram, Analysis.profits;
          now rewrite profits_zero_filled |].
  split; [apply timeseries_zero_filled |].
  split.
  - unfold Dashboard.totalClosedProfit. rewrite history_zero_filled.
    rewrite !(fold_left_map_acc Num.add
                (fun t => Dashboard.profit_or_0 (Dashboard.profit t))).
    rewrite List.map_map. f_equal. apply map_ext. intros t.
    apply profit_or_0_fill.
  - unfold Dashboard.winRate. rewrite history_zero_filled, !length_map.
    do 4 f_equal.
    set (win := fun t => Num.ge (Dashboard.profit_or_0 (Dashboard.profit t)) zero).
    rewrite (filter_map_comm zero_filled_row win win).
    + now rewrite length_map.
    + intros t. unfold win. cbn [zero_filled_row Dashboard.profit].
      change Dashboard.profit_or_0 with Analysis.profit_or_0.
      now rewrite profit_or_0_fill.
Qed.

(** ** The cumulative series *)

Lemma sort_insert_perm (A : Type) (cmp : A -> A -> num) (x : A) (l : list A) :
  Permutation (x :: l) (sort_insert cmp x l).
Proof.
  induction l as [| y t IH]; cbn [sort_insert]; [apply Permutation_refl |].
  destruct (Num.gt (cmp x y) zero); [| apply Permutation_refl].
  apply perm_trans with (y :: x :: t); [apply perm_swap |].
  now apply perm_skip.
Qed.

Lemma sort_perm (A : Type) (cmp : A -> A -> num) (l : list A) :
  Permutation l (sort cmp l).
Proof.
  unfold sort. induction l as [| x t IH]; cbn [fold_right];
    [apply Permutation_refl |].
  apply perm_trans with (x :: fold_right (sort_insert cmp) [] t).
  - now apply perm_skip.
  - apply sort_insert_perm.
Qed.

Lemma last_cons_default (A : Type) (x d : A) (l : list A) :
  last (x :: l) d = last l x.
Proof.
  revert x d. induction l as [| y t IH]; intros x d; [reflexivity |].
  change (last (x :: y :: t) d) with (last (y :: t) d).
  now rewrite (IH y d), (IH y x).
Qed.

Lemma filter_perm (A : Type) (f : A -> bool) (l l' : list A) :
  Permutation l l' -> Permutation (filter f l) (filter f l').
Proof.
  intros HP. induction HP as [| x l l' _ IH | x y l | l l' l'' _ IH1 _ IH2];
    cbn [filter].
  - apply Permutation_refl.
  - destruct (f x); [now apply perm_skip | exact IH].
  - destruct (f x), (f y); try apply Permutation_refl. apply perm_swap.
  - now apply perm_trans with (filter f l').
Qed.

Lemma eqb_sym (x y : num) : Num.eqb x y = Num.eqb y x.
Proof.
  destruct x as [a | | |], y as [b | | |]; cbn [Num.eqb]; try reflexivity.
  destruct (Qeq_bool a b) eqn:E, (Qeq_bool b a) eqn:E'; try reflexivity.
  - apply Qeq_bool_iff in E. apply Qeq_bool_neq in E'. exfalso. apply E'.
    now symmetry.
  - apply Qeq_bool_neq in E. apply Qeq_bool_iff in E'. exfalso. apply E.
    now symmetry.
Qed.

(** two lists in ascending order with the same elements are equal, when
    the order is antisymmetric on them *)
Lemma sorted_unique (A : Type) (R : A -> A -> Prop) (l1 l2 : list A) :
  (forall a b, In a l1 -> In b l1 -> R a b -> R b a -> a = b) ->
  StronglySorted R l1 -> StronglySorted R l2 -> Permutation l1 l2 -> l1 = l2.
Proof.
  revert l2. induction l1 as [| x t1 IH]; intros l2 Hanti S1 S2 HP.
  - now apply Permutation_nil in HP.
  - destruct l2 as [| y t2].
    + apply Permutation_sym, Permutation_nil in HP. discriminate HP.
    + inversion S1 as [| ? ? S1t F1]; subst. inversion S2 as [| ? ? S2t F2]; subst.
      rewrite Forall_forall in F1, F2.
      assert (Hy : In y (x :: t1))
        by (apply Permutation_in with (y :: t2);
            [now apply Permutation_sym | now left]).
      assert (Hx : In x (y :: t2))
        by (apply Permutation_in with (x :: t1); [exact HP | now left]).
      assert (E : x = y).
      { destruct Hy as [Hy | Hy]; [exact Hy |].
        destruct Hx as [Hx | Hx]; [now symmetry |].
        apply Hanti; [now left | now right | now apply F1 | now apply F2]. }
      subst y. f_equal. apply IH.
      * intros a b Ha Hb. apply Hanti; now right.
      * exact S1t.
      * exact S2t.
      * now apply Permutation_cons_inv with x.
Qed.

Lemma le_of_Z (x y : Z) : Num.le (of_Z x) (of_Z y) = (x <=? y)%Z.
Proof.
  unfold of_Z. cbn [Num.le].
  destruct (x <=? y)%Z eqn:E.
  - apply Z.leb_le in E. apply Qle_bool_iff. now rewrite <- Zle_Qle.
  - apply Z.leb_gt in E. apply Qle_bool_false. now rewrite <- Zlt_Qlt.
Qed.

Lemma eqb_of_Z (x y : Z) : Num.eqb (of_Z x) (of_Z y) = (x =? y)%Z.
Proof.
  unfold of_Z. cbn [Num.eqb].
  destruct (x =? y)%Z eqn:E.
  - apply Z.eqb_eq in E. subst y. apply Qeq_bool_iff. reflexivity.
  - apply Z.eqb_neq in E. destruct (Qeq_bool (inject_Z x) (inject_Z y)) eqn:Q;
      [| reflexivity].
    apply Qeq_bool_iff in Q. exfalso. apply E.
    unfold Qeq in Q. cbn in Q. lia.
Qed.

(** the sign of the difference of two whole numbers survives rounding *)
Lemma gt_sub_of_Z (x y : Z) :
  Num.gt (of_Z x - of_Z y)%num zero = negb (x <=? y)%Z.
Proof.
  unfold of_Z. cbn [Num.sub]. unfold Num.gt, Num.lt.
  pose proof (round_not_NaN (inject_Z x - inject_Z y)) as NN.
  assert (G : Num.le (Num.round (inject_Z x - inject_Z y)) zero
              = (x <=? y)%Z).
  { destruct (x <=? y)%Z eqn:E.
    - apply Z.leb_le in E. apply round_nonpos.
      rewrite Zle_Qle in E. lra.
    - apply Z.leb_gt in E.
      assert (L : 1 <= inject_Z x - inject_Z y).
      { assert (H : (y + 1 <= x)%Z) by lia.
        rewrite Zle_Qle, inject_Z_plus in H. change (inject_Z 1) with 1 in H. lra. }
      pose proof (round_mono L) as M.
      change 1 with (inject_Z 1) in M at 1. rewrite round_of_Z in M by (cbn; lia).
      destruct (Num.round (inject_Z x - inject_Z y)) as [q | | |];
        try discriminate M; try reflexivity.
      apply le_Fin in M. change (inject_Z 1) with 1 in M.
      cbn [Num.le zero]. apply Qle_bool_false. lra. }
  destruct (Num.round (inject_Z x - inject_Z y)) as [q | | |] eqn:R;
    try congruence; cbn [zero]; now rewrite G.
Qed.

Section SeriesFacts.
Context {engine : Engine}.

Lemma cum_loop_prefix_sums (l : list Analysis.Trade) (acc : num) :
  Analysis.cum_loop acc l
  = List.map (fun k => fold_left Num.add
                         (List.map Fin (List.map trade_value (firstn (S k) l))) acc)
      (seq 0 (List.length l)).
Proof.
  revert acc. induction l as [| s t IH]; intros acc;
    cbn [Analysis.cum_loop List.length seq List.map]; [reflexivity |].
  rewrite add_profit_or_0. f_equal.
  rewrite IH, <- seq_shift, List.map_map. apply map_ext. intros k.
  reflexivity.
Qed.

Lemma cum_loop_length (l : list Analysis.Trade) (acc : num) :
  List.length (Analysis.cum_loop acc l) = List.length l.
Proof.
  revert acc. induction l as [| s t IH]; intros acc;
    cbn [Analysis.cum_loop List.length]; [reflexivity | now rewrite IH].
Qed.

Lemma cum_loop_last (l : list Analysis.Trade) (acc : num) :
  last (Analysis.cum_loop acc l) acc
  = fold_left Num.add (List.map Fin (List.map trade_value l)) acc.
Proof.
  revert acc. induction l as [| s t IH]; intros acc; cbn [Analysis.cum_loop].
  - reflexivity.
  - rewrite last_cons_default, add_profit_or_0, IH. reflexivity.
Qed.

Lemma series_values (ts : list Analysis.Trade) :
  Analysis.cum (Analysis.timeseries ts)
  = List.map (fun k => float_sum (List.map trade_value
                                    (firstn (S k) (Analysis.sorted_trades ts))))
      (seq 0 (List.length (Analysis.sorted_trades ts))).
Proof.
  unfold Analysis.timeseries. cbn [Analysis.cum].
  now rewrite cum_loop_prefix_sums.
Qed.

Lemma series_last (ts : list Analysis.Trade) :
  last (Analysis.cum (Analysis.timeseries ts)) zero
  = float_sum (List.map trade_value (Analysis.sorted_trades ts)).
Proof.
  unfold Analysis.timeseries. cbn [Analysis.cum]. apply cum_loop_last.
Qed.

(** a trade with a valid date has a whole number of milliseconds *)
Lemma dated_opened_at (t : Analysis.Trade) :
  dated t <-> exists z, opened_at t = Some z.
Proof.
  unfold dated, opened_at, Analysis.open_ms.
  destruct (Analysis.open_time t) as [s |].
  - destruct (date_getTime s) as [z |]; cbn [finite of_Z].
    + split; [intros _; now exists z | auto].
    + split; [contradiction | intros [z H]; discriminate H].
  - cbn [finite]. split; [contradiction | intros [z H]; discriminate H].
Qed.

Lemma open_ms_opened_at (t : Analysis.Trade) (z : Z) :
  opened_at t = Some z -> Analysis.open_ms t = of_Z z.
Proof.
  unfold opened_at, Analysis.open_ms.
  destruct (Analysis.open_time t) as [s |]; [| discriminate].
  now intros ->.
Qed.

Lemma gt_by_open_time (a b : Analysis.Trade) (x y : Z) :
  opened_at a = Some x -> opened_at b = Some y ->
  Num.gt (Analysis.by_open_time a b) zero = negb (x <=? y)%Z.
Proof.
  intros Ha Hb. unfold Analysis.by_open_time.
  rewrite (open_ms_opened_at _ Ha), (open_ms_opened_at _ Hb).
  apply gt_sub_of_Z.
Qed.

Lemma opened_before_le (a b : Analysis.Trade) (x y : Z) :
  opened_at a = Some x -> opened_at b = Some y ->
  (opened_before a b <-> (x <= y)%Z).
Proof. intros Ha Hb. unfold opened_before. now rewrite Ha, Hb. Qed.

Lemma ascending_le (a b : Analysis.Trade) (x y : Z) :
  opened_at a = Some x -> opened_at b = Some y ->
  (Num.le (Analysis.open_ms a) (Analysis.open_ms b) = true <-> (x <= y)%Z).
Proof.
  intros Ha Hb.
  rewrite (open_ms_opened_at _ Ha), (open_ms_opened_at _ Hb), le_of_Z.
  apply Z.leb_le.
Qed.

(** on trades with valid dates the order of the time values is the order
    of the numbers [getTime()] returns *)
Lemma ascending_opened_before (l : list Analysis.Trade) :
  Forall dated l ->
  (ascending_open_time l <-> StronglySorted opened_before l).
Proof.
  unfold ascending_open_time. intros Hd.
  induction l as [| x t IH]; [split; constructor |].
  inversion Hd as [| ? ? Hx Ht]; subst.
  apply dated_opened_at in Hx. destruct Hx as [zx Hx].
  assert (F : Forall (fun b => Num.le (Analysis.open_ms x) (Analysis.open_ms b) = true) t
              <-> Forall (opened_before x) t).
  { rewrite !Forall_forall. rewrite Forall_forall in Ht.
    split; intros H b Hb; specialize (H b Hb); specialize (Ht b Hb);
      apply dated_opened_at in Ht; destruct Ht as [zb Hzb].
    - apply (opened_before_le _ _ Hx Hzb). now apply (ascending_le _ _ Hx Hzb).
    - apply (ascending_le _ _ Hx Hzb). now apply (opened_before_le _ _ Hx Hzb). }
  split; intros S; inversion S as [| ? ? St Fx]; subst; constructor;
    try (now apply IH); now apply F.
Qed.

Lemma sort_insert_ascending (x : Analysis.Trade) (l : list Analysis.Trade) :
  dated x -> Forall dated l -> StronglySorted opened_before l ->
  StronglySorted opened_before (sort_insert Analysis.by_open_time x l).
Proof.
  intros Hx Hl Hs. apply dated_opened_at in Hx. destruct Hx as [zx Hx].
  induction l as [| y t IH]; cbn [sort_insert].
  - constructor; [constructor | constructor].
  - inversion Hl as [| ? ? Hy Ht]; subst. inversion Hs as [| ? ? Hst Hyt]; subst.
    pose proof Hy as Hy'. apply dated_opened_at in Hy'. destruct Hy' as [zy Hzy].
    rewrite (gt_by_open_time _ _ Hx Hzy).
    destruct (zx <=? zy)%Z eqn:E; cbn [negb].
    + apply Z.leb_le in E. constructor; [exact Hs |]. constructor.
      * now apply (opened_before_le _ _ Hx Hzy).
      * rewrite Forall_forall in Hyt, Ht |- *. intros z Hz.
        specialize (Hyt z Hz). specialize (Ht z Hz).
        apply dated_opened_at in Ht. destruct Ht as [zz Hzz].
        apply (opened_before_le _ _ Hx Hzz).
        apply (opened_before_le _ _ Hzy Hzz) in Hyt. lia.
    + apply Z.leb_gt in E. constructor; [now apply IH |].
      apply Permutation_Forall with (x :: t); [apply sort_insert_perm |].
      constructor; [| exact Hyt].
      apply (opened_before_le _ _ Hzy Hx). lia.
Qed.

Lemma sort_ascending (l : list Analysis.Trade) :
  Forall dated l -> StronglySorted opened_before (sort Analysis.by_open_time l).
Proof.
  unfold sort. induction l as [| x t IH]; intros H; cbn [fold_right].
  - constructor.
  - inversion H as [| ? ? Hx Ht]; subst.
    apply sort_insert_ascending; [exact Hx | | now apply IH].
    apply Permutation_Forall with t; [apply sort_perm | exact Ht].
Qed.

Lemma sort_insert_least (x : Analysis.Trade) (l : list Analysis.Trade) :
  dated x -> Forall dated l -> Forall (opened_before x) l ->
  sort_insert Analysis.by_open_time x l = x :: l.
Proof.
  intros Hx Hl Hle. apply dated_opened_at in Hx. destruct Hx as [zx Hx].
  destruct l as [| y t]; [reflexivity |]. cbn [sort_insert].
  inversion Hl as [| ? ? Hy _]; subst. inversion Hle as [| ? ? Hxy _]; subst.
  apply dated_opened_at in Hy. destruct Hy as [zy Hzy].
  rewrite (gt_by_open_time _ _ Hx Hzy).
  apply (opened_before_le _ _ Hx Hzy) in Hxy.
  replace (zx <=? zy)%Z with true by (symmetry; now apply Z.leb_le).
  reflexivity.
Qed.

(** the sort leaves rows that are in ascending order as they are *)
Lemma sort_ascending_id (l : list Analysis.Trade) :
  Forall dated l -> StronglySorted opened_before l ->
  sort Analysis.by_open_time l = l.
Proof.
  unfold sort. intros Hd Hs.
  induction Hs as [| x t Hst IH Hx]; cbn [fold_right]; [reflexivity |].
  inversion Hd as [| ? ? Hdx Hdt]; subst.
  rewrite (IH Hdt). now apply sort_insert_least.
Qed.

Lemma distinct_times_inj (l : list Analysis.Trade) (a b : Analysis.Trade) :
  distinct_times l -> In a l -> In b l ->
  Num.eqb (Analysis.open_ms a) (Analysis.open_ms b) = true -> a = b.
Proof.
  unfold distinct_times. intros Hd.
  induction Hd as [| x t Hx Ht IH]; intros Ha Hb E; [contradiction |].
  rewrite Forall_forall in Hx.
  destruct Ha as [<- | Ha], Hb as [<- | Hb].
  - reflexivity.
  - rewrite (Hx b Hb) in E. discriminate E.
  - rewrite eqb_sym, (Hx a Ha) in E. discriminate E.
  - now apply IH.
Qed.

Lemma kept_dated (ts : list Analysis.Trade) :
  Forall dated (filter has_open_time ts) ->
  Forall dated (Analysis.sorted_trades ts).
Proof.
  intros H. apply Permutation_Forall with (filter has_open_time ts); [| exact H].
  apply sort_perm.
Qed.

(** With valid opening times that differ from one another, the sorted
    rows do not depend on the order of arrival. *)
Lemma sorted_trades_perm (ts ts' : list Analysis.Trade) :
  Permutation ts ts' ->
  Forall dated (filter has_open_time ts) ->
  distinct_times (filter has_open_time ts) ->
  Analysis.sorted_trades ts = Analysis.sorted_trades ts'.
Proof.
  intros HP Hd Hdist.
  set (kept := filter has_open_time ts) in *.
  set (kept' := filter has_open_time ts').
  assert (HPk : Permutation kept kept') by (now apply filter_perm).
  assert (Hd' : Forall dated kept') by (now apply Permutation_Forall with kept).
  apply sorted_unique with (R := opened_before).
  - intros a b Ha Hb Hab Hba.
    assert (Ia : In a kept).
    { apply Permutation_in with (Analysis.sorted_trades ts); [| exact Ha].
      apply Permutation_sym, sort_perm. }
    assert (Ib : In b kept).
    { apply Permutation_in with (Analysis.sorted_trades ts); [| exact Hb].
      apply Permutation_sym, sort_perm. }
    apply (distinct_times_inj a b Hdist Ia Ib).
    rewrite Forall_forall in Hd.
    pose proof (Hd a Ia) as Da. pose proof (Hd b Ib) as Db.
    apply dated_opened_at in Da, Db. destruct Da as [za Hza], Db as [zb Hzb].
    apply (opened_before_le _ _ Hza Hzb) in Hab.
    apply (opened_before_le _ _ Hzb Hza) in Hba.
    rewrite (open_ms_opened_at _ Hza), (open_ms_opened_at _ Hzb), eqb_of_Z.
    apply Z.eqb_eq. lia.
  - now apply sort_ascending.
  - now apply sort_ascending.
  - apply perm_trans with kept; [apply Permutation_sym, sort_perm |].
    apply perm_trans with kept'; [exact HPk | apply sort_perm].
Qed.

End SeriesFacts.

Lemma string_truthy_nonempty (s : string) :
  s <> EmptyString -> string_truthy (Some s) = true.
Proof.
  intros H. unfold string_truthy. apply negb_true_iff. now apply String.eqb_neq.
Qed.

Lemma valid_dates_dated {engine : Engine} (l : list Analysis.Trade) :
  Forall valid_date l -> Forall dated l.
Proof.
  intros H. eapply Forall_impl; [| exact H].
  intros t Ht. now apply dated_opened_at.
Qed.

(** The last value of the series is not always the net sum of the kept
    trades.  For the profits 0.1, 0.2 and 0.3 of trades that arrive in
    the opposite order of their dates, the series adds them up as
    [0.3 + 0.2 + 0.1], which is 0.6 in binary64, while [computeStats]
    adds the same trades up in their order of arrival, [0.1 + 0.2 + 0.3],
    which is 0.6000000000000001. *)
Lemma last_value_is_not_net_sum :
  let ts := [Analysis.mkTrade 1 (Some (nearest (1 # 10))) (Some "2024-01-03");
             Analysis.mkTrade 2 (Some (nearest (2 # 10))) (Some "2024-01-02");
             Analysis.mkTrade 3 (Some (nearest (3 # 10))) (Some "2024-01-01")] in
  filter has_open_time ts = ts /\
  last (Analysis.cum (Analysis.timeseries (engine := Sample.engine) ts)) zero
  = Fin (nearest (6 # 10)) /\
  Analysis.sum (Analysis.computeStats (filter has_open_time ts))
  = Fin (nearest (6000000000000001 # 10000000000000000)) /\
  last (Analysis.cum (Analysis.timeseries (engine := Sample.engine) ts)) zero
  <> Analysis.sum (Analysis.computeStats (filter has_open_time ts)).
Proof.
  split; [reflexivity |].
  split; [vm_compute; reflexivity |].
  split; [vm_compute; reflexivity |].
  vm_compute. discriminate.
Qed.

(** C4, as the code has it.  [timeseries] keeps the trades that have an
    [open_time] and gives one value per kept trade, so that the series
    is as long as the number of kept trades.  When the times of the kept
    trades are valid dates, it puts them in ascending order of
    [open_time], leaving rows that are already in that order as they
    are, and each value is the binary64 sum, accumulated in the sorted
    order, of the profits up to and including the trade, a missing
    profit read as zero; the last value is the sum of the profits of the
    kept trades accumulated in the sorted order, which is the net sum
    that [computeStats] gives for the sorted rows, and for the kept rows
    when they arrive in ascending order.  For profits 100, -40 and null
    at increasing times the series is [100, 60, 60], in whatever order
    the three trades are given. *)
Theorem cumulative_series {engine : Engine} (ts : list Analysis.Trade) :
  let kept := filter has_open_time ts in
  let sorted := Analysis.sorted_trades ts in
  let series := Analysis.cum (Analysis.timeseries ts) in
  Permutation kept sorted /\
  List.length series = List.length kept /\
  List.length (Analysis.fullLabels (Analysis.timeseries ts)) = List.length kept /\
  List.length (Analysis.shortLabels (Analysis.timeseries ts)) = List.length kept /\
  (Forall valid_date kept ->
   StronglySorted opened_before sorted /\
   series
   = List.map (fun k => float_sum (List.map trade_value (firstn (S k) sorted)))
       (seq 0 (List.length sorted)) /\
   last series zero = float_sum (List.map trade_value sorted) /\
   last series zero = Analysis.sum (Analysis.computeStats sorted) /\
   (StronglySorted opened_before kept ->
    sorted = kept /\
    last series zero = Analysis.sum (Analysis.computeStats kept))) /\
  (forall (s0 s1 s2 : string) (m0 m1 m2 : Z) (given : list Analysis.Trade),
      s0 <> EmptyString -> s1 <> EmptyString -> s2 <> EmptyString ->
      date_getTime s0 = Some m0 -> date_getTime s1 = Some m1 ->
      date_getTime s2 = Some m2 -> (m0 < m1)%Z -> (m1 < m2)%Z ->
      Permutation given
        [Analysis.mkTrade 1 (Some 100%Q) (Some s0);
         Analysis.mkTrade 2 (Some (-40)%Q) (Some s1);
         Analysis.mkTrade 3 None (Some s2)] ->
      Analysis.cum (Analysis.timeseries given) = [of_Z 100; of_Z 60; of_Z 60]).
Proof.
  intros kept sorted series.
  assert (HP : Permutation kept sorted) by apply sort_perm.
  assert (HL : List.length sorted = List.length kept)
    by (symmetry; now apply Permutation_length).
  split; [exact HP |].
  split.
  { unfold series, Analysis.timeseries. cbn [Analysis.cum]. fold sorted.
    now rewrite cum_loop_length. }
  split.
  { unfold Analysis.timeseries. cbn [Analysis.fullLabels]. fold sorted.
    now rewrite length_map. }
  split.
  { unfold Analysis.timeseries. cbn [Analysis.shortLabels]. fold sorted.
    now rewrite length_map. }
  split.
  { intros Hd. pose proof (valid_dates_dated Hd) as Hd'.
    split; [now apply sort_ascending |].
    split; [apply series_values |].
    split; [apply series_last |].
    split; [unfold series; rewrite series_last; symmetry; apply stats_sum |].
    intros Hs.
    assert (E : sorted = kept) by (now apply sort_ascending_id).
    split; [exact E |].
    unfold series. rewrite series_last. fold sorted. rewrite E.
    symmetry. apply stats_sum. }
  intros s0 s1 s2 m0 m1 m2 given N0 N1 N2 T0 T1 T2 L01 L12 HG.
  set (t0 := Analysis.mkTrade 1 (Some 100%Q) (Some s0)) in *.
  set (t1 := Analysis.mkTrade 2 (Some (-40)%Q) (Some s1)) in *.
  set (t2 := Analysis.mkTrade 3 None (Some s2)) in *.
  assert (K : filter has_open_time [t0; t1; t2] = [t0; t1; t2]).
  { unfold has_open_time. cbn [filter t0 t1 t2 Analysis.open_time].
    now rewrite !string_truthy_nonempty by assumption. }
  assert (O0 : opened_at t0 = Some m0) by exact T0.
  assert (O1 : opened_at t1 = Some m1) by exact T1.
  assert (O2 : opened_at t2 = Some m2) by exact T2.
  assert (D : Forall dated [t0; t1; t2]).
  { repeat constructor; apply dated_opened_at; eexists; eassumption. }
  assert (E : Analysis.sorted_trades given = [t0; t1; t2]).
  { rewrite <- (@sorted_trades_perm engine [t0; t1; t2] given).
    - unfold Analysis.sorted_trades. fold has_open_time. rewrite K.
      apply sort_ascending_id; [exact D |].
      repeat constructor;
        first [apply (opened_before_le _ _ O0 O1) | apply (opened_before_le _ _ O0 O2)
              | apply (opened_before_le _ _ O1 O2)]; lia.
    - now apply Permutation_sym.
    - now rewrite K.
    - rewrite K. unfold distinct_times.
      repeat constructor;
        rewrite ?(open_ms_opened_at _ O0), ?(open_ms_opened_at _ O1),
                ?(open_ms_opened_at _ O2), eqb_of_Z; apply Z.eqb_neq; lia. }
  unfold Analysis.timeseries. cbn [Analysis.cum]. rewrite E.
  vm_compute. reflexivity.
Qed.

Lemma cumulative_series_witness :
  StronglySorted (opened_before (engine := Sample.engine))
    (Analysis.sorted_trades (engine := Sample.engine)
       [Sample.third_trade; Sample.undated_trade; Sample.first_trade;
        Sample.second_trade]) /\
  Analysis.cum
    (Analysis.timeseries (engine := Sample.engine)
       [Analysis.mkTrade 3 None (Some "2024-01-03");
        Analysis.mkTrade 1 (Some 100%Q) (Some "2024-01-01");
        Analysis.mkTrade 2 (Some (-40)%Q) (Some "2024-01-02")])
  = [of_Z 100; of_Z 60; of_Z 60].
Proof.
  destruct (@cumulative_series Sample.engine
              [Sample.third_trade; Sample.undated_trade; Sample.first_trade;
               Sample.second_trade])
    as (_ & _ & _ & _ & Hsorted & Hexample).
  split.
  - apply Hsorted. repeat constructor; eexists; vm_compute; reflexivity.
  - apply (Hexample "2024-01-01" "2024-01-02" "2024-01-03"
             1704067200000%Z 1704153600000%Z 1704240000000%Z);
      try discriminate; try reflexivity.
    apply perm_trans with
      [Analysis.mkTrade 1 (Some 100%Q) (Some "2024-01-01");
       Analysis.mkTrade 3 None (Some "2024-01-03");
       Analysis.mkTrade 2 (Some (-40)%Q) (Some "2024-01-02")];
      [apply perm_swap | apply perm_skip, perm_swap].
Defined.

(** ** Further facts on the histogram *)

Lemma div_mono (x y : num) (w : Q) :
  Num.le zero x = true -> Num.le x y = true -> 0 < w ->
  Num.le (x / Fin w)%num (y / Fin w)%num = true.
Proof.
  intros Hx Hxy Hw.
  assert (Zw : is_zero w = false) by (apply is_zero_false; lra).
  assert (Nw : is_neg w = false) by (apply is_neg_false; lra).
  destruct (nonneg_cases _ Hx) as [-> | [a [-> Ha]]].
  - destruct y; try discriminate Hxy. cbn [Num.div]. now rewrite Nw.
  - destruct y as [b | | |]; try discriminate Hxy; cbn [Num.div]; rewrite ?Zw, ?Nw.
    + apply le_Fin in Hxy. apply round_mono. now apply Qdiv_le_compat.
    + pose proof (round_not_NaN (a / w)).
      destruct (Num.round (a / w)); try reflexivity. congruence.
Qed.

Lemma floor_mono (x y : num) :
  Num.le x y = true -> Num.le (floor x) (floor y) = true.
Proof.
  destruct x as [a | | |], y as [b | | |]; cbn [Num.le floor]; intros H;
    try discriminate; try reflexivity.
  apply Qle_bool_iff in H. rewrite le_of_Z. apply Z.leb_le.
  now apply Qfloor_resp_le.
Qed.

Lemma min2_mono (c : Z) (x y : num) :
  Num.le x y = true -> Num.le (min2 (of_Z c) x) (min2 (of_Z c) y) = true.
Proof.
  unfold of_Z.
  destruct x as [a | | |], y as [b | | |]; cbn [Num.le min2]; intros H;
    try discriminate.
  - apply Qle_bool_iff in H.
    destruct (Qle_bool (inject_Z c) a) eqn:A, (Qle_bool (inject_Z c) b) eqn:B;
      cbn [Num.le]; apply Qle_bool_iff;
      try apply Qle_bool_iff in A; try apply Qle_bool_iff in B;
      try apply Qle_bool_false in A; try apply Qle_bool_false in B; lra.
  - destruct (Qle_bool (inject_Z c) a) eqn:A; cbn [Num.le]; apply Qle_bool_iff;
      [apply Qle_refl |]. apply Qle_bool_false in A. lra.
  - apply Qle_bool_iff, Qle_refl.
  - destruct (Qle_bool (inject_Z c) b) eqn:B; reflexivity.
  - reflexivity.
  - reflexivity.
Qed.

(** a greater value has no smaller index *)
Lemma index_mono (ps : list Q) (bins : Z) (p q : Q) :
  ps <> [] -> (1 <= bins <= 2 ^ 53)%Z -> scaled ps bins = true ->
  In p ps -> p <= q ->
  Num.le (index_of (List.map Fin ps) bins (Fin p))
         (index_of (List.map Fin ps) bins (Fin q)) = true.
Proof.
  intros Hne Hb S Hin Hpq. unfold index_of, Analysis.hist_index.
  rewrite bins_minus_one by lia.
  destruct (scaled_width Hne (bins := bins)) as [w [-> Hw]]; [lia | exact S |].
  pose proof (@offset_nonneg ps p Hne Hin) as D.
  destruct (min_list_Fin Hne) as [m [Em Hm]]. rewrite Em in *.
  apply min2_mono, floor_mono, div_mono; [exact D | | exact Hw].
  cbn [Num.sub]. apply round_mono. lra.
Qed.

(** X2. Under the conditions of C2 the bucket index never decreases as
    the value grows: of two values of the list, the greater one is in the
    same bucket as the smaller one or in a later one. *)
Theorem bucket_monotone (ps : list Q) (bins : Z) (p q : Q) :
  ps <> [] -> (1 <= bins <= 2 ^ 32 - 1)%Z -> scaled ps bins = true ->
  In p ps -> In q ps -> p <= q ->
  exists i j,
    bucket ps bins p = Some i /\ bucket ps bins q = Some j /\ (i <= j)%nat.
Proof.
  intros Hne Hb S Hp Hq Hpq.
  destruct (@index_scaled ps bins p Hne) as [kp [Ep Hkp]]; [lia | exact S | exact Hp |].
  destruct (@index_scaled ps bins q Hne) as [kq [Eq Hkq]]; [lia | exact S | exact Hq |].
  assert (M : Num.le (index_of (List.map Fin ps) bins (Fin p))
                     (index_of (List.map Fin ps) bins (Fin q)) = true)
    by (apply index_mono; try assumption; lia).
  rewrite Ep, Eq, le_of_Z in M. apply Z.leb_le in M.
  exists (Z.to_nat kp), (Z.to_nat kq). unfold bucket.
  rewrite Ep, Eq, !as_index_of_Z by lia.
  split; [reflexivity |]. split; [reflexivity | lia].
Qed.

Lemma bucket_monotone_witness :
  exists i j,
    bucket Sample.profits 3 2 = Some i /\ bucket Sample.profits 3 4 = Some j /\
    (i <= j)%nat.
Proof.
  apply (@bucket_monotone Sample.profits 3 2 4).
  - discriminate.
  - split; vm_compute; discriminate.
  - vm_compute. reflexivity.
  - right. now left.
  - right. right. now left.
  - vm_compute. discriminate.
Defined.

(** ** Errors and the order of the values *)

Lemma makeHistogram_throw {engine : Engine} (profits : list num) (bins : Z) :
  profits <> [] ->
  (max_arguments < Z.of_nat (List.length profits) \/ bins < 0 \/ 2 ^ 32 - 1 < bins)%Z ->
  Analysis.makeHistogram profits bins = Throw RangeError.
Proof.
  intros Hne H. unfold Analysis.makeHistogram.
  destruct profits as [| p t] eqn:E; [congruence |]. rewrite <- E in *.
  replace (Nat.eqb (List.length profits) 0) with false by (now rewrite E).
  destruct (Z_lt_le_dec max_arguments (Z.of_nat (List.length profits))) as [L | L].
  - now rewrite spread_too_long.
  - rewrite !spread_ok by exact L. cbn [bind].
    rewrite new_array_throws by lia. reflexivity.
Qed.



Lemma least_perm (m : Q) (ps ps' : list Q) :
  Permutation ps ps' -> least m ps -> least m ps'.
Proof.
  intros HP [Hle [w [Hin Hw]]]. split.
  - intros p Hp. apply Hle. apply Permutation_in with ps'; [| exact Hp].
    now apply Permutation_sym.
  - exists w. split; [now apply Permutation_in with ps | exact Hw].
Qed.

Lemma greatest_perm (m : Q) (ps ps' : list Q) :
  Permutation ps ps' -> greatest m ps -> greatest m ps'.
Proof.
  intros HP [Hle [w [Hin Hw]]]. split.
  - intros p Hp. apply Hle. apply Permutation_in with ps'; [| exact Hp].
    now apply Permutation_sym.
  - exists w. split; [now apply Permutation_in with ps | exact Hw].
Qed.

Lemma perm_nonempty (A : Type) (l l' : list A) :
  Permutation l l' -> l <> [] -> l' <> [].
Proof.
  intros HP Hne ->. apply Hne. now apply Permutation_nil, Permutation_sym.
Qed.

Lemma qmin_perm (ps ps' : list Q) :
  ps <> [] -> Permutation ps ps' -> qmin ps == qmin ps'.
Proof.
  intros Hne HP. apply least_unique with ps'.
  - apply least_perm with ps; [exact HP | now apply qmin_least].
  - apply qmin_least. now apply perm_nonempty with ps.
Qed.

Lemma qmax_perm (ps ps' : list Q) :
  ps <> [] -> Permutation ps ps' -> qmax ps == qmax ps'.
Proof.
  intros Hne HP. apply greatest_unique with ps'.
  - apply greatest_perm with ps; [exact HP | now apply qmax_greatest].
  - apply qmax_greatest. now apply perm_nonempty with ps.
Qed.

Lemma hist_binWidth_perm (ps ps' : list Q) (bins : Z) :
  ps <> [] -> Permutation ps ps' ->
  Analysis.hist_binWidth (List.map Fin ps) bins
  = Analysis.hist_binWidth (List.map Fin ps') bins.
Proof.
  intros Hne HP. assert (Hne' : ps' <> []) by (now apply perm_nonempty with ps).
  unfold Analysis.hist_binWidth.
  rewrite (hist_range_q Hne), (hist_range_q Hne').
  now rewrite (sub_comp (qmax_perm Hne HP) (qmin_perm Hne HP)).
Qed.

Lemma index_perm (ps ps' : list Q) (bins : Z) (p : Q) :
  ps <> [] -> Permutation ps ps' ->
  index_of (List.map Fin ps) bins (Fin p) = index_of (List.map Fin ps') bins (Fin p).
Proof.
  intros Hne HP. assert (Hne' : ps' <> []) by (now apply perm_nonempty with ps).
  unfold index_of, Analysis.hist_index.
  rewrite (hist_binWidth_perm bins Hne HP).
  destruct (min_list_Fin Hne) as [m [-> Hm]].
  destruct (min_list_Fin Hne') as [m' [-> Hm']].
  assert (E : m == m') by (rewrite Hm, Hm'; now apply qmin_perm).
  now rewrite (sub_comp (Qeq_refl p) E).
Qed.

Lemma filter_length_perm (A : Type) (f : A -> bool) (l l' : list A) :
  Permutation l l' -> List.length (filter f l) = List.length (filter f l').
Proof.
  intros HP. induction HP as [| x l l' _ IH | x y l | l l' l'' _ IH1 _ IH2];
    cbn [filter].
  - reflexivity.
  - destruct (f x); cbn [List.length]; now rewrite IH.
  - destruct (f x), (f y); reflexivity.
  - now rewrite IH1.
Qed.

Lemma existsb_perm (A : Type) (f : A -> bool) (l l' : list A) :
  Permutation l l' -> existsb f l = existsb f l'.
Proof.
  intros HP. induction HP as [| x l l' _ IH | x y l | l l' l'' _ IH1 _ IH2];
    cbn [existsb].
  - reflexivity.
  - now rewrite IH.
  - destruct (f x), (f y); reflexivity.
  - now rewrite IH1.
Qed.

Lemma existsb_pointwise (A : Type) (f g : A -> bool) (l : list A) :
  (forall x, f x = g x) -> existsb f l = existsb g l.
Proof.
  intros H. induction l as [| x t IH]; cbn [existsb]; [reflexivity |].
  now rewrite H, IH.
Qed.

Lemma bucket_perm (ps ps' : list Q) (bins : Z) (p : Q) :
  ps <> [] -> Permutation ps ps' -> bucket ps bins p = bucket ps' bins p.
Proof. intros Hne HP. unfold bucket. now rewrite (index_perm bins p Hne HP). Qed.

Lemma bucket_size_perm (ps ps' : list Q) (bins : Z) (i : nat) :
  ps <> [] -> Permutation ps ps' ->
  bucket_size ps bins i = bucket_size ps' bins i.
Proof.
  intros Hne HP. unfold bucket_size.
  rewrite (filter_length_perm _ HP). f_equal. apply filter_ext.
  intros p. unfold in_bucket. now rewrite (bucket_perm bins p Hne HP).
Qed.

Lemma some_lost_perm (ps ps' : list Q) (bins : Z) :
  ps <> [] -> Permutation ps ps' ->
  some_lost ps bins ps = some_lost ps' bins ps'.
Proof.
  intros Hne HP. unfold some_lost. rewrite (existsb_perm _ HP).
  apply existsb_pointwise. intros p. now rewrite (bucket_perm bins p Hne HP).
Qed.

Lemma some_at_perm (ps ps' : list Q) (bins : Z) (k : num) :
  ps <> [] -> Permutation ps ps' ->
  some_at ps bins k ps = some_at ps' bins k ps'.
Proof.
  intros Hne HP. unfold some_at. rewrite (existsb_perm _ HP).
  apply existsb_pointwise. intros p. now rewrite (index_perm bins p Hne HP).
Qed.

Lemma dashed_label_perm {engine : Engine} (ps ps' : list Q) (bins : Z) (i : nat) :
  ps <> [] -> Permutation ps ps' -> dashed_label ps bins i = dashed_label ps' bins i.
Proof.
  intros Hne HP. unfold dashed_label.
  rewrite (hist_binWidth_perm bins Hne HP).
  now rewrite (add_comp_l _ (qmin_perm Hne HP)).
Qed.

Lemma same_histogram_refl (a : completion Analysis.Histogram) :
  same_histogram a a.
Proof.
  destruct a as [h | e]; cbn [same_histogram]; [| reflexivity].
  split; [reflexivity |]. split; [reflexivity | apply Permutation_refl].
Qed.

(** With no bins and an overflowing range the order of the values shows
    in the order of the two properties that the array of counts gets. *)
Example property_order_follows_values :
  Analysis.makeHistogram (engine := Sample.engine)
    [Fin (inject_Z (2 ^ 1023)); Fin (inject_Z (- 2 ^ 1023))] 0
  = Normal (Analysis.mkHistogram Arr.empty
              (Arr.mk [] [(NaN, NaN); (of_Z (-1), NaN)])) /\
  Analysis.makeHistogram (engine := Sample.engine)
    [Fin (inject_Z (- 2 ^ 1023)); Fin (inject_Z (2 ^ 1023))] 0
  = Normal (Analysis.mkHistogram Arr.empty
              (Arr.mk [] [(of_Z (-1), NaN); (NaN, NaN)])).
Proof. split; vm_compute; reflexivity. Qed.

(** X5. The histogram does not depend on the order of the profits: two
    lists with the same values in another order give the same labels and
    the same counts, or the same error, for every number of bins; with
    no bins, where the array of counts gets properties only, these can
    come in another order. *)
Theorem histogram_order_independent {engine : Engine}
  (ps ps' : list Q) (bins : Z) :
  Permutation ps ps' ->
  same_histogram (Analysis.makeHistogram (List.map Fin ps) bins)
                 (Analysis.makeHistogram (List.map Fin ps') bins) /\
  (bins <> 0%Z ->
   Analysis.makeHistogram (List.map Fin ps) bins
   = Analysis.makeHistogram (List.map Fin ps') bins).
Proof.
  intros HP. destruct ps as [| p0 t] eqn:Eps.
  - apply Permutation_nil in HP. subst ps'.
    split; [apply same_histogram_refl | reflexivity].
  - rewrite <- Eps in *.
    assert (Hne : ps <> []) by (rewrite Eps; discriminate).
    assert (Hne' : ps' <> []) by (now apply perm_nonempty with ps).
    assert (Mne : List.map Fin ps <> [])
      by (intros E; apply map_eq_nil in E; now apply Hne).
    assert (Mne' : List.map Fin ps' <> [])
      by (intros E; apply map_eq_nil in E; now apply Hne').
    pose proof (Permutation_length HP) as HL.
    destruct (Z_lt_le_dec max_arguments (Z.of_nat (List.length ps))) as [L | L].
    { rewrite !makeHistogram_throw; try assumption;
        try (left; rewrite length_map; lia).
      split; reflexivity. }
    destruct (Z_lt_le_dec bins 0) as [B0 | B0].
    { rewrite !makeHistogram_throw; try assumption; try (right; now left).
      split; reflexivity. }
    destruct (Z_lt_le_dec (2 ^ 32 - 1) bins) as [B1 | B1].
    { rewrite !makeHistogram_throw; try assumption; try (right; now right).
      split; reflexivity. }
    assert (L' : (Z.of_nat (List.length ps') <= max_arguments)%Z) by lia.
    destruct (Z.eq_dec bins 0) as [-> | NZ].
    + split; [| congruence].
      destruct (makeHistogram_no_bins Hne L) as [f ->].
      destruct (makeHistogram_no_bins Hne' L') as [f' ->].
      cbn [same_histogram Analysis.labels Analysis.counts Arr.elems Arr.props].
      split; [reflexivity |]. split; [reflexivity |].
      rewrite <- !(some_at_perm 0 _ Hne HP). apply stray_perm.
    + assert (Hb : (1 <= bins <= 2 ^ 32 - 1)%Z) by lia.
      assert (E : Analysis.makeHistogram (List.map Fin ps) bins
                  = Analysis.makeHistogram (List.map Fin ps') bins).
      { rewrite (makeHistogram_value Hne L Hb), (makeHistogram_value Hne' L' Hb).
        rewrite (some_lost_perm bins Hne HP).
        do 2 f_equal.
        - f_equal. apply map_ext. intros i. f_equal. now apply dashed_label_perm.
        - f_equal. apply map_ext. intros i. now apply bucket_size_perm. }
      rewrite E. split; [apply same_histogram_refl | reflexivity].
Qed.

Lemma histogram_order_independent_witness :
  Analysis.makeHistogram (engine := Sample.engine)
    (List.map Fin [1; 2; 4; 8]%Q) 3
  = Analysis.makeHistogram (engine := Sample.engine)
      (List.map Fin [8; 2; 1; 4]%Q) 3.
Proof.
  apply (@histogram_order_independent Sample.engine).
  - apply perm_trans with [2; 1; 4; 8]%Q; [apply perm_swap |].
    apply perm_trans with [2; 1; 8; 4]%Q;
      [do 2 apply perm_skip; apply perm_swap |].
    apply perm_trans with [2; 8; 1; 4]%Q; [apply perm_skip, perm_swap |].
    apply perm_swap.
  - discriminate.
Defined.

(** X6. What the charts receive is aligned: whenever [makeHistogram]
    returns, it has as many labels as counts, and the cumulative series
    has as many short labels, and full labels, as values. *)
Theorem chart_data_aligned {engine : Engine}
  (ps : list Q) (bins : Z) (ts : list Analysis.Trade) (h : Analysis.Histogram) :
  Analysis.makeHistogram (List.map Fin ps) bins = Normal h ->
  Arr.length (fst (Analysis.histData h)) = Arr.length (snd (Analysis.histData h))
  /\ List.length (fst (Analysis.lineData (Analysis.timeseries ts)))
     = List.length (snd (Analysis.lineData (Analysis.timeseries ts)))
  /\ List.length (Analysis.fullLabels (Analysis.timeseries ts))
     = List.length (Analysis.cum (Analysis.timeseries ts)).
Proof.
  intros Hh. split.
  - destruct ps as [| p0 t] eqn:Eps.
    + cbn in Hh. injection Hh as <-. reflexivity.
    + rewrite <- Eps in *.
      assert (Hne : ps <> []) by (rewrite Eps; discriminate).
      assert (Mne : List.map Fin ps <> [])
        by (intros E; apply map_eq_nil in E; now apply Hne).
      destruct (Z_lt_le_dec max_arguments (Z.of_nat (List.length ps))) as [L | L].
      { rewrite makeHistogram_throw in Hh; [discriminate | exact Mne |].
        left. rewrite length_map. lia. }
      destruct (Z_lt_le_dec bins 0) as [B0 | B0].
      { rewrite makeHistogram_throw in Hh; [discriminate | exact Mne |].
        right. now left. }
      destruct (Z_lt_le_dec (2 ^ 32 - 1) bins) as [B1 | B1].
      { rewrite makeHistogram_throw in Hh; [discriminate | exact Mne |].
        right. now right. }
      destruct (Z.eq_dec bins 0) as [-> | NZ].
      * destruct (makeHistogram_no_bins Hne L) as [f Hf].
        rewrite Hf in Hh. injection Hh as <-. reflexivity.
      * assert (Hb : (1 <= bins <= 2 ^ 32 - 1)%Z) by lia.
        rewrite (makeHistogram_value Hne L Hb) in Hh. injection Hh as <-.
        unfold Analysis.histData, Arr.length, counting_array.
        cbn [fst snd Analysis.labels Analysis.counts Arr.elems].
        now rewrite !length_map.
  - unfold Analysis.lineData, Analysis.timeseries.
    cbn [fst snd Analysis.shortLabels Analysis.cum Analysis.fullLabels].
    now rewrite !length_map, cum_loop_length.
Qed.

Lemma chart_data_aligned_witness :
  exists h,
    Analysis.makeHistogram (engine := Sample.engine)
      (List.map Fin Sample.profits) 3 = Normal h /\
    (Arr.length (fst (Analysis.histData h)) = Arr.length (snd (Analysis.histData h))
     /\ List.length
          (fst (Analysis.lineData
                  (Analysis.timeseries (engine := Sample.engine)
                     [Sample.second_trade; Sample.first_trade])))
        = List.length
            (snd (Analysis.lineData
                    (Analysis.timeseries (engine := Sample.engine)
                       [Sample.second_trade; Sample.first_trade])))
     /\ List.length
          (Analysis.fullLabels
             (Analysis.timeseries (engine := Sample.engine)
                [Sample.second_trade; Sample.first_trade]))
        = List.length
            (Analysis.cum
               (Analysis.timeseries (engine := Sample.engine)
                  [Sample.second_trade; Sample.first_trade]))).
Proof.
  eexists. split.
  - vm_compute. reflexivity.
  - apply (@chart_data_aligned Sample.engine Sample.profits 3
             [Sample.second_trade; Sample.first_trade]).
    vm_compute. reflexivity.
Defined.

(** ** Further facts on the summary statistics *)

Lemma round_one : Num.round 1 = one.
Proof. change 1 with (inject_Z 1). rewrite round_of_Z by (cbn; lia). reflexivity. Qed.

(** the quotient of a count by a count that is no smaller *)
Lemma ratio_bounds (w n : nat) :
  (w <= n)%nat -> n <> O ->
  exists q, (of_nat w / of_nat n)%num = Fin q /\ 0 <= q <= 1.
Proof.
  intros Hwn Hn. unfold of_nat, of_Z. cbn [Num.div].
  pose proof (inject_nat_pos Hn) as Pn.
  assert (Zn : is_zero (inject_Z (Z.of_nat n)) = false) by (apply is_zero_false; lra).
  rewrite Zn.
  assert (W0 : 0 <= inject_Z (Z.of_nat w))
    by (change 0 with (inject_Z 0); rewrite <- Zle_Qle; lia).
  assert (Wn : inject_Z (Z.of_nat w) <= inject_Z (Z.of_nat n))
    by (rewrite <- Zle_Qle; lia).
  set (x := inject_Z (Z.of_nat w) / inject_Z (Z.of_nat n)).
  assert (X0 : 0 <= x) by (apply Qle_shift_div_l; lra).
  assert (X1 : x <= 1) by (apply Qle_shift_div_r; lra).
  pose proof (round_nonneg X0) as R0. pose proof (round_mono X1) as R1.
  rewrite round_one in R1.
  destruct (Num.round x) as [q | | |]; try discriminate.
  exists q. split; [reflexivity |].
  apply le_Fin in R0, R1. lra.
Qed.

Lemma percent_bounds (q : Q) :
  0 <= q <= 1 ->
  Num.le zero (Fin q * of_Z 100)%num = true /\
  Num.le (Fin q * of_Z 100)%num (of_Z 100) = true.
Proof.
  intros [H0 H1]. unfold of_Z at 1 2. cbn [Num.mul].
  change (inject_Z 100) with 100. split.
  - apply round_nonneg. lra.
  - rewrite <- (round_of_Z 100) by (cbn; lia).
    apply round_mono. change (inject_Z 100) with 100. lra.
Qed.

(** X7. The win rate stays in its range: it is a number between 0 and
    100, whatever the trades. *)
Theorem stats_in_range (ts : list Analysis.Trade) :
  let s := Analysis.computeStats ts in
  Num.le zero (Analysis.winRate s) = true /\
  Num.le (Analysis.winRate s) (of_Z 100) = true.
Proof.
  intros s. unfold s. rewrite computeStats_value. cbn [Analysis.winRate].
  destruct (Nat.eqb (List.length ts) 0) eqn:E; [split; reflexivity |].
  apply Nat.eqb_neq in E.
  destruct (@ratio_bounds
              (List.length (filter (fun t => is_win (Analysis.profit t)) ts))
              (List.length ts)) as [q [Hq B]];
    [apply filter_length_le | exact E |].
  rewrite Hq. now apply percent_bounds.
Qed.

(** X8. The number of trades and the win rate do not depend on the order
    of the trades; the net sum and the average do, the sum being
    accumulated in binary64 in the order of the list. *)
Theorem stats_order_independent (ts ts' : list Analysis.Trade) :
  Permutation ts ts' ->
  Analysis.total (Analysis.computeStats ts)
  = Analysis.total (Analysis.computeStats ts') /\
  Analysis.winRate (Analysis.computeStats ts)
  = Analysis.winRate (Analysis.computeStats ts').
Proof.
  intros HP. rewrite !computeStats_value.
  cbn [Analysis.total Analysis.winRate].
  rewrite <- (Permutation_length HP).
  rewrite <- (filter_length_perm (fun t => is_win (Analysis.profit t)) HP).
  split; reflexivity.
Qed.

Lemma stats_order_independent_witness :
  Analysis.total (Analysis.computeStats [Sample.first_trade; Sample.second_trade])
  = Analysis.total (Analysis.computeStats [Sample.second_trade; Sample.first_trade])
  /\
  Analysis.winRate (Analysis.computeStats [Sample.first_trade; Sample.second_trade])
  = Analysis.winRate (Analysis.computeStats [Sample.second_trade; Sample.first_trade]).
Proof.
  apply stats_order_independent. apply perm_swap.
Defined.

(** ** The two pages on the same closed trades *)

Lemma history_wins (rows : list Dashboard.Trade) :
  List.length
    (filter (fun t => Num.ge (Dashboard.profit_or_0 (Dashboard.profit t)) zero) rows)
  = List.length
      (filter (fun p => Num.ge p zero)
         (List.map (fun t => Analysis.profit_or_0 (Analysis.profit t))
            (List.map as_analysis rows))).
Proof.
  induction rows as [| t rest IH]; cbn [List.map filter]; [reflexivity |].
  cbn [as_analysis Analysis.profit].
  change Dashboard.profit_or_0 with Analysis.profit_or_0 in *.
  destruct (Num.ge (Analysis.profit_or_0 (Dashboard.profit t)) zero);
    cbn [List.length]; now rewrite IH.
Qed.

(** X10. The dashboard and the analysis page agree on the closed trades:
    the closed profit of the dashboard is the net sum the analysis page
    computes for them, and the win rate the dashboard prints is the win
    rate of the analysis page printed with one decimal, except without
    any closed trade, where the dashboard prints "0" and the analysis
    page "0.0". *)
Theorem pages_agree {engine : Engine} (rows : list Dashboard.Trade) :
  let closed := List.map as_analysis (Dashboard.historyTrades rows) in
  Dashboard.totalClosedProfit rows
  = Analysis.sum (Analysis.computeStats closed) /\
  (Dashboard.historyTrades rows <> [] ->
   Dashboard.winRate rows
   = toFixed (Analysis.winRate (Analysis.computeStats closed)) 1) /\
  (Dashboard.historyTrades rows = [] ->
   Dashboard.winRate rows = "0" /\
   toFixed (Analysis.winRate (Analysis.computeStats closed)) 1 = "0.0").
Proof.
  intros closed. split; [| split].
  - rewrite totalClosedProfit_sum. unfold closed. rewrite stats_sum.
    now rewrite List.map_map.
  - intros Hne. unfold Dashboard.winRate, closed, Analysis.computeStats.
    cbn [Analysis.winRate]. rewrite !length_map.
    set (h := Dashboard.historyTrades rows) in *.
    assert (Hn : List.length h <> O) by (destruct h; [congruence | discriminate]).
    rewrite truthy_of_nat.
    replace (Nat.eqb (List.length h) 0) with false
      by (symmetry; now apply Nat.eqb_neq).
    replace (Nat.ltb 0 (List.length h)) with true
      by (symmetry; apply Nat.ltb_lt; lia).
    cbn [negb]. now rewrite history_wins.
  - intros He. unfold Dashboard.winRate, closed. rewrite He.
    split; reflexivity.
Qed.

Lemma pages_agree_witness :
  Dashboard.winRate (engine := Sample.engine)
    [Sample.closed_1; Sample.active_2; Sample.closed_3]
  = toFixed (engine := Sample.engine)
      (Analysis.winRate
         (Analysis.computeStats
            (List.map as_analysis
               (Dashboard.historyTrades
                  [Sample.closed_1; Sample.active_2; Sample.closed_3])))) 1.
Proof.
  destruct (@pages_agree Sample.engine
              [Sample.closed_1; Sample.active_2; Sample.closed_3])
    as (_ & H & _).
  apply H. discriminate.
Defined.

(** ** Further facts on the cumulative series *)

(** X11. Rows that arrive in ascending order of [open_time], as the
    query of the analysis page asks for them, are left in their order of
    arrival by [timeseries] (trades with equal times included), and the
    series is then the running binary64 sum of the profits in that
    order. *)
Theorem timeseries_keeps_ascending_rows {engine : Engine}
  (ts : list Analysis.Trade) :
  let kept := filter has_open_time ts in
  Forall dated kept -> ascending_open_time kept ->
  Analysis.sorted_trades ts = kept /\
  Analysis.cum (Analysis.timeseries ts)
  = List.map (fun k => float_sum (List.map trade_value (firstn (S k) kept)))
      (seq 0 (List.length kept)).
Proof.
  intros kept Hd Hs.
  assert (E : Analysis.sorted_trades ts = kept).
  { apply sort_ascending_id; [exact Hd |].
    now apply ascending_opened_before. }
  split; [exact E |].
  rewrite series_values. now rewrite E.
Qed.

Lemma timeseries_keeps_ascending_rows_witness :
  Analysis.sorted_trades (engine := Sample.engine)
    [Sample.first_trade; Sample.undated_trade; Sample.second_trade;
     Sample.third_trade]
  = [Sample.first_trade; Sample.second_trade; Sample.third_trade].
Proof.
  apply (@timeseries_keeps_ascending_rows Sample.engine
           [Sample.first_trade; Sample.undated_trade; Sample.second_trade;
            Sample.third_trade]).
  - repeat constructor.
  - repeat constructor.
Defined.

(** X12. When the kept trades have valid opening times that differ from
    one another, the result of [timeseries] does not depend on the order
    in which the trades are given. *)
Theorem timeseries_order_independent {engine : Engine}
  (ts ts' : list Analysis.Trade) :
  Permutation ts ts' ->
  Forall dated (filter has_open_time ts) ->
  distinct_times (filter has_open_time ts) ->
  Analysis.timeseries ts = Analysis.timeseries ts'.
Proof.
  intros HP Hd Hdist.
  unfold Analysis.timeseries. now rewrite (sorted_trades_perm HP Hd Hdist).
Qed.

Lemma timeseries_order_independent_witness :
  Analysis.timeseries (engine := Sample.engine)
    [Sample.first_trade; Sample.second_trade]
  = Analysis.timeseries (engine := Sample.engine)
      [Sample.second_trade; Sample.first_trade].
Proof.
  apply (@timeseries_order_independent Sample.engine).
  - apply perm_swap.
  - repeat constructor.
  - repeat constructor.
Defined.

(** ** The short labels *)

Lemma string_length_append (a b : string) :
  String.length (a ++ b) = (String.length a + String.length b)%nat.
Proof.
  induction a as [| c a IH]; cbn [append String.length Nat.add];
    [reflexivity | now rewrite IH].
Qed.

Section ShortLabels.
Context {engine : Engine}.

Lemma padded_two_digits (n : Z) :
  (0 <= n <= 99)%Z ->
  padStart0 (toString (of_Z n)) 2 = two_digits n /\
  String.length (two_digits n) = 2%nat.
Proof.
  intros Hn.
  assert (Hall :
    forallb (fun k =>
               String.eqb (padStart0 (toString (of_nat k)) 2)
                          (two_digits (Z.of_nat k))
               && Nat.eqb (String.length (two_digits (Z.of_nat k))) 2)
            (seq 0 100) = true) by (vm_compute; reflexivity).
  rewrite forallb_forall in Hall.
  specialize (Hall (Z.to_nat n)).
  assert (Hin : In (Z.to_nat n) (seq 0 100)) by (apply in_seq; lia).
  apply Hall in Hin. apply andb_true_iff in Hin. destruct Hin as [H1 H2].
  unfold of_nat in H1. rewrite Z2Nat.id in H1, H2 by lia.
  split; [now apply String.eqb_eq | now apply Nat.eqb_eq].
Qed.

End ShortLabels.

(** X13. The short label of a trade whose opening time is a valid date
    is the day and the month, each with two digits, joined by a slash:
    five characters.  For an invalid date it is ["NaN/NaN"]. *)
Theorem short_label_format {engine : Engine}
  (t : Analysis.Trade) (s : string) (d m : Z) :
  Analysis.open_time t = Some s ->
  (date_getDate s = of_Z d -> date_getMonth s = of_Z m ->
   (1 <= d <= 31)%Z -> (0 <= m <= 11)%Z ->
   Analysis.shortLabel t = two_digits d ++ "/" ++ two_digits (m + 1) /\
   String.length (Analysis.shortLabel t) = 5%nat) /\
  (date_getDate s = NaN -> date_getMonth s = NaN ->
   Analysis.shortLabel t = "NaN/NaN").
Proof.
  intros Ht. unfold Analysis.shortLabel. rewrite Ht. split.
  - intros Hd Hm Rd Rm. rewrite Hd, Hm.
    change one with (of_Z 1). rewrite add_of_Z by lia.
    destruct (@padded_two_digits engine d) as [Ed Ld]; [lia |].
    destruct (@padded_two_digits engine (m + 1)) as [Em Lm]; [lia |].
    rewrite Ed, Em. split; [reflexivity |].
    rewrite !string_length_append, Ld, Lm. reflexivity.
  - intros Hd Hm. rewrite Hd, Hm. reflexivity.
Qed.

Lemma short_label_format_witness :
  Analysis.shortLabel (engine := Sample.engine) Sample.second_trade
  = two_digits 2 ++ "/" ++ two_digits (0 + 1) /\
  String.length (Analysis.shortLabel (engine := Sample.engine) Sample.second_trade)
  = 5%nat.
Proof.
  destruct (@short_label_format Sample.engine Sample.second_trade
              "2024-01-02" 2 0 eq_refl) as [H _].
  apply H; try reflexivity; split; vm_compute; discriminate.
Defined.

(** ** Fetching on the analysis page *)

Lemma when_given_filters (s : option string) (mk : string -> string -> Query.filter)
  (q : Query.t) :
  Query.filters
    (Analysis.when_given s (fun v => Query.add_filter (mk "open_time" v)) q)
  = (Query.filters q
     ++ match s with
        | Some v => if String.eqb v EmptyString then [] else [mk "open_time" v]
        | None => []
        end)%list.
Proof.
  unfold Analysis.when_given, string_truthy.
  destruct s as [v |]; [| now rewrite app_nil_r].
  destruct (String.eqb v EmptyString); cbn [negb];
    [now rewrite app_nil_r | reflexivity].
Qed.

(** X14. The query of the analysis page reads the columns [ticket],
    [profit] and [open_time] of the table [trades], without a limit, and
    bounds [open_time] inclusively: [>= from] when a lower bound is given
    and [<= to] when an upper bound is, an absent or empty bound adding
    no filter.  The Refresh button sends this query with the two dates of
    the form, an empty date being no bound. *)
Theorem trades_query_bounds (from to : option string) :
  let q := Analysis.trades_query from to in
  let bound := fun (mk : string -> string -> Query.filter) (s : option string) =>
    match s with
    | Some v => if String.eqb v EmptyString then [] else [mk "open_time" v]
    | None => []
    end in
  Query.table q = "trades" /\
  Query.columns q = Some "ticket,profit,open_time" /\
  Query.row_limit q = None /\
  Query.single_row q = false /\
  Query.filters q = (bound Query.Gte from ++ bound Query.Lte to)%list /\
  (forall (client : Analysis.Client) (fromDate toDate : string) (st : Analysis.State),
      snd (Analysis.refresh (Some client) fromDate toDate st)
      = [Analysis.trades_query
           (if String.eqb fromDate EmptyString then None else Some fromDate)
           (if String.eqb toDate EmptyString then None else Some toDate)]).
Proof.
  intros q bound. unfold q, Analysis.trades_query.
  split; [rewrite !when_given_table by reflexivity; reflexivity |].
  split; [destruct from as [f |], to as [t |]; unfold Analysis.when_given;
          repeat match goal with
                 | |- context [string_truthy ?s] => destruct (string_truthy s)
                 end; reflexivity |].
  split; [destruct from as [f |], to as [t |]; unfold Analysis.when_given;
          repeat match goal with
                 | |- context [string_truthy ?s] => destruct (string_truthy s)
                 end; reflexivity |].
  split; [destruct from as [f |], to as [t |]; unfold Analysis.when_given;
          repeat match goal with
                 | |- context [string_truthy ?s] => destruct (string_truthy s)
                 end; reflexivity |].
  split.
  - change (Query.gte "open_time") with
      (fun v => Query.add_filter (Query.Gte "open_time" v)).
    change (Query.lte "open_time") with
      (fun v => Query.add_filter (Query.Lte "open_time" v)).
    rewrite (when_given_filters to Query.Lte), (when_given_filters from Query.Gte).
    reflexivity.
  - intros client fromDate toDate st.
    unfold Analysis.refresh, Analysis.or_undefined, string_truthy.
    destruct (String.eqb fromDate EmptyString), (String.eqb toDate EmptyString);
      reflexivity.
Qed.

(** X15. After [fetchTrades] the loading flag is off, with or without a
    client and whatever the answer.  Without a client nothing is sent and
    the trades are kept; with one, an answer with rows replaces the
    trades by them, whatever they were, and an answer without data keeps
    the trades that were there. *)
Theorem fetchTrades_outcome (supabase : option Analysis.Client)
  (from to : option string) (st : Analysis.State) :
  let st' := fst (Analysis.fetchTrades supabase from to st) in
  Analysis.loading st' = false /\
  (supabase = None ->
   Analysis.trades st' = Analysis.trades st /\
   snd (Analysis.fetchTrades supabase from to st) = []) /\
  (forall client data,
      supabase = Some client ->
      client (Analysis.trades_query from to) = Some data ->
      st' = Analysis.mkState data false) /\
  (forall client,
      supabase = Some client ->
      client (Analysis.trades_query from to) = None ->
      st' = Analysis.mkState (Analysis.trades st) false).
Proof.
  intros st'. unfold st', Analysis.fetchTrades.
  split; [| split; [| split]].
  - destruct supabase as [c |]; [| reflexivity].
    cbn [fst]. destruct (c (Analysis.trades_query from to)); reflexivity.
  - intros ->. split; reflexivity.
  - intros client data -> E. cbn [fst]. rewrite E. reflexivity.
  - intros client -> E. cbn [fst]. rewrite E. reflexivity.
Qed.

Lemma fetchTrades_outcome_witness :
  fst (Analysis.fetchTrades (Some (Sample.createClient "url" "key")) None None
         Analysis.initial)
  = Analysis.mkState
      [Sample.first_trade; Sample.second_trade; Sample.third_trade] false.
Proof.
  destruct (@fetchTrades_outcome (Some (Sample.createClient "url" "key"))
              None None Analysis.initial) as (_ & _ & H & _).
  apply (H (Sample.createClient "url" "key")); reflexivity.
Defined.

Lemma supabase_none (createClient : string -> string -> Analysis.Client)
  (env : Analysis.Env) :
  Analysis.supabase createClient env = None
  <-> negb (string_truthy (Analysis.supabaseUrl env))
      || negb (string_truthy (Analysis.supabaseKey env)) = true.
Proof.
  unfold Analysis.supabase.
  destruct env as [[url |] [key |]];
    cbn [Analysis.supabaseUrl Analysis.supabaseKey].
  - destruct (string_truthy (Some url)), (string_truthy (Some key));
      cbn [andb negb orb]; split; intros H; try reflexivity; discriminate H.
  - destruct (string_truthy (Some url)); cbn; split; reflexivity.
  - cbn. split; reflexivity.
  - cbn. split; reflexivity.
Qed.

(** X16. The page shows the configuration banner exactly when there is
    no client.  After the initial load without a client nothing was sent
    and the trades are empty; with a client one unbounded ascending
    query was sent and the page shows its content.  In neither case does
    the page stay on the loading text. *)
Theorem page_after_initial_load
  (createClient : string -> string -> Analysis.Client) (env : Analysis.Env) :
  let client := Analysis.supabase createClient env in
  let st := fst (Analysis.initial_load client Analysis.initial) in
  let sent := snd (Analysis.initial_load client Analysis.initial) in
  (client = None <-> Analysis.view env st = Analysis.Banner) /\
  (client = None -> sent = [] /\ Analysis.trades st = []) /\
  (client <> None ->
   Analysis.view env st = Analysis.Content /\
   exists q, sent = [q] /\ Query.filters q = [] /\
             ordered_ascending "open_time" q) /\
  Analysis.view env st <> Analysis.LoadingText.
Proof.
  intros client st sent.
  pose proof (supabase_none createClient env) as Hb. fold client in Hb.
  assert (Hload : Analysis.loading st = false).
  { unfold st, Analysis.initial_load, Analysis.fetchTrades.
    destruct client as [c |]; [| reflexivity].
    cbn [fst]. destruct (c (Analysis.trades_query None None)); reflexivity. }
  unfold Analysis.view. rewrite Hload.
  destruct (negb (string_truthy (Analysis.supabaseUrl env))
            || negb (string_truthy (Analysis.supabaseKey env))) eqn:B.
  - assert (Hc : client = None) by (now apply Hb).
    split; [split; [reflexivity | intros _; exact Hc] |].
    split.
    { intros _. unfold sent, st. rewrite Hc. split; reflexivity. }
    split; [intros H; now contradiction H | discriminate].
  - assert (Hc : client <> None).
    { intros E. apply Hb in E. discriminate E. }
    split; [split; [intros E; now contradiction Hc | discriminate] |].
    split; [intros E; now contradiction Hc |].
    split; [| discriminate].
    intros _. split; [reflexivity |].
    exists (Analysis.trades_query None None).
    unfold sent, Analysis.initial_load, Analysis.fetchTrades.
    destruct client as [c |]; [| now contradiction Hc].
    repeat split.
Qed.

Lemma page_after_initial_load_witness :
  Analysis.view (Analysis.mkEnv (Some "https://db") (Some "key"))
    (fst (Analysis.initial_load
            (Analysis.supabase Sample.createClient
               (Analysis.mkEnv (Some "https://db") (Some "key")))
            Analysis.initial))
  = Analysis.Content
  /\ (snd (Analysis.initial_load
             (Analysis.supabase Sample.createClient (Analysis.mkEnv None (Some "key")))
             Analysis.initial) = []
      /\ Analysis.trades
           (fst (Analysis.initial_load
                   (Analysis.supabase Sample.createClient
                      (Analysis.mkEnv None (Some "key")))
                   Analysis.initial)) = []).
Proof.
  split.
  - destruct (@page_after_initial_load Sample.createClient
                (Analysis.mkEnv (Some "https://db") (Some "key")))
      as (_ & _ & H & _).
    apply H. discriminate.
  - destruct (@page_after_initial_load Sample.createClient
                (Analysis.mkEnv None (Some "key")))
      as (_ & H & _).
    apply H. reflexivity.
Defined.

(** ** The dashboard: partition, fetching and notifications *)

Lemma partition_perm (A : Type) (f : A -> bool) (l : list A) :
  Permutation l (filter f l ++ filter (fun x => negb (f x)) l).
Proof.
  induction l as [| x t IH]; cbn [filter app]; [apply Permutation_refl |].
  destruct (f x); cbn [negb app].
  - now apply perm_skip.
  - apply Permutation_cons_app. exact IH.
Qed.

(** X17. The active and the history trades partition the trades: every
    trade is in exactly one of the two lists, active when its
    [close_time] is null and history otherwise, and the two lists
    together are the trades, each list in the order of the trades. *)
Theorem active_history_partition (trades : list Dashboard.Trade) :
  Permutation trades
    (Dashboard.activeTrades trades ++ Dashboard.historyTrades trades) /\
  (List.length (Dashboard.activeTrades trades)
   + List.length (Dashboard.historyTrades trades))%nat = List.length trades /\
  (forall t, In t (Dashboard.activeTrades trades)
             <-> In t trades /\ Dashboard.close_time t = None) /\
  (forall t, In t (Dashboard.historyTrades trades)
             <-> In t trades /\ Dashboard.close_time t <> None) /\
  (forall t, ~ (In t (Dashboard.activeTrades trades)
                /\ In t (Dashboard.historyTrades trades))) /\
  (forall ts1 ts2,
      Dashboard.activeTrades (ts1 ++ ts2)
      = (Dashboard.activeTrades ts1 ++ Dashboard.activeTrades ts2)%list /\
      Dashboard.historyTrades (ts1 ++ ts2)
      = (Dashboard.historyTrades ts1 ++ Dashboard.historyTrades ts2)%list).
Proof.
  assert (Hact : forall t, In t (Dashboard.activeTrades trades)
                           <-> In t trades /\ Dashboard.close_time t = None).
  { intros t. unfold Dashboard.activeTrades. rewrite filter_In.
    destruct (Dashboard.close_time t); cbn; split; intros [H1 H2]; split;
      try assumption; try discriminate; reflexivity. }
  split; [apply partition_perm |].
  split.
  { rewrite <- length_app. symmetry. apply Permutation_length, partition_perm. }
  split; [exact Hact |].
  split; [intros t; apply history_closed |].
  split.
  { intros t [Ha Hh]. apply Hact in Ha. apply history_closed in Hh.
    destruct Ha as [_ Ha], Hh as [_ Hh]. now apply Hh. }
  intros ts1 ts2. split; apply filter_app.
Qed.

(** X18. [fetchData] always sends the same two queries, the trades and
    then the account, whatever the state and the answers.  An answer
    without data leaves its part of the state as it was, the two parts
    being updated independently; and fetching again from the same store
    changes nothing. *)
Theorem fetchData_outcome (supabase : Dashboard.Client) (st : Dashboard.State) :
  let st' := fst (Dashboard.fetchData supabase st) in
  snd (Dashboard.fetchData supabase st)
  = [Dashboard.trades_query; Dashboard.account_query] /\
  Dashboard.trades st'
  = match Dashboard.run_trades supabase Dashboard.trades_query with
    | Some rows => rows
    | None => Dashboard.trades st
    end /\
  Dashboard.account st'
  = match Dashboard.run_account supabase Dashboard.account_query with
    | Some row => Dashboard.mkAccount (Dashboard.balance row) (Dashboard.equity row)
    | None => Dashboard.account st
    end /\
  Dashboard.fetchData supabase st' = Dashboard.fetchData supabase st.
Proof.
  intros st'. unfold st', Dashboard.fetchData.
  destruct (Dashboard.run_trades supabase Dashboard.trades_query) as [rows |],
           (Dashboard.run_account supabase Dashboard.account_query) as [row |];
    cbn [fst snd Dashboard.trades Dashboard.account];
    repeat split; destruct st; reflexivity.
Qed.

Lemma run_sent (supabase : Dashboard.Client) (ns : list Dashboard.notification)
  (st : Dashboard.State) :
  snd (Dashboard.run supabase ns st)
  = flat_map (fun n => match n with
                       | Dashboard.TradesChanged =>
                           [Dashboard.trades_query; Dashboard.account_query]
                       | Dashboard.AccountChanged _ => []
                       end) ns.
Proof.
  revert st. induction ns as [| n rest IH]; intros st;
    cbn [Dashboard.run flat_map]; [reflexivity |].
  destruct (Dashboard.on_notification supabase n st) as [st1 sent1] eqn:E1.
  specialize (IH st1).
  destruct (Dashboard.run supabase rest st1) as [st2 sent2].
  cbn [snd] in *. rewrite IH. f_equal.
  destruct n as [| [row |]]; cbn [Dashboard.on_notification] in E1.
  - unfold Dashboard.fetchData in E1. now injection E1 as _ <-.
  - now injection E1 as _ <-.
  - now injection E1 as _ <-.
Qed.

Lemma on_notification_trades (supabase : Dashboard.Client)
  (rows : list Dashboard.Trade) (n : Dashboard.notification) (st : Dashboard.State) :
  serves supabase rows ->
  Dashboard.trades (fst (Dashboard.on_notification supabase n st))
  = match n with
    | Dashboard.TradesChanged => rows
    | Dashboard.AccountChanged _ => Dashboard.trades st
    end.
Proof.
  intros Hs. destruct n as [| [row |]]; cbn [Dashboard.on_notification fst];
    try reflexivity.
  unfold Dashboard.fetchData. rewrite (Hs Dashboard.trades_query).
  destruct (Dashboard.run_account supabase Dashboard.account_query); reflexivity.
Qed.

Lemma run_trades_after (supabase : Dashboard.Client)
  (rows : list Dashboard.Trade) (ns : list Dashboard.notification)
  (st : Dashboard.State) :
  serves supabase rows ->
  Dashboard.trades (fst (Dashboard.run supabase ns st))
  = if existsb (fun n => match n with
                         | Dashboard.TradesChanged => true
                         | Dashboard.AccountChanged _ => false
                         end) ns
    then rows else Dashboard.trades st.
Proof.
  intros Hs. revert st. induction ns as [| n rest IH]; intros st;
    cbn [Dashboard.run existsb]; [reflexivity |].
  pose proof (on_notification_trades n st Hs) as H1.
  destruct (Dashboard.on_notification supabase n st) as [st1 sent1].
  specialize (IH st1).
  destruct (Dashboard.run supabase rest st1) as [st2 sent2].
  cbn [fst] in *. rewrite IH, H1.
  destruct n as [| p]; cbn [orb]; [| reflexivity].
  now destruct (existsb _ rest).
Qed.

(** X19. Notifications.  A change of the account never touches the
    trades and sends no query, so that the two lists, the closed profit
    and the win rate stay as they are.  A change of the trades sends the
    two queries of a full reload.  Over any run of notifications the
    queries sent are two per change of the trades, and when the store
    answers the trades query with the same rows throughout, the trades
    held after the run are these rows as soon as one change of the
    trades was notified, and the trades held before otherwise. *)
Theorem notifications {engine : Engine} (supabase : Dashboard.Client)
  (ns : list Dashboard.notification) (st : Dashboard.State)
  (rows : list Dashboard.Trade) :
  (forall payload,
      let st' := fst (Dashboard.on_notification supabase
                        (Dashboard.AccountChanged payload) st) in
      snd (Dashboard.on_notification supabase (Dashboard.AccountChanged payload) st)
      = [] /\
      Dashboard.trades st' = Dashboard.trades st /\
      Dashboard.totalClosedProfit (Dashboard.trades st')
      = Dashboard.totalClosedProfit (Dashboard.trades st) /\
      Dashboard.winRate (Dashboard.trades st') = Dashboard.winRate (Dashboard.trades st)) /\
  Dashboard.on_notification supabase Dashboard.TradesChanged st
  = Dashboard.fetchData supabase st /\
  snd (Dashboard.run supabase ns st)
  = flat_map (fun n => match n with
                       | Dashboard.TradesChanged =>
                           [Dashboard.trades_query; Dashboard.account_query]
                       | Dashboard.AccountChanged _ => []
                       end) ns /\
  (serves supabase rows ->
   Dashboard.trades (fst (Dashboard.run supabase ns st))
   = if existsb (fun n => match n with
                          | Dashboard.TradesChanged => true
                          | Dashboard.AccountChanged _ => false
                          end) ns
     then rows else Dashboard.trades st).
Proof.
  split; [| split; [reflexivity | split; [apply run_sent |]]].
  - intros [row |]; cbn [Dashboard.on_notification fst snd Dashboard.trades];
      repeat split.
  - intros Hs. now apply run_trades_after.
Qed.

Lemma notifications_witness :
  Dashboard.trades
    (fst (Dashboard.run Sample.store
            [Dashboard.AccountChanged None; Dashboard.TradesChanged;
             Dashboard.AccountChanged (Some (Dashboard.mkAccount None None))]
            Dashboard.initial))
  = [Sample.closed_1; Sample.active_2; Sample.closed_3].
Proof.
  destruct (@notifications Sample.engine Sample.store
              [Dashboard.AccountChanged None; Dashboard.TradesChanged;
               Dashboard.AccountChanged (Some (Dashboard.mkAccount None None))]
              Dashboard.initial
              [Sample.closed_1; Sample.active_2; Sample.closed_3])
    as (_ & _ & _ & H).
  apply H. intros q. reflexivity.
Defined.

(** X20. Mounting.  Without a client the effect does nothing: the state
    is kept, nothing is sent, no channel is subscribed and the clean-up
    removes none.  With a client the effect does what [fetchData] does
    and subscribes one channel on the table [trades] and one on the table
    [account_stats], for every event of the schema [public]; the channels
    the clean-up removes are exactly those the effect subscribed. *)
Theorem mount_and_cleanup (supabase : option Dashboard.Client)
  (st : Dashboard.State) :
  snd (Dashboard.mount supabase st) = Dashboard.cleanup supabase /\
  (supabase = None -> Dashboard.mount supabase st = (st, [], [])) /\
  (forall client,
      supabase = Some client ->
      fst (Dashboard.mount supabase st) = Dashboard.fetchData client st /\
      List.map Dashboard.channel_table (snd (Dashboard.mount supabase st))
      = ["trades"; "account_stats"] /\
      Forall (fun c => Dashboard.channel_event c = "*"
                       /\ Dashboard.channel_schema c = "public")
             (snd (Dashboard.mount supabase st))).
Proof.
  split; [| split].
  - destruct supabase as [c |]; [| reflexivity].
    unfold Dashboard.mount. destruct (Dashboard.fetchData c st). reflexivity.
  - intros ->. reflexivity.
  - intros client ->. unfold Dashboard.mount.
    destruct (Dashboard.fetchData client st) as [st1 sent].
    cbn [fst snd]. repeat split. repeat constructor.
Qed.

Lemma mount_and_cleanup_witness :
  Dashboard.mount None Dashboard.initial = (Dashboard.initial, [], [])
  /\ fst (Dashboard.mount (Some Sample.store) Dashboard.initial)
     = Dashboard.fetchData Sample.store Dashboard.initial.
Proof.
  split.
  - destruct (@mount_and_cleanup None Dashboard.initial) as (_ & H & _).
    apply H. reflexivity.
  - destruct (@mount_and_cleanup (Some Sample.store) Dashboard.initial)
      as (_ & _ & H).
    apply (H Sample.store). reflexivity.
Defined.

(** ** The dashboard: how a profit is shown *)

Section ProfitCells.
Context {engine : Engine}.

Lemma toFixed_negative (q : Q) (f : nat) :
  q < 0 -> exists r, toFixed (Fin q) f = String "-" r.
Proof.
  intros Hq. unfold toFixed.
  assert (Hn : is_neg q = true) by (now apply is_neg_true).
  rewrite Hn.
  destruct (Qle_bool (inject_Z (pow10 21)) (Qabs q)).
  - eexists. reflexivity.
  - destruct f; eexists; reflexivity.
Qed.

Lemma profit_or_0_negative (p : option Q) :
  profit_value p < 0 -> Dashboard.profit_or_0 p = Fin (profit_value p).
Proof.
  destruct p as [q |]; cbn [profit_value Dashboard.profit_or_0]; intros H.
  - unfold or_else, truthy.
    replace (is_zero q) with false; [reflexivity |].
    symmetry. apply is_zero_false. lra.
  - lra.
Qed.

End ProfitCells.

(** X21. The profit of a history row and of the header carry their sign
    consistently.  A profit that is not negative (a missing one
    included) is shown green with a leading plus sign; a negative profit
    is shown red and its text starts with the minus sign of the number,
    never with a plus.  The header shows the closed profit, as the page
    has computed it, after a dollar sign: green when that number is not
    negative, and red with the minus sign right after the dollar sign
    when it is. *)
Theorem profit_sign_shown {engine : Engine}
  (t : Dashboard.Trade) (trades : list Dashboard.Trade) :
  let v := profit_value (Dashboard.profit t) in
  (0 <= v ->
   Dashboard.profit_class t = "text-green-400" /\
   Dashboard.profit_text t
   = "+" ++ toFixed (Dashboard.profit_or_0 (Dashboard.profit t)) 2) /\
  (v < 0 ->
   Dashboard.profit_class t = "text-red-400" /\
   exists r, Dashboard.profit_text t = "-" ++ r) /\
  (forall total, Dashboard.totalClosedProfit trades = Fin total -> 0 <= total ->
   Dashboard.header_class trades = "text-green-400" /\
   Dashboard.header_text trades = "$" ++ toFixed (Fin total) 2) /\
  (forall total, Dashboard.totalClosedProfit trades = Fin total -> total < 0 ->
   Dashboard.header_class trades = "text-red-400" /\
   exists r, Dashboard.header_text trades = "$-" ++ r).
Proof.
  intros v.
  assert (Hge : Num.ge (Dashboard.profit_or_0 (Dashboard.profit t)) zero
                = Qle_bool 0 v).
  { change Dashboard.profit_or_0 with Analysis.profit_or_0.
    apply ge_profit_or_0. }
  split; [| split; [| split]].
  - intros Hv. unfold Dashboard.profit_class, Dashboard.profit_text.
    rewrite Hge. replace (Qle_bool 0 v) with true
      by (symmetry; now apply Qle_bool_iff).
    split; reflexivity.
  - intros Hv. unfold Dashboard.profit_class, Dashboard.profit_text.
    rewrite Hge. replace (Qle_bool 0 v) with false
      by (symmetry; now apply Qle_bool_false).
    split; [reflexivity |].
    rewrite (profit_or_0_negative _ Hv).
    destruct (toFixed_negative 2 Hv) as [r Hr]. exists r. exact Hr.
  - intros total Htot Hv. unfold Dashboard.header_class, Dashboard.header_text.
    rewrite Htot. unfold Num.ge. cbn [Num.le zero].
    replace (Qle_bool 0 total) with true by (symmetry; now apply Qle_bool_iff).
    split; reflexivity.
  - intros total Htot Hv. unfold Dashboard.header_class, Dashboard.header_text.
    rewrite Htot. unfold Num.ge. cbn [Num.le zero].
    replace (Qle_bool 0 total) with false by (symmetry; now apply Qle_bool_false).
    split; [reflexivity |].
    destruct (toFixed_negative 2 Hv) as [r Hr]. exists r.
    rewrite Hr. reflexivity.
Qed.

Lemma profit_sign_shown_witness :
  (Dashboard.profit_class Sample.closed_3 = "text-red-400" /\
   exists r, Dashboard.profit_text (engine := Sample.engine) Sample.closed_3
             = "-" ++ r) /\
  (Dashboard.profit_class Sample.closed_1 = "text-green-400" /\
   Dashboard.profit_text (engine := Sample.engine) Sample.closed_1
   = "+" ++ toFixed (engine := Sample.engine)
              (Dashboard.profit_or_0 (Dashboard.profit Sample.closed_1)) 2) /\
  (Dashboard.header_class [Sample.closed_3] = "text-red-400" /\
   exists r, Dashboard.header_text (engine := Sample.engine) [Sample.closed_3]
             = "$-" ++ r).
Proof.
  split; [| split].
  - destruct (@profit_sign_shown Sample.engine Sample.closed_3 [])
      as (_ & H & _).
    apply H. reflexivity.
  - destruct (@profit_sign_shown Sample.engine Sample.closed_1 [])
      as (H & _).
    apply H. discriminate.
  - destruct (@profit_sign_shown Sample.engine Sample.closed_1 [Sample.closed_3])
      as (_ & _ & _ & H).
    apply (H (-40)); [reflexivity | reflexivity].
Defined.

(** The sign of the header is that of the binary64 sum, not of the exact
    one: the closed profits -1.7, 0.02 and 1.68 add up to zero in
    binary64, and the header is green with the text ["$0.00"], while
    their exact sum (of the three binary64 values) is below zero. *)
Example header_sign_of_rounded_sum :
  let rows := List.map (fun v => Dashboard.mkTrade 1 "XAUUSD" "BUY" 2000 (Some 2010%Q)
                                   (Some (nearest v)) "2024-01-01" (Some "2024-01-02")
                                   "{}")
                [-17 # 10; 2 # 100; 168 # 100] in
  Dashboard.totalClosedProfit rows = zero /\
  Dashboard.header_class rows = "text-green-400" /\
  Dashboard.header_text (engine := Sample.engine) rows = "$0.00" /\
  qsum (List.map row_value rows) < 0.
Proof. repeat split; vm_compute; reflexivity. Qed.

(** ** The histogram on the page *)

Lemma profits_finite (ts : list Analysis.Trade) :
  Analysis.profits ts = List.map Fin (page_values ts).
Proof.
  unfold Analysis.profits, page_values. rewrite List.map_map.
  apply map_ext. intros t.
  destruct (Analysis.profit t) as [v |]; cbn [Analysis.profit_or_0];
    [| reflexivity].
  unfold or_else, truthy. now destruct (is_zero v).
Qed.

(** X22. On the page the bars account for every trade: for a non-empty
    list of trades that a call can take as its arguments, a number of
    bins from 1 to [2^32 - 1] (the page offers 6 to 20) and a bin width
    that is a number other than zero, [makeHistogram] applied to the
    profits of the trades returns one label and one count per bin, and
    the counts add up to the total of the summary statistics. *)
Theorem page_histogram_total {engine : Engine}
  (ts : list Analysis.Trade) (bins : Z) :
  ts <> [] -> (Z.of_nat (List.length ts) <= max_arguments)%Z ->
  (1 <= bins <= 2 ^ 32 - 1)%Z -> scaled (page_values ts) bins = true ->
  exists h,
    Analysis.histogram ts bins = Normal h /\
    Arr.length (Analysis.labels h) = Z.to_nat bins /\
    Arr.length (Analysis.counts h) = Z.to_nat bins /\
    sum_values (Analysis.counts h)
    = of_nat (Analysis.total (Analysis.stats ts)).
Proof.
  intros Hne Hl Hb S. unfold Analysis.histogram. rewrite profits_finite.
  set (ps := page_values ts) in *.
  assert (Len : List.length ps = List.length ts)
    by (unfold ps, page_values; apply length_map).
  assert (Hps : ps <> []).
  { unfold ps, page_values. intros E. apply map_eq_nil in E. now apply Hne. }
  assert (Hl' : (Z.of_nat (List.length ps) <= max_arguments)%Z) by (now rewrite Len).
  eexists. split; [apply (makeHistogram_scaled Hps Hl' Hb S) |].
  cbn [Analysis.labels Analysis.counts]. unfold Arr.length, counts_array at 1.
  cbn [Arr.elems]. rewrite !length_map, length_seq.
  split; [reflexivity |]. split; [reflexivity |].
  rewrite sum_values_counts; rewrite (bucket_sizes_total Hps Hb S).
  - now rewrite Len.
  - pose proof max_arguments_small. lia.
Qed.

Lemma page_histogram_total_witness :
  exists h,
    Analysis.histogram (engine := Sample.engine)
      [Sample.first_trade; Sample.second_trade; Sample.third_trade] 12
    = Normal h /\
    Arr.length (Analysis.labels h) = Z.to_nat 12 /\
    Arr.length (Analysis.counts h) = Z.to_nat 12 /\
    sum_values (Analysis.counts h)
    = of_nat (Analysis.total
                (Analysis.stats
                   [Sample.first_trade; Sample.second_trade; Sample.third_trade])).
Proof.
  apply (@page_histogram_total Sample.engine).
  - discriminate.
  - vm_compute. discriminate.
  - split; vm_compute; discriminate.
  - vm_compute. reflexivity.
Defined.

(** ** The cumulative series without losses *)

Lemma settled_zero : settled zero.
Proof. right. exists 0. split; reflexivity. Qed.

(** adding a number that is not negative to a running sum *)
Lemma add_nonneg_step (x : num) (v : Q) :
  settled x -> 0 <= v ->
  Num.le x (x + Fin v)%num = true /\ settled (x + Fin v)%num.
Proof.
  intros [-> | [a [-> Ra]]] Hv.
  - split; [reflexivity | now left].
  - cbn [Num.add].
    assert (M : Num.le (Num.round a) (Num.round (a + v)) = true)
      by (apply round_mono; lra).
    rewrite Ra in M. split; [exact M |].
    destruct (Num.round (a + v)) as [b | | |] eqn:Rb; try discriminate M.
    + right. exists b. split; [reflexivity |]. now apply round_idem with (a + v).
    + now left.
Qed.

Lemma cum_loop_nondecreasing (l : list Analysis.Trade) (acc : num) :
  settled acc ->
  (forall t, In t l -> 0 <= trade_value t) ->
  Forall (fun x => Num.le acc x = true) (Analysis.cum_loop acc l) /\
  StronglySorted (fun x y => Num.le x y = true) (Analysis.cum_loop acc l).
Proof.
  revert acc. induction l as [| s t IH]; intros acc Hacc H; cbn [Analysis.cum_loop].
  - split; constructor.
  - rewrite add_profit_or_0.
    assert (Hs : 0 <= trade_value s) by (apply H; now left).
    destruct (@add_nonneg_step acc (profit_value (Analysis.profit s)) Hacc Hs)
      as [Hstep Hset].
    destruct (IH (acc + Fin (profit_value (Analysis.profit s)))%num Hset) as [F S].
    { intros u Hu. apply H. now right. }
    split.
    + constructor; [exact Hstep |].
      rewrite Forall_forall in F |- *. intros x Hx.
      apply le_trans with (acc + Fin (profit_value (Analysis.profit s)))%num;
        [exact Hstep | now apply F].
    + constructor; [exact S | exact F].
Qed.

(** X23. When no kept trade has a negative profit the cumulative series
    never goes down, and it never goes below zero. *)
Theorem series_without_losses {engine : Engine} (ts : list Analysis.Trade) :
  (forall t, In t ts -> has_open_time t = true -> 0 <= trade_value t) ->
  StronglySorted (fun x y => Num.le x y = true)
    (Analysis.cum (Analysis.timeseries ts)) /\
  Forall (fun x => Num.le zero x = true) (Analysis.cum (Analysis.timeseries ts)).
Proof.
  intros H. unfold Analysis.timeseries. cbn [Analysis.cum].
  destruct (@cum_loop_nondecreasing (Analysis.sorted_trades ts) zero settled_zero)
    as [F S].
  - intros t Ht.
    assert (Hk : In t (filter has_open_time ts)).
    { apply Permutation_in with (Analysis.sorted_trades ts); [| exact Ht].
      apply Permutation_sym, sort_perm. }
    apply filter_In in Hk. destruct Hk as [Hin Ho]. now apply H.
  - split; [exact S | exact F].
Qed.

Lemma series_without_losses_witness :
  StronglySorted (fun x y => Num.le x y = true)
    (Analysis.cum
       (Analysis.timeseries (engine := Sample.engine)
          [Sample.third_trade; Sample.first_trade])) /\
  Forall (fun x => Num.le zero x = true)
    (Analysis.cum
       (Analysis.timeseries (engine := Sample.engine)
          [Sample.third_trade; Sample.first_trade])).
Proof.
  apply (@series_without_losses Sample.engine).
  intros t [<- | [<- | []]] _; vm_compute; discriminate.
Defined.

(** ** The closed profit on whole numbers *)

(** X25. When the profits of the closed trades are whole numbers whose
    absolute values add up to [2^53] at most, the closed profit of the
    dashboard is their exact sum: no rounding occurs. *)
Theorem closed_profit_exact (rows : list Dashboard.Trade) :
  let values := List.map row_value (Dashboard.historyTrades rows) in
  Forall whole values ->
  qsum (List.map Qabs values) <= inject_Z (2 ^ 53) ->
  Dashboard.totalClosedProfit rows = Fin (Qred (qsum values)).
Proof.
  intros values W B. rewrite totalClosedProfit_sum. fold values.
  unfold float_sum. change zero with (of_Z 0).
  rewrite (@float_sum_exact values 0 W).
  - f_equal. apply Qred_complete. ring.
  - change (inject_Z (Z.abs 0)) with 0. lra.
Qed.

Lemma closed_profit_exact_witness :
  Dashboard.totalClosedProfit [Sample.closed_1; Sample.active_2; Sample.closed_3]
  = Fin (Qred (qsum [100; -40])).
Proof.
  apply (@closed_profit_exact [Sample.closed_1; Sample.active_2; Sample.closed_3]).
  - repeat constructor; [exists 100%Z | exists (-40)%Z]; reflexivity.
  - vm_compute. discriminate.
Defined.
